(** * Cluster sizer: a shallow embedding of the scheduling core

    The development follows the TypeScript sources of the sizing library:
    - [lib/src/utils/common.ts]   resource accounting,
    - [lib/src/utils/node.ts]     node admission and zone ranking,
    - [lib/src/utils/service.ts]  node creation, bundle placement, grouping,
    - [lib/src/utils/workload.ts] descriptor expansion and feasibility,
    - [lib/src/scheduler/workloadScheduler.ts] the scheduler,
    - [lib/src/core/ClusterSizer.ts] the facade,
    - [src/utils/common.ts]       over-commit metrics.

    JavaScript numbers that carry quantities (cores, GB, ratios) are modelled
    as exact rationals [Q], so the rounding of floating-point arithmetic is
    outside the model; identifiers and counts are integers [Z].  Arrays are
    lists.  The module-level id counters are an explicit state that every
    allocating function threads; thrown exceptions are the left summand of the
    result. *)

From Stdlib Require Import List String Ascii ZArith QArith Qround Qminmax Bool Lia Lqa.
From Stdlib Require Import DecimalString Sorted Permutation.
Import ListNotations.

Set Implicit Arguments.
Local Open Scope Z_scope.

(** ** Data model *)

Module Service.
(** [lib/src/types/Service.ts], type [Service]. *)
Record t := mk {
  id : option Z;
  name : string;
  requiredCPU : Q;
  requiredMemory : Q;
  limitCPU : option Q;
  limitMemory : option Q;
  minLimitCPU : option Q;
  maxLimitCPU : option Q;
  minLimitMemory : option Q;
  maxLimitMemory : option Q;
  zones : Z;
  runsWith : list Z;
  avoid : list Z
}.
End Service.

Module ServiceDescriptor.
(** [ServiceDescriptor]: a [Service] whose [runsWith] and [avoid] name
    services instead of listing ids. *)
Record t := mk {
  id : option Z;
  name : string;
  requiredCPU : Q;
  requiredMemory : Q;
  limitCPU : option Q;
  limitMemory : option Q;
  minLimitCPU : option Q;
  maxLimitCPU : option Q;
  minLimitMemory : option Q;
  maxLimitMemory : option Q;
  zones : Z;
  runsWith : list string;
  avoid : list string
}.
End ServiceDescriptor.

Module Workload.
(** [lib/src/types/Workload.ts], type [Workload]. *)
Record t := mk {
  id : option Z;
  name : string;
  count : Z;
  usesMachines : list string;
  services : list Z;
  allowControlPlane : option bool;
  requireControlPlane : option bool
}.
End Workload.

Module WorkloadDescriptor.
Record t := mk {
  id : option Z;
  name : string;
  count : Z;
  usesMachines : list string;
  services : list ServiceDescriptor.t;
  allowControlPlane : option bool;
  requireControlPlane : option bool
}.
End WorkloadDescriptor.

Module MachineSet.
(** The fields the scheduler reads from a [MachineSet]. *)
Record t := mk {
  name : string;
  cpu : Q;
  memory : Q;
  instanceName : string;
  numberOfDisks : Z;
  onlyFor : list string;
  label : string;
  allowWorkloadScheduling : option bool;
  controlPlaneReserved : option (Q * Q)
}.
End MachineSet.

Module Node.
(** [lib/src/types/Node.ts], type [Node]. *)
Record t := mk {
  id : Z;
  maxDisks : Z;
  cpuUnits : Q;
  memory : Q;
  machineSet : string;
  services : list Z;
  instanceName : option string;
  onlyFor : list string;
  isControlPlane : option bool;
  allowWorkloadScheduling : option bool;
  controlPlaneReserved : option (Q * Q)
}.

Definition with_services (n : t) (s : list Z) : t :=
  mk (id n) (maxDisks n) (cpuUnits n) (memory n) (machineSet n) s
     (instanceName n) (onlyFor n) (isControlPlane n)
     (allowWorkloadScheduling n) (controlPlaneReserved n).
End Node.

Module Zone.
Record t := mk { id : Z; nodes : list Z }.
End Zone.

Module Instance.
(** The fields of a platform [Instance] read by the facade. *)
Record t := mk {
  name : string;
  memory : Q;
  cpuUnits : Q;
  maxDisks : option Z
}.
End Instance.

Inductive Platform : Type :=
  | BAREMETAL | GCP | AZURE | VMware | RHV | AWS | IBMC | IBMV.

(** ** JavaScript helpers *)

(** [value === true] style truthiness of an optional boolean. *)
Definition truthy (b : option bool) : bool :=
  match b with Some true => true | _ => false end.

(** [Array.prototype.includes] on numbers and on strings. *)
Definition includesZ (l : list Z) (x : Z) : bool := existsb (Z.eqb x) l.
Definition includesS (l : list string) (x : string) : bool := existsb (String.eqb x) l.

(** [includes] of an optional id: [undefined] is never an element of a
    number array. *)
Definition includesId (l : list Z) (x : option Z) : bool :=
  match x with Some i => includesZ l i | None => false end.

(** [a === b] on optional ids. *)
Definition eqId (a b : option Z) : bool :=
  match a, b with
  | Some x, Some y => Z.eqb x y
  | None, None => true
  | _, _ => false
  end.

(** [String.prototype.includes]. *)
Fixpoint str_includes (needle hay : string) : bool :=
  if String.prefix needle hay then true
  else match hay with
       | EmptyString => false
       | String _ rest => str_includes needle rest
       end.

(** [String.prototype.toLowerCase] on strings of ASCII characters, where it
    lowers [A] to [Z] and leaves every other character alone.  The function
    of the language is aware of Unicode (it lowers U+212A, the Kelvin sign,
    to [k]), so the scheduler below takes it as a parameter; this restriction
    serves the closed statements only, whose names are ASCII. *)
Definition lower_ascii (c : ascii) : ascii :=
  let n := nat_of_ascii c in
  if andb (Nat.leb 65 n) (Nat.leb n 90) then ascii_of_nat (n + 32) else c.

Fixpoint toLowerCase_ascii (s : string) : string :=
  match s with
  | EmptyString => EmptyString
  | String c rest => String (lower_ascii c) (toLowerCase_ascii rest)
  end.

(** [String.prototype.toUpperCase] on the ASCII range. *)
Definition upper_ascii (c : ascii) : ascii :=
  let n := nat_of_ascii c in
  if andb (Nat.leb 97 n) (Nat.leb n 122) then ascii_of_nat (n - 32) else c.

Fixpoint toUpperCase (s : string) : string :=
  match s with
  | EmptyString => EmptyString
  | String c rest => String (upper_ascii c) (toUpperCase rest)
  end.

(** [a > b] and [a < b] on quantities. *)
Definition Qgtb (a b : Q) : bool := negb (Qle_bool a b).
Definition Qltb (a b : Q) : bool := negb (Qle_bool b a).

(** [Array.prototype.sort] with a comparator: the sort is stable, and
    [before a b] holds when the comparator is negative on [(a, b)]. *)
Section Sort.
Variable A : Type.
Variable before : A -> A -> bool.

Fixpoint insert_sorted (x : A) (l : list A) : list A :=
  match l with
  | [] => [x]
  | y :: rest => if before y x then y :: insert_sorted x rest else x :: l
  end.

Definition sortBy (l : list A) : list A := fold_right insert_sorted [] l.
End Sort.

(** [Array.prototype.findIndex] followed by an assignment at that index. *)
Fixpoint replaceFirst {A : Type} (p : A -> bool) (f : A -> A) (l : list A) : list A :=
  match l with
  | [] => []
  | x :: rest => if p x then f x :: rest else x :: replaceFirst p f rest
  end.

(** Defined ids of a list of services:
    [services.map(s => s.id).filter(id => id !== undefined)]. *)
Fixpoint definedIds (l : list Service.t) : list Z :=
  match l with
  | [] => []
  | s :: rest => match Service.id s with
                 | Some i => i :: definedIds rest
                 | None => definedIds rest
                 end
  end.

(** [list.reduce((sum, x) => sum + f(x), 0)]: the sum in list order, with
    exact additions. *)
Definition sumQ {A} (f : A -> Q) (l : list A) : Q :=
  fold_left (fun sum x => (sum + f x)%Q) l 0%Q.

(** Decimal rendering of an integral number inside a template string. *)
Definition showZ (z : Z) : string := NilZero.string_of_int (Z.to_int z).

(** ** Resource accounting ([lib/src/utils/common.ts]) *)

Record ResourceRequirement := mkReq {
  totalMem : Q;
  totalCPU : Q;
  totalDisks : Z
}.

Definition addRequirement (multiplyByZone : bool)
  (acc : ResourceRequirement) (service : Service.t) : ResourceRequirement :=
  {| totalMem := (totalMem acc +
        (if multiplyByZone
         then Service.requiredMemory service * inject_Z (Service.zones service)
         else Service.requiredMemory service))%Q;
     totalCPU := (totalCPU acc +
        (if multiplyByZone
         then Service.requiredCPU service * inject_Z (Service.zones service)
         else Service.requiredCPU service))%Q;
     totalDisks := if str_includes "Ceph_OSD" (Service.name service)
                   then totalDisks acc + 1 else totalDisks acc |}.

Definition getTotalResourceRequirement
  (services : list Service.t) (multiplyByZone : bool) : ResourceRequirement :=
  fold_left (addRequirement multiplyByZone) services (mkReq 0 0 0).

(** ** Module state and exceptions *)

(** The four module-level counters ([zoneIdCounter], [nodeIdCounter],
    [workloadIdCounter], [serviceIdCounter]).  They live as long as the
    process and are shared by every call. *)
Record Counters := mkCounters {
  zoneIdCounter : Z;
  nodeIdCounter : Z;
  workloadIdCounter : Z;
  serviceIdCounter : Z
}.

Inductive error : Type :=
  | NotSchedulable (message : string)   (* [throw new Error(message)] *)
  | TypeError.                          (* a property read on [undefined] *)

(** A computation reads and updates the counters and either returns or
    throws; the counters survive a throw. *)
Definition M (A : Type) : Type := Counters -> (error + A) * Counters.

Definition ret {A} (a : A) : M A := fun c => (inr a, c).
Definition throw {A} (e : error) : M A := fun c => (inl e, c).
Definition bind {A B} (m : M A) (f : A -> M B) : M B :=
  fun c => match m c with
           | (inl e, c') => (inl e, c')
           | (inr a, c') => f a c'
           end.

Notation "x <- m ;; k" := (bind m (fun x => k))
  (at level 61, m at next level, right associativity).
Notation "' pat <- m ;; k" := (bind m (fun x => match x with pat => k end))
  (at level 61, pat pattern, m at next level, right associativity).

(** [list.forEach] with a body that updates a local state. *)
Fixpoint forEachM {A S} (body : S -> A -> M S) (l : list A) (s : S) : M S :=
  match l with
  | [] => ret s
  | x :: rest => s' <- body s x ;; forEachM body rest s'
  end.

(** [_.times(n, body)] with a body that updates a local state. *)
Fixpoint timesM {S} (n : nat) (body : S -> M S) (s : S) : M S :=
  match n with
  | O => ret s
  | S k => s' <- body s ;; timesM k body s'
  end.

Definition generateZoneID : M Z :=
  fun c => let i := zoneIdCounter c + 1 in
           (inr i, mkCounters i (nodeIdCounter c) (workloadIdCounter c) (serviceIdCounter c)).
Definition generateNodeID : M Z :=
  fun c => let i := nodeIdCounter c + 1 in
           (inr i, mkCounters (zoneIdCounter c) i (workloadIdCounter c) (serviceIdCounter c)).
Definition generateWorkloadID : M Z :=
  fun c => let i := workloadIdCounter c + 1 in
           (inr i, mkCounters (zoneIdCounter c) (nodeIdCounter c) i (serviceIdCounter c)).
Definition generateServiceID : M Z :=
  fun c => let i := serviceIdCounter c + 1 in
           (inr i, mkCounters (zoneIdCounter c) (nodeIdCounter c) (workloadIdCounter c) i).

Section Sizer.

(** [String.prototype.toLowerCase], a function of the JavaScript runtime:
    the scheduler only calls it, and nothing is assumed of it. *)
Variable toLowerCase : string -> string.

(** The kubelet reservation functions of [lib/src/utils/kubelet.ts] and the
    platform catalog of [lib/src/data]: the scheduler only calls them. *)
Variable getNodeKubeletCPURequirements : Q -> Q.
Variable getNodeKubeletMemoryRequirements : Q -> Q.
Variable getDefaultInstanceForPlatform : Platform -> Instance.t.

(** [canNodeSupportRequirements], [lib/src/utils/common.ts]. *)
Definition canNodeSupportRequirements
  (requirements currentUsage : ResourceRequirement) (node : Node.t) : bool :=
  let kubeletCPU := getNodeKubeletCPURequirements (Node.cpuUnits node) in
  let kubeletMemory := getNodeKubeletMemoryRequirements (Node.memory node) in
  if Qgtb (totalCPU requirements + totalCPU currentUsage + kubeletCPU) (Node.cpuUnits node)
     || Qgtb (totalMem requirements + totalMem currentUsage + kubeletMemory) (Node.memory node)
     || (totalDisks requirements + totalDisks currentUsage >? Node.maxDisks node)
  then false else true.

(** ** Node admission ([lib/src/utils/node.ts]) *)

Definition controlPlaneServiceNames : list string :=
  [ "kube-apiserver"; "etcd"; "kube-controller-manager"; "kube-scheduler";
    "cluster-version-operator"; "control-plane"; "controlplane" ]%string.

Definition isControlPlaneService (service : Service.t) : bool :=
  existsb (fun name => str_includes (toLowerCase name) (toLowerCase (Service.name service)))
          controlPlaneServiceNames.

Definition getServicesInNode (node : Node.t) (services : list Service.t) : list Service.t :=
  filter (fun service => includesId (Node.services node) (Service.id service)) services.

Definition canNodeAddService
  (node : Node.t) (candidate : Service.t) (allServices : list Service.t)
  (workloads : list Workload.t) (machineSets : list MachineSet.t) : bool :=
  match Service.id candidate with
  | None => false
  | Some candidateId =>
    match find (fun workload => includesZ (Workload.services workload) candidateId) workloads with
    | None => false
    | Some currentWorkload =>
      if negb (match Workload.usesMachines currentWorkload with [] => true | _ => false end)
         && negb (includesS (Workload.usesMachines currentWorkload) (Node.machineSet node))
      then false
      else
        let machineSet :=
          find (fun ms => String.eqb (MachineSet.name ms) (Node.machineSet node)) machineSets in
        let msAllows :=
          match machineSet with
          | Some ms => truthy (MachineSet.allowWorkloadScheduling ms)
          | None => false
          end in
        let continue_ (_ : unit) :=
          let isSchedulableControlPlane :=
            match machineSet with
            | Some ms => String.eqb (MachineSet.name ms) "controlPlane"
                         && truthy (MachineSet.allowWorkloadScheduling ms)
            | None => false
            end in
          if negb isSchedulableControlPlane
             && negb (match Node.onlyFor node with [] => true | _ => false end)
             && negb (includesS (Node.onlyFor node) (Workload.name currentWorkload))
          then false
          else
            let existingServicesIds := Node.services node in
            let existingServices := getServicesInNode node allServices in
            if existsb (includesZ existingServicesIds) (Service.avoid candidate)
            then false
            else
              let existingAvoids := flat_map Service.avoid existingServices in
              if includesZ existingAvoids candidateId
              then false
              else
                let nodeResourceConsumption :=
                  getTotalResourceRequirement existingServices false in
                let coplacedServices :=
                  filter (fun service => includesId (Service.runsWith candidate) (Service.id service))
                         allServices in
                let adjustedCandidates := coplacedServices ++ [candidate] in
                let candidateResourceRequirement :=
                  getTotalResourceRequirement adjustedCandidates false in
                canNodeSupportRequirements
                  candidateResourceRequirement nodeResourceConsumption node in
        if truthy (Node.isControlPlane node)
        then
          if isControlPlaneService candidate then true
          else if negb (truthy (Node.allowWorkloadScheduling node)) && negb msAllows
               then false
               else continue_ tt
        else
          if truthy (Workload.requireControlPlane currentWorkload) then false
          else continue_ tt
    end
  end.

Definition getTotalNodeMemoryConsumption (node : Node.t) (services : list Service.t) : Q :=
  totalMem (getTotalResourceRequirement (getServicesInNode node services) false).

(** [_.max] of a list of numbers, [None] on the empty list. *)
Definition maxZ (l : list Z) : option Z :=
  match l with
  | [] => None
  | x :: rest => Some (fold_left Z.max rest x)
  end.

(** [value || 1] on an optional number. *)
Definition orOne (v : option Z) : Z :=
  match v with
  | Some z => if z =? 0 then 1 else z
  | None => 1
  end.

Definition getMaxZones (services : list Service.t) : Z :=
  orOne (maxZ (map Service.zones services)).

Definition getOSDsInNode (node : Node.t) (services : list Service.t) : Z :=
  let nodeServices := getServicesInNode node services in
  Z.of_nat (List.length
    (filter (fun service => str_includes "OSD" (toUpperCase (Service.name service)))
            nodeServices)).

Definition sortBestZones
  (zones : list Zone.t) (nodes : list Node.t)
  (allServices : list Service.t) (workload : list Service.t) : list Zone.t :=
  let requirements := getTotalResourceRequirement workload false in
  let suitableZones :=
    flat_map (fun zone =>
      let nodesInZone := filter (fun node => includesZ (Zone.nodes zone) (Node.id node)) nodes in
      let nodesThatCanSupport :=
        filter (fun node =>
          let servicesInNode := getServicesInNode node allServices in
          let currentNodeUsage := getTotalResourceRequirement servicesInNode false in
          canNodeSupportRequirements requirements currentNodeUsage node) nodesInZone in
      if (0 <? Z.of_nat (List.length nodesThatCanSupport))
      then [(zone, Z.of_nat (List.length nodesThatCanSupport))] else []) zones in
  let sorted :=
    sortBy (fun a b =>
      let diff := snd b - snd a in
      if diff =? 0 then Zone.id (fst b) - Zone.id (fst a) <? 0 else diff <? 0)
      suitableZones in
  map fst sorted.

(** ** Placement ([lib/src/utils/service.ts]) *)

Definition isControlPlaneName (n : string) : bool :=
  String.eqb n "controlPlane" || String.eqb n "control-plane".

Definition getMachineSetForWorkload
  (workload : Workload.t) (machineSets : list MachineSet.t) : option MachineSet.t :=
  match find (fun ms => includesS (MachineSet.onlyFor ms) (Workload.name workload)) machineSets with
  | Some dedicatedMS => Some dedicatedMS
  | None =>
    if (0 <? Z.of_nat (List.length (Workload.usesMachines workload)))
    then find (fun ms => includesS (Workload.usesMachines workload) (MachineSet.name ms)) machineSets
    else
      match find (fun ms => negb (isControlPlaneName (MachineSet.name ms))) machineSets with
      | Some defaultMS => Some defaultMS
      | None => hd_error machineSets
      end
  end.

Definition getRequiredZones (service : Service.t) (zones : list Zone.t) : Z :=
  if Z.of_nat (List.length zones) <? Service.zones service
  then Service.zones service - Z.of_nat (List.length zones)
  else 0.

Definition sortNodesWithLeastConsumption
  (nodes : list Node.t) (services candidateServices : list Service.t)
  (workloads : list Workload.t) (machineSets : list MachineSet.t) : list Node.t :=
  let viableNodes :=
    filter (fun node =>
      forallb (fun candidate =>
        canNodeAddService node candidate services workloads machineSets) candidateServices)
      nodes in
  sortBy (fun a b =>
    Qltb (getTotalNodeMemoryConsumption a services)
         (getTotalNodeMemoryConsumption b services)) viableNodes.

(** [getNode]: the object literal first draws the id, then reads the
    machine set; an [undefined] machine set throws on [machineSet.cpu]. *)
Definition getNode (machineSet : option MachineSet.t) : M Node.t :=
  i <- generateNodeID ;;
  match machineSet with
  | None => throw TypeError
  | Some ms =>
    let isCP := String.eqb (MachineSet.name ms) "controlPlane" in
    ret {| Node.id := i;
           Node.maxDisks := MachineSet.numberOfDisks ms;
           Node.cpuUnits := MachineSet.cpu ms;
           Node.memory := MachineSet.memory ms;
           Node.machineSet := MachineSet.name ms;
           Node.services := [];
           Node.instanceName := Some (MachineSet.instanceName ms);
           Node.onlyFor := MachineSet.onlyFor ms;
           Node.isControlPlane := Some isCP;
           Node.allowWorkloadScheduling :=
             match MachineSet.allowWorkloadScheduling ms with
             | Some b => Some b
             | None => if isCP then Some false else None
             end;
           Node.controlPlaneReserved :=
             match MachineSet.controlPlaneReserved ms with
             | Some r => Some r
             | None => if isCP then Some (2 # 1, 4 # 1)%Q else None
             end |}
  end.

Definition addServiceToZone
  (zone : Zone.t) (nodes : list Node.t) (services candidateServices : list Service.t)
  (workloads : list Workload.t) (machineSets : list MachineSet.t)
  : M (list Node.t * Zone.t) :=
  let nodesInZone := filter (fun node => includesZ (Zone.nodes zone) (Node.id node)) nodes in
  let sortedViableNodes :=
    sortNodesWithLeastConsumption nodesInZone services candidateServices workloads machineSets in
  match sortedViableNodes with
  | nodeToRun :: _ =>
    let servicesToAdd := definedIds candidateServices in
    ret (replaceFirst (fun n => Node.id n =? Node.id nodeToRun)
           (fun n => Node.with_services n (Node.services n ++ servicesToAdd)) nodes,
         zone)
  | [] =>
    match candidateServices with
    | [] => throw TypeError
    | first :: _ =>
      match find (fun wl => includesId (Workload.services wl) (Service.id first)) workloads with
      | None => ret (nodes, zone)
      | Some workload =>
        node <- getNode (getMachineSetForWorkload workload machineSets) ;;
        let node' := Node.with_services node (definedIds candidateServices) in
        ret (nodes ++ [node'],
             Zone.mk (Zone.id zone) (Zone.nodes zone ++ [Node.id node']))
      end
    end
  end.

Definition getCoplacedServices
  (candidateService : Service.t) (services : list Service.t) : list Service.t :=
  candidateService ::
  filter (fun service =>
    includesId (Service.runsWith candidateService) (Service.id service)
    && negb (eqId (Service.id service) (Service.id candidateService))) services.

Definition getAvoidedServiceIds (services : list Service.t) : list Z :=
  fold_left (fun acc curr => acc ++ Service.avoid curr) services [].

(** [runsWith.map(id => services.find(s => s.id === id)).filter(defined)]. *)
Definition lookupServices (services : list Service.t) (ids : list Z) : list Service.t :=
  flat_map (fun i =>
    match find (fun s => eqId (Service.id s) (Some i)) services with
    | Some s => [s]
    | None => []
    end) ids.

(** The body of the [forEach] of [getAllCoplacedServices], on the pair
    [(scheduledIDs, coplacedServices)]. *)
Definition coplacedStep (services : list Service.t)
  (st : list Z * list (list Service.t)) (service : Service.t)
  : list Z * list (list Service.t) :=
  match Service.id service with
  | Some i =>
    if negb (includesZ (fst st) i)
    then
      let coRunners := service :: lookupServices services (Service.runsWith service) in
      (fst st ++ [i] ++ Service.runsWith service, snd st ++ [coRunners])
    else st
  | None => st
  end.

Definition getAllCoplacedServices (services : list Service.t) : list (list Service.t) :=
  snd (fold_left (coplacedStep services) services ([], [])).

(** [sortServices] as a comparator: negative when bundle B weighs less than
    bundle A, so heavier bundles come first. *)
Definition sortServices (serviceA serviceB : list Service.t) : Q :=
  let ra := getTotalResourceRequirement serviceA false in
  let rb := getTotalResourceRequirement serviceB false in
  (totalMem rb + totalCPU rb - (totalMem ra + totalCPU ra))%Q.

(** ** Feasibility ([lib/src/utils/workload.ts]) *)

Definition areServicesSchedulable
  (services : list Service.t) (machineSet : MachineSet.t) : bool :=
  let r := getTotalResourceRequirement services false in
  let kubeletCPU := getNodeKubeletCPURequirements (MachineSet.cpu machineSet) in
  let kubeletMemory := getNodeKubeletMemoryRequirements (MachineSet.memory machineSet) in
  Qle_bool (totalMem r + kubeletMemory) (MachineSet.memory machineSet)
  && Qle_bool (totalCPU r + kubeletCPU) (MachineSet.cpu machineSet)
  && (totalDisks r <=? MachineSet.numberOfDisks machineSet).

Definition getWorkloadServices (workload : Workload.t) (services : list Service.t)
  : list Service.t :=
  filter (fun service => includesId (Workload.services workload) (Service.id service)) services.

Definition isWorkloadSchedulable
  (services : list Service.t) (machineSets : list MachineSet.t) (workload : Workload.t)
  : bool * list MachineSet.t :=
  let serviceObjects := getWorkloadServices workload services in
  let coplacedServices := getAllCoplacedServices serviceObjects in
  let sortedServices := sortBy (fun a b => Qltb (sortServices a b) 0) coplacedServices in
  let fits ms := forallb (fun ser => areServicesSchedulable ser ms) sortedServices in
  let usesMachines := Workload.usesMachines workload in
  if (0 <? Z.of_nat (List.length usesMachines))
  then
    let preferredMS := filter (fun ms => includesS usesMachines (MachineSet.name ms)) machineSets in
    let canRun := filter fits preferredMS in
    if (0 <? Z.of_nat (List.length canRun)) then (true, canRun) else (false, [])
  else
    let dedicatedMS :=
      filter (fun ms => includesS (MachineSet.onlyFor ms) (Workload.name workload)) machineSets in
    let dedicatedRun := filter fits dedicatedMS in
    if (0 <? Z.of_nat (List.length dedicatedMS)) && (0 <? Z.of_nat (List.length dedicatedRun))
    then (true, dedicatedRun)
    else
      let canRun :=
        filter (fun ms =>
          if isControlPlaneName (MachineSet.name ms)
             && negb (truthy (MachineSet.allowWorkloadScheduling ms))
          then false
          else
            ((Z.of_nat (List.length (MachineSet.onlyFor ms)) =? 0)
             || includesS (MachineSet.onlyFor ms) (Workload.name workload))
            && fits ms) machineSets in
      if (0 <? Z.of_nat (List.length canRun)) then (true, canRun) else (false, []).

(** [getWorkloadFromDescriptors]: every service draws a fresh id in input
    order, names in [runsWith] and [avoid] are resolved to the id of the first
    service of the same descriptor bearing that name (unknown names are
    dropped), then the workload draws its id. *)
Fixpoint assignServiceIds (services : list ServiceDescriptor.t)
  : M (list (Z * ServiceDescriptor.t)) :=
  match services with
  | [] => ret []
  | s :: rest =>
    i <- generateServiceID ;;
    tl <- assignServiceIds rest ;;
    ret ((i, s) :: tl)
  end.

Definition resolveNames (serviceDescriptors : list (Z * ServiceDescriptor.t))
  (names : list string) : list Z :=
  flat_map (fun item =>
    match find (fun so => String.eqb (ServiceDescriptor.name (snd so)) item) serviceDescriptors with
    | Some so => [fst so]
    | None => []
    end) names.

Definition serviceOfDescriptor (serviceDescriptors : list (Z * ServiceDescriptor.t))
  (curr : Z * ServiceDescriptor.t) : Service.t :=
  let d := snd curr in
  {| Service.id := Some (fst curr);
     Service.name := ServiceDescriptor.name d;
     Service.requiredCPU := ServiceDescriptor.requiredCPU d;
     Service.requiredMemory := ServiceDescriptor.requiredMemory d;
     Service.limitCPU := ServiceDescriptor.limitCPU d;
     Service.limitMemory := ServiceDescriptor.limitMemory d;
     Service.minLimitCPU := ServiceDescriptor.minLimitCPU d;
     Service.maxLimitCPU := ServiceDescriptor.maxLimitCPU d;
     Service.minLimitMemory := ServiceDescriptor.minLimitMemory d;
     Service.maxLimitMemory := ServiceDescriptor.maxLimitMemory d;
     Service.zones := ServiceDescriptor.zones d;
     Service.runsWith := resolveNames serviceDescriptors (ServiceDescriptor.runsWith d);
     Service.avoid := resolveNames serviceDescriptors (ServiceDescriptor.avoid d) |}.

Definition getWorkloadFromDescriptors (workload : WorkloadDescriptor.t)
  : M (list Service.t * Workload.t) :=
  serviceDescriptors <- assignServiceIds (WorkloadDescriptor.services workload) ;;
  let serviceObjects := map (serviceOfDescriptor serviceDescriptors) serviceDescriptors in
  let serviceIDs := map fst serviceDescriptors in
  w <- generateWorkloadID ;;
  ret (serviceObjects,
       {| Workload.id := Some w;
          Workload.name := WorkloadDescriptor.name workload;
          Workload.count := WorkloadDescriptor.count workload;
          Workload.usesMachines := WorkloadDescriptor.usesMachines workload;
          Workload.services := serviceIDs;
          Workload.allowControlPlane := WorkloadDescriptor.allowControlPlane workload;
          Workload.requireControlPlane := WorkloadDescriptor.requireControlPlane workload |}).

(** [ids.map(r => services.find(serv => serv.id === r)?.name).filter(defined)]. *)
Definition resolveIds (services : list Service.t) (ids : list Z) : list string :=
  flat_map (fun r =>
    match find (fun serv => eqId (Service.id serv) (Some r)) services with
    | Some serv => [Service.name serv]
    | None => []
    end) ids.

Definition descriptorOfService (services : list Service.t) (s : Service.t)
  : ServiceDescriptor.t :=
  {| ServiceDescriptor.id := Service.id s;
     ServiceDescriptor.name := Service.name s;
     ServiceDescriptor.requiredCPU := Service.requiredCPU s;
     ServiceDescriptor.requiredMemory := Service.requiredMemory s;
     ServiceDescriptor.limitCPU := Service.limitCPU s;
     ServiceDescriptor.limitMemory := Service.limitMemory s;
     ServiceDescriptor.minLimitCPU := Service.minLimitCPU s;
     ServiceDescriptor.maxLimitCPU := Service.maxLimitCPU s;
     ServiceDescriptor.minLimitMemory := Service.minLimitMemory s;
     ServiceDescriptor.maxLimitMemory := Service.maxLimitMemory s;
     ServiceDescriptor.zones := Service.zones s;
     ServiceDescriptor.runsWith := resolveIds services (Service.runsWith s);
     ServiceDescriptor.avoid := resolveIds services (Service.avoid s) |}.

(** [getDescriptorFromWorkload]: the services the workload lists, with the
    ids of [runsWith] and [avoid] turned back into the names of the services
    of [services] that bear them. *)
Definition getDescriptorFromWorkload (workload : Workload.t) (services : list Service.t)
  : WorkloadDescriptor.t :=
  let usedServices :=
    filter (fun service => includesId (Workload.services workload) (Service.id service))
           services in
  let serviceDescriptors := map (descriptorOfService services) usedServices in
  {| WorkloadDescriptor.id := Workload.id workload;
     WorkloadDescriptor.name := Workload.name workload;
     WorkloadDescriptor.count := Workload.count workload;
     WorkloadDescriptor.usesMachines := Workload.usesMachines workload;
     WorkloadDescriptor.services := serviceDescriptors;
     WorkloadDescriptor.allowControlPlane := Workload.allowControlPlane workload;
     WorkloadDescriptor.requireControlPlane := Workload.requireControlPlane workload |}.

(** ** The scheduler ([lib/src/scheduler/workloadScheduler.ts]) *)

Definition createZones (requiredZones : Z) : M (list Zone.t) :=
  timesM (Z.to_nat requiredZones)
    (fun generatedZones => i <- generateZoneID ;; ret (generatedZones ++ [Zone.mk i []]))
    [].

(** [Array.prototype.pop]: the last element. *)
Definition pop {A} (l : list A) : option A := hd_error (rev l).

(** The state the placement loop updates: the local [zones] and [nodes], and
    the caller's [usedZonesId] array, which is mutated in place. *)
Record SchedulerState := mkState {
  st_zones : list Zone.t;
  st_nodes : list Node.t;
  st_usedZonesId : list Z
}.

(** Lines 79-108 of [workloadScheduler]: the zone one replica goes to, and
    the used-zone array after the choice. *)
Definition chooseZone (services bundle : list Service.t) (st : SchedulerState)
  : option Zone.t * list Z :=
  let zones := st_zones st in
  let usedZonesId := st_usedZonesId st in
  let filteredZones := filter (fun z => negb (includesZ usedZonesId (Zone.id z))) zones in
  let suitableZones := sortBestZones filteredZones (st_nodes st) services bundle in
  match pop suitableZones with
  | Some bestZone => (Some bestZone, usedZonesId ++ [Zone.id bestZone])
  | None =>
    match find (fun z => negb (includesZ usedZonesId (Zone.id z))) zones with
    | Some bestZone => (Some bestZone, usedZonesId ++ [Zone.id bestZone])
    | None =>
      let sortedZones := sortBy (fun a b => Zone.id b - Zone.id a <? 0) zones in
      match hd_error sortedZones with
      | Some bestZone => (Some bestZone, [Zone.id bestZone])
      | None => (None, [])
      end
    end
  end.

(** One iteration of [_.times(scheduleInZones, ...)]. *)
Definition placeReplica (workload : Workload.t) (services : list Service.t)
  (machineSets : list MachineSet.t) (bundle : list Service.t) (st : SchedulerState)
  : M SchedulerState :=
  let '(bestZone, usedZonesId) := chooseZone services bundle st in
  match bestZone with
  | None => throw TypeError
  | Some zone =>
    '(nodes, zone') <- addServiceToZone zone (st_nodes st) services bundle [workload] machineSets ;;
    ret (mkState
           (replaceFirst (fun z => Zone.id z =? Zone.id zone') (fun _ => zone') (st_zones st))
           nodes usedZonesId)
  end.

Definition unscheduled (scheduledServiceIDs : list Z) (service : Service.t) : bool :=
  match Service.id service with
  | Some i => negb (includesZ scheduledServiceIDs i)
  | None => false
  end.

(** The body of [serviceObjects.forEach]. *)
Definition scheduleService (workload : Workload.t) (services : list Service.t)
  (machineSets : list MachineSet.t) (serviceObjects : list Service.t)
  (acc : SchedulerState * list Z) (candidateService : Service.t)
  : M (SchedulerState * list Z) :=
  let '(st, scheduledServiceIDs) := acc in
  if unscheduled scheduledServiceIDs candidateService
  then
    let bundle :=
      getCoplacedServices candidateService
        (filter (unscheduled scheduledServiceIDs) serviceObjects) in
    let scheduleInZones := getMaxZones bundle in
    st' <- timesM (Z.to_nat scheduleInZones)
             (placeReplica workload services machineSets bundle) st ;;
    ret (st', scheduledServiceIDs ++ definedIds bundle)
  else ret acc.

Definition workloadScheduler
  (workload : Workload.t) (services : list Service.t) (machineSets : list MachineSet.t)
  (currentZones : list Zone.t) (currentNodes : list Node.t) (usedZonesId : list Z)
  : M SchedulerState :=
  let serviceObjects := getWorkloadServices workload services in
  let maxZonesRequired := orOne (maxZ (map Service.zones serviceObjects)) in
  zones <-
    (if maxZonesRequired >? Z.of_nat (List.length currentZones)
     then zoneObjects <- createZones (maxZonesRequired - Z.of_nat (List.length currentZones)) ;;
          ret (currentZones ++ zoneObjects)
     else ret currentZones) ;;
  '(st, _) <- forEachM (scheduleService workload services machineSets serviceObjects)
                serviceObjects (mkState zones currentNodes usedZonesId, []) ;;
  ret st.

(** [pruneNodes], [lib/src/scheduler]: drops the nodes that share an id
    with a node without services, and then the zones none of whose listed
    ids is the id of a remaining node. *)
Definition pruneNodes (nodes : list Node.t) (zones : list Zone.t)
  : list Node.t * list Zone.t :=
  let nodesToPrune :=
    filter (fun node => Z.of_nat (List.length (Node.services node)) =? 0) nodes in
  if Z.of_nat (List.length nodesToPrune) =? 0
  then (nodes, zones)
  else
    let prunedNodesIDs := map Node.id nodesToPrune in
    let activeNodes :=
      filter (fun node => negb (includesZ prunedNodesIDs (Node.id node))) nodes in
    let activeNodeIDs := map Node.id activeNodes in
    let activeZones :=
      filter (fun zone =>
        negb (forallb (fun nodeId => negb (includesZ activeNodeIDs nodeId)) (Zone.nodes zone)))
        zones in
    (activeNodes, activeZones).

(** ** The facade ([lib/src/core/ClusterSizer.ts]) *)

Record ClusterSizing := mkSizing {
  nodeCount : Z;
  zones : Z;
  totalCPU_ : Q;
  totalMemory_ : Q;
  nodes : list Node.t;
  zoneDetails : list Zone.t;
  services : list Service.t
}.

Definition getDefaultMachineSets (platform : Platform) : list MachineSet.t :=
  let defaultInstance := getDefaultInstanceForPlatform platform in
  [ {| MachineSet.name := "default";
       MachineSet.cpu := Instance.cpuUnits defaultInstance;
       MachineSet.memory := Instance.memory defaultInstance;
       MachineSet.instanceName := Instance.name defaultInstance;
       MachineSet.numberOfDisks :=
         match Instance.maxDisks defaultInstance with
         | Some d => if d =? 0 then 24 else d
         | None => 24
         end;
       MachineSet.onlyFor := [];
       MachineSet.label := "Worker Node";
       MachineSet.allowWorkloadScheduling := None;
       MachineSet.controlPlaneReserved := None |} ].

(** The machine set [validateWorkloadsCanSchedule] calls [targetMachineSet]. *)
Definition targetMachineSet (workload : Workload.t) (machineSets : list MachineSet.t)
  : option MachineSet.t :=
  if (0 <? Z.of_nat (List.length (Workload.usesMachines workload)))
  then find (fun ms => includesS (Workload.usesMachines workload) (MachineSet.name ms)) machineSets
  else
    match find (fun ms =>
            negb (String.eqb (MachineSet.name ms) "controlPlane")
            && negb (String.eqb (MachineSet.name ms) "control-plane")
            && ((Z.of_nat (List.length (MachineSet.onlyFor ms)) =? 0)
                || includesS (MachineSet.onlyFor ms) (Workload.name workload))) machineSets with
    | Some ms => Some ms
    | None => hd_error machineSets
    end.

Definition minRequiredCPU (workload : Workload.t) (services : list Service.t)
  (machineSets : list MachineSet.t) : Z :=
  let target := targetMachineSet workload machineSets in
  let workloadServices := getWorkloadServices workload services in
  let totalCPU := sumQ Service.requiredCPU workloadServices in
  let kubeletCPU :=
    getNodeKubeletCPURequirements
      (match target with Some ms => MachineSet.cpu ms | None => 0%Q end) in
  let totalRequiredCPU := (totalCPU + kubeletCPU)%Q in
  Z.min 200 (Qceiling (totalRequiredCPU / (2 # 1)) * 2).

Definition minRequiredMemory (workload : Workload.t) (services : list Service.t)
  (machineSets : list MachineSet.t) : Z :=
  let target := targetMachineSet workload machineSets in
  let workloadServices := getWorkloadServices workload services in
  let totalMemory := sumQ Service.requiredMemory workloadServices in
  let kubeletMemory :=
    getNodeKubeletMemoryRequirements
      (match target with Some ms => MachineSet.memory ms | None => 0%Q end) in
  let totalRequiredMemory := (totalMemory + kubeletMemory)%Q in
  Z.min 512 (Qceiling (totalRequiredMemory / (4 # 1)) * 4).

Definition quote : string := String (ascii_of_nat 34) EmptyString.

Definition notSchedulableMessage (workloadName : string) (cpu mem : Z) : string :=
  ("Workload " ++ quote ++ workloadName ++ quote ++ " is not schedulable. "
   ++ "All available MachineSets are too small to run this workload. "
   ++ "Minimum required: at least " ++ showZ cpu ++ " CPU and "
   ++ showZ mem ++ " GB memory.")%string.

Fixpoint validateWorkloadsCanSchedule
  (workloads : list Workload.t) (services : list Service.t)
  (machineSets : list MachineSet.t) : M unit :=
  match workloads with
  | [] => ret tt
  | workload :: rest =>
    if fst (isWorkloadSchedulable services machineSets workload)
    then validateWorkloadsCanSchedule rest services machineSets
    else throw (NotSchedulable
           (notSchedulableMessage (Workload.name workload)
              (minRequiredCPU workload services machineSets)
              (minRequiredMemory workload services machineSets)))
  end.

(** The [workloads.forEach] that expands the descriptors. *)
Definition expandDescriptor (acc : list Workload.t * list Service.t)
  (workloadDesc : WorkloadDescriptor.t) : M (list Workload.t * list Service.t) :=
  let '(allWorkloads, allServices) := acc in
  let adjustedWorkloadDesc :=
    if WorkloadDescriptor.count workloadDesc >? 1
    then
      WorkloadDescriptor.mk
        (WorkloadDescriptor.id workloadDesc)
        (WorkloadDescriptor.name workloadDesc)
        (WorkloadDescriptor.count workloadDesc)
        (WorkloadDescriptor.usesMachines workloadDesc)
        (map (fun s =>
           ServiceDescriptor.mk
             (ServiceDescriptor.id s) (ServiceDescriptor.name s)
             (ServiceDescriptor.requiredCPU s) (ServiceDescriptor.requiredMemory s)
             (ServiceDescriptor.limitCPU s) (ServiceDescriptor.limitMemory s)
             (ServiceDescriptor.minLimitCPU s) (ServiceDescriptor.maxLimitCPU s)
             (ServiceDescriptor.minLimitMemory s) (ServiceDescriptor.maxLimitMemory s)
             (WorkloadDescriptor.count workloadDesc)
             (ServiceDescriptor.runsWith s) (ServiceDescriptor.avoid s))
           (WorkloadDescriptor.services workloadDesc))
        (WorkloadDescriptor.allowControlPlane workloadDesc)
        (WorkloadDescriptor.requireControlPlane workloadDesc)
    else workloadDesc in
  '(services, workload) <- getWorkloadFromDescriptors adjustedWorkloadDesc ;;
  ret (allWorkloads ++ [workload], allServices ++ services).

(** The [allWorkloads.forEach] that schedules. *)
Definition scheduleWorkload (allServices : list Service.t)
  (availableMachineSets : list MachineSet.t)
  (st : SchedulerState) (workload : Workload.t) : M SchedulerState :=
  workloadScheduler workload allServices availableMachineSets
    (st_zones st) (st_nodes st) (st_usedZonesId st).

Definition size (workloads : list WorkloadDescriptor.t) (platform : Platform)
  (machineSets : option (list MachineSet.t)) : M ClusterSizing :=
  let availableMachineSets :=
    match machineSets with
    | Some ms => ms
    | None => getDefaultMachineSets platform
    end in
  '(allWorkloads, allServices) <- forEachM expandDescriptor workloads ([], []) ;;
  _ <- validateWorkloadsCanSchedule allWorkloads allServices availableMachineSets ;;
  st <- forEachM (scheduleWorkload allServices availableMachineSets)
          allWorkloads (mkState [] [] []) ;;
  ret {| nodeCount := Z.of_nat (List.length (st_nodes st));
         zones := Z.of_nat (List.length (st_zones st));
         totalCPU_ := sumQ Node.cpuUnits (st_nodes st);
         totalMemory_ := sumQ Node.memory (st_nodes st);
         nodes := st_nodes st;
         zoneDetails := st_zones st;
         services := allServices |}.

(** ** Over-commit metrics ([src/utils/common.ts]) *)

(** The copy of [canNodeSupportRequirements] in [src/utils/common.ts], with
    its control-plane overhead of zero. *)
Definition canNodeSupportRequirements_ui
  (requirements currentUsage : ResourceRequirement) (node : Node.t) : bool :=
  let kubeletCPU := getNodeKubeletCPURequirements (Node.cpuUnits node) in
  let kubeletMemory := getNodeKubeletMemoryRequirements (Node.memory node) in
  let controlPlaneCPU := 0%Q in
  let controlPlaneMemory := 0%Q in
  let totalCPUUsed :=
    (totalCPU requirements + totalCPU currentUsage + kubeletCPU + controlPlaneCPU)%Q in
  let totalMemoryUsed :=
    (totalMem requirements + totalMem currentUsage + kubeletMemory + controlPlaneMemory)%Q in
  let totalDisksUsed := totalDisks requirements + totalDisks currentUsage in
  negb (Qgtb totalCPUUsed (Node.cpuUnits node)
        || Qgtb totalMemoryUsed (Node.memory node)
        || (totalDisksUsed >? Node.maxDisks node)).

Inductive RiskLevel : Type := none | low | medium | high.

(** [number | ResourceRange]. *)
Inductive NumberOrRange : Type :=
  | Scalar (value : Q)
  | Range (min max : Q).

Definition getMaxValue (value : NumberOrRange) : Q :=
  match value with
  | Scalar v => v
  | Range _ max => max
  end.

(** Truthiness of an optional number: defined and not zero. *)
Definition truthyQ (v : option Q) : bool :=
  match v with
  | Some q => negb (Qeq_bool q 0)
  | None => false
  end.

(** [a ?? b]. *)
Definition orElse (a : option Q) (b : Q) : Q :=
  match a with Some q => q | None => b end.

Definition hasDynamicLimits (services : list Service.t) : bool :=
  existsb (fun service =>
    truthyQ (Service.minLimitCPU service) || truthyQ (Service.maxLimitCPU service)
    || truthyQ (Service.minLimitMemory service) || truthyQ (Service.maxLimitMemory service))
    services.

Definition minCPUOf (s : Service.t) : Q :=
  orElse (Service.minLimitCPU s) (orElse (Service.limitCPU s) (Service.requiredCPU s)).
Definition maxCPUOf (s : Service.t) : Q :=
  orElse (Service.maxLimitCPU s) (orElse (Service.limitCPU s) (Service.requiredCPU s)).
Definition minMemoryOf (s : Service.t) : Q :=
  orElse (Service.minLimitMemory s) (orElse (Service.limitMemory s) (Service.requiredMemory s)).
Definition maxMemoryOf (s : Service.t) : Q :=
  orElse (Service.maxLimitMemory s) (orElse (Service.limitMemory s) (Service.requiredMemory s)).

(** The [if]/[else if] chain on [maxRatio]. *)
Definition riskOf (maxRatio : Q) : RiskLevel :=
  if Qle_bool maxRatio 1 then none
  else if Qle_bool maxRatio 2 then low
  else if Qle_bool maxRatio 4 then medium
  else high.

(** [available > 0 ? limit / available : 1]. *)
Definition ratio (limit available : Q) : Q :=
  if Qgtb available 0 then (limit / available)%Q else 1%Q.

Definition scalarOrRange (dynamic : bool) (min max : Q) : NumberOrRange :=
  if dynamic then Range min max else Scalar max.

Record NodeOverCommitMetrics := mkNodeMetrics {
  requestedCPU : Q;
  requestedMemory : Q;
  nm_limitCPU : NumberOrRange;
  nm_limitMemory : NumberOrRange;
  cpuOverCommitRatio : NumberOrRange;
  memoryOverCommitRatio : NumberOrRange;
  riskLevel : RiskLevel
}.

Definition calculateNodeOverCommit (node : Node.t) (services : list Service.t)
  : NodeOverCommitMetrics :=
  let kubeletCPU := getNodeKubeletCPURequirements (Node.cpuUnits node) in
  let kubeletMemory := getNodeKubeletMemoryRequirements (Node.memory node) in
  let availableCPU := (Node.cpuUnits node - kubeletCPU)%Q in
  let availableMemory := (Node.memory node - kubeletMemory)%Q in
  let dynamic := hasDynamicLimits services in
  let minLimitCPU := sumQ minCPUOf services in
  let maxLimitCPU := sumQ maxCPUOf services in
  let minLimitMemory := sumQ minMemoryOf services in
  let maxLimitMemory := sumQ maxMemoryOf services in
  let minCpuRatio := ratio minLimitCPU availableCPU in
  let maxCpuRatio := ratio maxLimitCPU availableCPU in
  let minMemoryRatio := ratio minLimitMemory availableMemory in
  let maxMemoryRatio := ratio maxLimitMemory availableMemory in
  let maxRatio := Qmax maxCpuRatio maxMemoryRatio in
  {| requestedCPU := sumQ Service.requiredCPU services;
     requestedMemory := sumQ Service.requiredMemory services;
     nm_limitCPU := scalarOrRange dynamic minLimitCPU maxLimitCPU;
     nm_limitMemory := scalarOrRange dynamic minLimitMemory maxLimitMemory;
     cpuOverCommitRatio := scalarOrRange dynamic minCpuRatio maxCpuRatio;
     memoryOverCommitRatio := scalarOrRange dynamic minMemoryRatio maxMemoryRatio;
     riskLevel := riskOf maxRatio |}.

Record ClusterOverCommitMetrics := mkClusterMetrics {
  totalRequests : Q * Q;
  totalLimits : NumberOrRange * NumberOrRange;
  totalAllocatable : Q * Q;
  overCommitRatio : NumberOrRange * NumberOrRange;
  cl_riskLevel : RiskLevel
}.

(** [placementCounts[service.id] || 0]: how often the id occurs in the
    concatenated [node.services] lists. *)
Definition placementCount (nodes : list Node.t) (service : Service.t) : Z :=
  match Service.id service with
  | Some i => Z.of_nat (List.length (filter (Z.eqb i) (flat_map Node.services nodes)))
  | None => 0
  end.

Definition calculateClusterOverCommit (nodes : list Node.t) (services : list Service.t)
  : ClusterOverCommitMetrics :=
  let allocCPU :=
    sumQ (fun node =>
      (Node.cpuUnits node - getNodeKubeletCPURequirements (Node.cpuUnits node))%Q) nodes in
  let allocMemory :=
    sumQ (fun node =>
      (Node.memory node - getNodeKubeletMemoryRequirements (Node.memory node))%Q) nodes in
  let dynamic := hasDynamicLimits services in
  let times f := fun s => (f s * inject_Z (placementCount nodes s))%Q in
  let minTotalLimitCPU := sumQ (times minCPUOf) services in
  let maxTotalLimitCPU := sumQ (times maxCPUOf) services in
  let minTotalLimitMemory := sumQ (times minMemoryOf) services in
  let maxTotalLimitMemory := sumQ (times maxMemoryOf) services in
  let minCpuRatio := ratio minTotalLimitCPU allocCPU in
  let maxCpuRatio := ratio maxTotalLimitCPU allocCPU in
  let minMemoryRatio := ratio minTotalLimitMemory allocMemory in
  let maxMemoryRatio := ratio maxTotalLimitMemory allocMemory in
  let maxRatio := Qmax maxCpuRatio maxMemoryRatio in
  {| totalRequests := (sumQ (times Service.requiredCPU) services,
                       sumQ (times Service.requiredMemory) services);
     totalLimits := (scalarOrRange dynamic minTotalLimitCPU maxTotalLimitCPU,
                     scalarOrRange dynamic minTotalLimitMemory maxTotalLimitMemory);
     totalAllocatable := (allocCPU, allocMemory);
     overCommitRatio := (scalarOrRange dynamic minCpuRatio maxCpuRatio,
                         scalarOrRange dynamic minMemoryRatio maxMemoryRatio);
     cl_riskLevel := riskOf maxRatio |}.

(** The library's copies of the two metrics functions
    ([lib/src/utils/common.ts]) know no ranges: limits are
    [limit ?? required]. *)
Definition limitCPUOf (s : Service.t) : Q := orElse (Service.limitCPU s) (Service.requiredCPU s).
Definition limitMemoryOf (s : Service.t) : Q :=
  orElse (Service.limitMemory s) (Service.requiredMemory s).

Definition calculateNodeOverCommit_lib (node : Node.t) (services : list Service.t)
  : NodeOverCommitMetrics :=
  let kubeletCPU := getNodeKubeletCPURequirements (Node.cpuUnits node) in
  let kubeletMemory := getNodeKubeletMemoryRequirements (Node.memory node) in
  let availableCPU := (Node.cpuUnits node - kubeletCPU)%Q in
  let availableMemory := (Node.memory node - kubeletMemory)%Q in
  let limitCPU := sumQ limitCPUOf services in
  let limitMemory := sumQ limitMemoryOf services in
  let cpuRatio := ratio limitCPU availableCPU in
  let memoryRatio := ratio limitMemory availableMemory in
  let maxRatio := Qmax cpuRatio memoryRatio in
  {| requestedCPU := sumQ Service.requiredCPU services;
     requestedMemory := sumQ Service.requiredMemory services;
     nm_limitCPU := Scalar limitCPU;
     nm_limitMemory := Scalar limitMemory;
     cpuOverCommitRatio := Scalar cpuRatio;
     memoryOverCommitRatio := Scalar memoryRatio;
     riskLevel := riskOf maxRatio |}.

Definition calculateClusterOverCommit_lib (nodes : list Node.t) (services : list Service.t)
  : ClusterOverCommitMetrics :=
  let allocCPU :=
    sumQ (fun node =>
      (Node.cpuUnits node - getNodeKubeletCPURequirements (Node.cpuUnits node))%Q) nodes in
  let allocMemory :=
    sumQ (fun node =>
      (Node.memory node - getNodeKubeletMemoryRequirements (Node.memory node))%Q) nodes in
  let times f := fun s => (f s * inject_Z (placementCount nodes s))%Q in
  let limitsCPU := sumQ (times limitCPUOf) services in
  let limitsMemory := sumQ (times limitMemoryOf) services in
  let cpuRatio := ratio limitsCPU allocCPU in
  let memoryRatio := ratio limitsMemory allocMemory in
  let maxRatio := Qmax cpuRatio memoryRatio in
  {| totalRequests := (sumQ (times Service.requiredCPU) services,
                       sumQ (times Service.requiredMemory) services);
     totalLimits := (Scalar limitsCPU, Scalar limitsMemory);
     totalAllocatable := (allocCPU, allocMemory);
     overCommitRatio := (Scalar cpuRatio, Scalar memoryRatio);
     cl_riskLevel := riskOf maxRatio |}.

End Sizer.

(** ** The platform catalog ([lib/src/data/index.ts]) *)

(** The string a [Platform] stands for ([const enum Platform]). *)
Definition platformValue (p : Platform) : string :=
  match p with
  | BAREMETAL => "BareMetal"
  | GCP => "GCP"
  | AZURE => "AZURE"
  | VMware => "VMware"
  | RHV => "RHV"
  | AWS => "AWS"
  | IBMC => "IBM-Classic"
  | IBMV => "IBM-VPC"
  end.

Section Catalog.

(** The entries of the five JSON catalogs, which the module imports and
    types as [any], and the truthiness of their [default] flag. *)
Variable Entry : Type.
Variable isDefault : Entry -> bool.
Variables AWS_json AZURE_json GCP_json IBMClassic_json IBMVpc_json : list Entry.

Definition platformData : list (string * list Entry) :=
  [ ("AWS", AWS_json); ("AZURE", AZURE_json); ("GCP", GCP_json);
    ("IBMClassic", IBMClassic_json); ("IBMVpc", IBMVpc_json) ]%string.

(** [platformData[platform] || platformData.AWS], for a key that is not a
    property every object inherits ([constructor], [toString], ...); the
    catalogs are arrays and an array is truthy also when it is empty. *)
Definition getInstancesForPlatform (platform : string) : list Entry :=
  match find (fun entry => String.eqb (fst entry) platform) platformData with
  | Some entry => snd entry
  | None => AWS_json
  end.

(** [instances.find(i => i.default) || instances[0]]; [None] is
    [undefined]. *)
Definition getDefaultInstanceForPlatform (platform : string) : option Entry :=
  let instances := getInstancesForPlatform platform in
  match find isDefault instances with
  | Some i => Some i
  | None => hd_error instances
  end.

End Catalog.

(** ** A concrete kubelet reservation *)

(** The part of quantity [x] that falls in the band [lo, lo + width]. *)
Definition band (lo width x : Q) : Q := Qmax 0 (Qmin width (x - lo)).

(** Modelled from the spec: [getNodeKubeletCPURequirements] of
    [lib/src/utils/kubelet.ts], which is not among the sources.  Section 6.2
    describes it as the tiered reservation of the Kubernetes defaults: 6% of
    the first core, 1% of the second, 0.5% of the next two and 0.25% of every
    further core.  It yields 0.11 at 16 cores and 0.09 at 8 cores, the
    calibration points of the spec. *)
Definition kubeletCPU_model (cpu : Q) : Q :=
  ((6 # 100) * band 0 1 cpu + (1 # 100) * band 1 1 cpu
   + (5 # 1000) * band 2 2 cpu + (25 # 10000) * Qmax 0 (cpu - 4))%Q.

(** Modelled from the spec: [getNodeKubeletMemoryRequirements] of
    [lib/src/utils/kubelet.ts], which is not among the sources.  Section 6.2
    asks for a tiered reservation that yields about 1.77 GB at 32 GB and about
    5.23 GB at 64 GB, its calibration points: this one reserves 1.77/32 of
    every GB up to 32 GB and 3.46/32 of every further GB.  The general
    statements below hold for every reservation function. *)
Definition kubeletMemory_model (memory : Q) : Q :=
  ((177 # 3200) * band 0 32 memory + (346 # 3200) * Qmax 0 (memory - 32))%Q.

(** Modelled from the spec: the platform catalog of [lib/src/data], JSON
    files that are not among the sources ("opaque lookup tables" for the
    spec).  A stand-in with the same instance type for every platform; the
    closed statements below pass explicit machine sets, so it is never
    consulted. *)
Definition catalog_model (_ : Platform) : Instance.t :=
  Instance.mk "m5.4xlarge" 64 16 (Some 24).

(** ** Vocabulary of the statements *)

(** The worst-case ratio read off the returned metrics. *)
Definition worstRatio (cpu memory : NumberOrRange) : Q :=
  Qmax (getMaxValue cpu) (getMaxValue memory).

(** Following the spec (section 4.3): two services of a workload belong to
    the same bundle when they are connected in the symmetric closure of
    [runsWith] restricted to the workload's services. *)
Inductive sameComponent (services : list Service.t) : Service.t -> Service.t -> Prop :=
  | component_refl a :
      In a services -> sameComponent services a a
  | component_edge a b i :
      In a services -> In b services ->
      Service.id b = Some i -> In i (Service.runsWith a) ->
      sameComponent services a b
  | component_sym a b :
      sameComponent services a b -> sameComponent services b a
  | component_trans a b c :
      sameComponent services a b -> sameComponent services b c ->
      sameComponent services a c.

(** Following the spec (section 4.2): the minimum viable size computed from
    the totals of one bundle. *)
Definition spec_minCPU (kubeletCPU : Q -> Q) (bundle : list Service.t)
  (target : MachineSet.t) : Z :=
  Z.min 200
    (Qceiling ((totalCPU (getTotalResourceRequirement bundle false)
                + kubeletCPU (MachineSet.cpu target)) / (2 # 1)) * 2).

Definition spec_minMem (kubeletMemory : Q -> Q) (bundle : list Service.t)
  (target : MachineSet.t) : Z :=
  Z.min 512
    (Qceiling ((totalMem (getTotalResourceRequirement bundle false)
                + kubeletMemory (MachineSet.memory target)) / (4 # 1)) * 4).

(** Ids of the nodes, and of the zones, that host service [i]. *)
Definition nodesHosting (i : Z) (nodes : list Node.t) : list Z :=
  map Node.id (filter (fun n => includesZ (Node.services n) i) nodes).

Definition zonesHosting (i : Z) (zones : list Zone.t) (nodes : list Node.t) : list Z :=
  map Zone.id
    (filter (fun z => existsb (includesZ (Zone.nodes z)) (nodesHosting i nodes)) zones).

(** How [scheduledServiceIDs] evolves in [workloadScheduler]: it depends on
    the services only, not on where they are placed. *)
Definition bundleOf (serviceObjects : list Service.t) (scheduledServiceIDs : list Z)
  (candidateService : Service.t) : list Service.t :=
  getCoplacedServices candidateService
    (filter (unscheduled scheduledServiceIDs) serviceObjects).

Definition scheduledStep (serviceObjects : list Service.t) (scheduledServiceIDs : list Z)
  (candidateService : Service.t) : list Z :=
  if unscheduled scheduledServiceIDs candidateService
  then scheduledServiceIDs ++ definedIds (bundleOf serviceObjects scheduledServiceIDs candidateService)
  else scheduledServiceIDs.

(** The bundles [workloadScheduler] places for a workload: the bundle formed
    around each service that is still unscheduled when its turn comes. *)
Definition isBundleOf (workload : Workload.t) (services : list Service.t)
  (bundle : list Service.t) : Prop :=
  exists pre candidateService post,
    getWorkloadServices workload services = pre ++ candidateService :: post
    /\ unscheduled
         (fold_left (scheduledStep (getWorkloadServices workload services)) pre [])
         candidateService = true
    /\ bundle =
       bundleOf (getWorkloadServices workload services)
         (fold_left (scheduledStep (getWorkloadServices workload services)) pre [])
         candidateService.

(** The bundles [workloadScheduler] forms while its [forEach] walks [l], a
    part of [serviceObjects], when [scheduledServiceIDs] holds the ids
    scheduled so far: one bundle around each service that is unscheduled when
    its turn comes. *)
Fixpoint bundlesFormed (serviceObjects : list Service.t) (scheduledServiceIDs : list Z)
  (l : list Service.t) : list (list Service.t) :=
  match l with
  | [] => []
  | candidateService :: rest =>
    if unscheduled scheduledServiceIDs candidateService
    then
      let bundle := bundleOf serviceObjects scheduledServiceIDs candidateService in
      bundle :: bundlesFormed serviceObjects (scheduledServiceIDs ++ definedIds bundle) rest
    else bundlesFormed serviceObjects scheduledServiceIDs rest
  end.

(** One placement of a bundle: the ids of the whole bundle are appended to
    the service list of one node, or a node that lists exactly these ids is
    appended to the nodes. *)
Definition placedOnOneNode (bundle : list Service.t) (nodes nodes' : list Node.t) : Prop :=
  (exists pre n post,
      nodes = pre ++ n :: post
      /\ nodes' = pre ++ Node.with_services n (Node.services n ++ definedIds bundle) :: post)
  \/ (exists n, nodes' = nodes ++ [n] /\ Node.services n = definedIds bundle).

(** The placements of [bundles], one after the other. *)
Fixpoint placedInTurn (bundles : list (list Service.t)) (nodes nodes' : list Node.t) : Prop :=
  match bundles with
  | [] => nodes' = nodes
  | bundle :: rest =>
    exists between, placedOnOneNode bundle nodes between /\ placedInTurn rest between nodes'
  end.

(** The capacity invariant of a node as [canNodeAddService] accounts for it:
    over the services of the run whose id the node lists, each weighed once
    however often the node lists it ([getServicesInNode]). *)
Definition isCephOSD (s : Service.t) : bool := str_includes "Ceph_OSD" (Service.name s).

Definition capacityRespected (kubeletCPU kubeletMemory : Q -> Q)
  (allServices : list Service.t) (n : Node.t) : Prop :=
  let placed := getServicesInNode n allServices in
  (sumQ Service.requiredCPU placed + kubeletCPU (Node.cpuUnits n) <= Node.cpuUnits n)%Q
  /\ (sumQ Service.requiredMemory placed + kubeletMemory (Node.memory n) <= Node.memory n)%Q
  /\ Z.of_nat (List.length (filter isCephOSD placed)) <= Node.maxDisks n.

(** The services placed on a node: one for every entry of its [services]
    list, so that a service whose id the node lists twice is placed twice. *)
Definition servicesPlaced (n : Node.t) (allServices : list Service.t) : list Service.t :=
  lookupServices allServices (Node.services n).

(** No two distinct services on the node avoid one another. *)
Definition avoidRespected (allServices : list Service.t) (n : Node.t) : Prop :=
  forall a b ia ib,
    In a allServices -> In b allServices ->
    Service.id a = Some ia -> Service.id b = Some ib ->
    In ia (Node.services n) -> In ib (Node.services n) ->
    ia <> ib ->
    ~ In ib (Service.avoid a).

(** The workloads and services [size] works on, after the expansion of the
    descriptors. *)
Definition expansion (workloads : list WorkloadDescriptor.t) (c : Counters)
  : (error + list Workload.t * list Service.t) * Counters :=
  forEachM expandDescriptor workloads ([], []) c.

(** Every service carries an id and no two services share one. *)
Definition uniqueIds (l : list Service.t) : Prop :=
  (forall s, In s l -> exists i, Service.id s = Some i)
  /\ NoDup (map Service.id l).

(** The [n] ids drawn from a counter that stands at [k]. *)
Fixpoint consecutive (k : Z) (n : nat) : list Z :=
  match n with
  | O => []
  | S m => (k + 1) :: consecutive (k + 1) m
  end.

(** The nodes of a run: their ids are distinct and were drawn from the node
    counter, and no node is a control-plane node that would admit one of the
    services through the control-plane shortcut. *)
Definition nodesWellFormed (toLowerCase : string -> string)
  (allServices : list Service.t) (nodes : list Node.t) (k : Z) : Prop :=
  NoDup (map Node.id nodes)
  /\ (forall n, In n nodes -> Node.id n <= k)
  /\ (forall n s, In n nodes -> In s allServices ->
        truthy (Node.isControlPlane n) && isControlPlaneService toLowerCase s = false).

(** No machine set would create a control-plane node while a service is a
    control-plane service: the shortcut of [canNodeAddService] never fires. *)
Definition noControlPlaneShortcut (toLowerCase : string -> string)
  (machineSets : list MachineSet.t) (allServices : list Service.t) : Prop :=
  forall m s, In m machineSets -> In s allServices ->
    String.eqb (MachineSet.name m) "controlPlane" && isControlPlaneService toLowerCase s
    = false.

(** The machine sets [size] works with. *)
Definition availableMachineSets (catalog : Platform -> Instance.t) (platform : Platform)
  (machineSets : option (list MachineSet.t)) : list MachineSet.t :=
  match machineSets with
  | Some ms => ms
  | None => getDefaultMachineSets catalog platform
  end.

(** No service avoids another member of a group it is placed with: the
    groups are a service together with the services it lists in [runsWith]. *)
Definition bundlesCompatible (allServices : list Service.t) : Prop :=
  forall candidate a b ia ib,
    In candidate allServices -> In a allServices -> In b allServices ->
    Service.id a = Some ia -> Service.id b = Some ib ->
    a = candidate \/ In ia (Service.runsWith candidate) ->
    b = candidate \/ In ib (Service.runsWith candidate) ->
    ia <> ib ->
    ~ In ib (Service.avoid a).

(** The workloads [size] schedules. *)
Definition expandedWorkloads (workloads : list WorkloadDescriptor.t) (c : Counters)
  : list Workload.t :=
  match fst (expansion workloads c) with
  | inr (allWorkloads, _) => allWorkloads
  | inl _ => []
  end.

(** The machine set from which the nodes of a workload are created is one
    that the feasibility analysis retained for the workload. *)
Definition createsValidatedNodes (kubeletCPU kubeletMemory : Q -> Q)
  (machineSets : list MachineSet.t) (allServices : list Service.t) (w : Workload.t)
  : Prop :=
  exists m,
    getMachineSetForWorkload w machineSets = Some m
    /\ In m (snd (isWorkloadSchedulable kubeletCPU kubeletMemory allServices machineSets w)).

(** How many times the service id [i] is listed by the nodes. *)
Definition placements (i : Z) (nodes : list Node.t) : nat :=
  count_occ Z.eq_dec (flat_map Node.services nodes) i.

(** Renumbering: the ids of a run whose counters started [d] higher. *)
Record Shift := mkShift {
  dZone : Z;
  dNode : Z;
  dWorkload : Z;
  dService : Z
}.

Definition shiftBy (k : Z) (i : Z) : Z := i + k.


Definition shiftService (d : Shift) (s : Service.t) : Service.t :=
  Service.mk (option_map (shiftBy (dService d)) (Service.id s)) (Service.name s)
    (Service.requiredCPU s) (Service.requiredMemory s)
    (Service.limitCPU s) (Service.limitMemory s)
    (Service.minLimitCPU s) (Service.maxLimitCPU s)
    (Service.minLimitMemory s) (Service.maxLimitMemory s)
    (Service.zones s)
    (map (shiftBy (dService d)) (Service.runsWith s))
    (map (shiftBy (dService d)) (Service.avoid s)).


Definition shiftNode (d : Shift) (n : Node.t) : Node.t :=
  Node.mk (Node.id n + dNode d) (Node.maxDisks n) (Node.cpuUnits n) (Node.memory n)
    (Node.machineSet n) (map (shiftBy (dService d)) (Node.services n))
    (Node.instanceName n) (Node.onlyFor n) (Node.isControlPlane n)
    (Node.allowWorkloadScheduling n) (Node.controlPlaneReserved n).











(** A node is viable for a bundle when it admits every member
    ([sortNodesWithLeastConsumption]). *)
Definition viable (toLowerCase : string -> string) (kubeletCPU kubeletMemory : Q -> Q)
  (services bundle : list Service.t) (workloads : list Workload.t)
  (machineSets : list MachineSet.t) (node : Node.t) : bool :=
  forallb (fun candidate =>
    canNodeAddService toLowerCase kubeletCPU kubeletMemory node candidate services workloads
      machineSets)
    bundle.

(** ** Vocabulary of the further statements *)

(** A name is known in a descriptor when one of its services bears it. *)
Definition knownName (d : WorkloadDescriptor.t) (name : string) : bool :=
  existsb (fun s => String.eqb (ServiceDescriptor.name s) name)
          (WorkloadDescriptor.services d).

(** The ids that the names [names] stand for among [services]: a name gives
    the id of the first service that bears it, and nothing when no service
    bears it. *)
Definition idsOfNames (services : list Service.t) (names : list string) : list Z :=
  flat_map (fun name =>
    match find (fun s => String.eqb (Service.name s) name) services with
    | Some s => definedIds [s]
    | None => []
    end) names.

(** A service descriptor with the id [i], and with the names of [runsWith]
    and [avoid] that are unknown in [d] removed. *)
Definition stampService (d : WorkloadDescriptor.t) (i : Z) (s : ServiceDescriptor.t)
  : ServiceDescriptor.t :=
  ServiceDescriptor.mk (Some i) (ServiceDescriptor.name s)
    (ServiceDescriptor.requiredCPU s) (ServiceDescriptor.requiredMemory s)
    (ServiceDescriptor.limitCPU s) (ServiceDescriptor.limitMemory s)
    (ServiceDescriptor.minLimitCPU s) (ServiceDescriptor.maxLimitCPU s)
    (ServiceDescriptor.minLimitMemory s) (ServiceDescriptor.maxLimitMemory s)
    (ServiceDescriptor.zones s)
    (filter (knownName d) (ServiceDescriptor.runsWith s))
    (filter (knownName d) (ServiceDescriptor.avoid s)).

(** The descriptor [d] with the ids a call draws when the counters stand at
    [c]: the workload gets the next workload id, its services the next
    service ids in order. *)
Definition stamped (d : WorkloadDescriptor.t) (c : Counters) : WorkloadDescriptor.t :=
  WorkloadDescriptor.mk (Some (workloadIdCounter c + 1))
    (WorkloadDescriptor.name d) (WorkloadDescriptor.count d)
    (WorkloadDescriptor.usesMachines d)
    (map (fun p => stampService d (fst p) (snd p))
       (combine (consecutive (serviceIdCounter c)
                   (List.length (WorkloadDescriptor.services d)))
                (WorkloadDescriptor.services d)))
    (WorkloadDescriptor.allowControlPlane d)
    (WorkloadDescriptor.requireControlPlane d).

(** How many nodes of a zone can take a bundle, as [sortBestZones] counts
    them. *)
Definition capableNodes (kubeletCPU kubeletMemory : Q -> Q)
  (nodes : list Node.t) (allServices bundle : list Service.t) (zone : Zone.t) : Z :=
  Z.of_nat (List.length
    (filter (fun node =>
       canNodeSupportRequirements kubeletCPU kubeletMemory
         (getTotalResourceRequirement bundle false)
         (getTotalResourceRequirement (getServicesInNode node allServices) false) node)
       (filter (fun node => includesZ (Zone.nodes zone) (Node.id node)) nodes))).

(** The services [size] works on, after the expansion of the descriptors. *)
Definition expandedServices (workloads : list WorkloadDescriptor.t) (c : Counters)
  : list Service.t :=
  match fst (expansion workloads c) with
  | inr (_, allServices) => allServices
  | inl _ => []
  end.

(** The number of zones [workloadScheduler] wants for a workload: the
    largest [zones] of its services, 1 when that is 0 or when it has no
    service. *)
Definition zonesRequiredBy (services : list Service.t) (w : Workload.t) : Z :=
  orOne (maxZ (map Service.zones (getWorkloadServices w services))).

(** How many zones [workloadScheduler] creates for a workload when [zones]
    exist. *)
Definition zonesToCreate (services : list Service.t) (w : Workload.t) (zones : list Zone.t)
  : nat :=
  Z.to_nat (zonesRequiredBy services w - Z.of_nat (List.length zones)).

(** The largest number of zones wanted by one of the workloads, 0 when
    there is no workload. *)
Definition zonesRequired (services : list Service.t) (workloads : list Workload.t) : Z :=
  fold_left (fun acc w => Z.max acc (zonesRequiredBy services w)) workloads 0.

(** The shape of the scheduler state during a run that started, with no
    zone and no node, from the counters [c0]: the zones and the nodes carry
    the ids drawn since, in order; the counters stand accordingly; and the
    node lists of the zones together list every node once. *)
Definition runInvariant (c0 : Counters) (st : SchedulerState) (k : Counters) : Prop :=
  map Zone.id (st_zones st)
  = consecutive (zoneIdCounter c0) (List.length (st_zones st))
  /\ zoneIdCounter k = zoneIdCounter c0 + Z.of_nat (List.length (st_zones st))
  /\ map Node.id (st_nodes st)
     = consecutive (nodeIdCounter c0) (List.length (st_nodes st))
  /\ nodeIdCounter k = nodeIdCounter c0 + Z.of_nat (List.length (st_nodes st))
  /\ workloadIdCounter k = workloadIdCounter c0
  /\ serviceIdCounter k = serviceIdCounter c0
  /\ Permutation (flat_map Zone.nodes (st_zones st)) (map Node.id (st_nodes st)).

(** A service that declares no dynamic range, and one that declares no
    limit at all. *)
Definition declaresNoRange (s : Service.t) : Prop :=
  Service.minLimitCPU s = None /\ Service.maxLimitCPU s = None
  /\ Service.minLimitMemory s = None /\ Service.maxLimitMemory s = None.

Definition declaresNoLimit (s : Service.t) : Prop :=
  Service.limitCPU s = None /\ Service.limitMemory s = None /\ declaresNoRange s.

(** How often the scheduler lists the service id [i] while it works through
    the services of a workload: it follows the [forEach] of
    [workloadScheduler] and, for every bundle formed, adds the number of its
    replicas for each occurrence of [i] among the ids of the bundle. *)
Definition plannedStep (serviceObjects : list Service.t) (i : Z)
  (acc : list Z * nat) (candidateService : Service.t) : list Z * nat :=
  if unscheduled (fst acc) candidateService
  then
    let bundle := bundleOf serviceObjects (fst acc) candidateService in
    (fst acc ++ definedIds bundle,
     (snd acc
      + Z.to_nat (getMaxZones bundle) * count_occ Z.eq_dec (definedIds bundle) i)%nat)
  else acc.

Definition replicasPlanned (serviceObjects : list Service.t) (i : Z) : nat :=
  snd (fold_left (plannedStep serviceObjects i) serviceObjects ([], 0%nat)).

(** ** Concrete inputs *)

Module Fixtures.
Definition service (n : string) (cpu mem : Q) (z : Z) (rw av : list string)
  : ServiceDescriptor.t :=
  ServiceDescriptor.mk None n cpu mem None None None None None None z rw av.

Definition workload (n : string) (uses : list string) (svcs : list ServiceDescriptor.t)
  : WorkloadDescriptor.t :=
  WorkloadDescriptor.mk None n 1 uses svcs None None.

Definition machineSet (n : string) (cpu mem : Q) : MachineSet.t :=
  MachineSet.mk n cpu mem "bare-metal" 4 [] "Worker" None None.

Definition fresh : Counters := mkCounters 0 0 0 0.

(** A call of the facade with the concrete kubelet and explicit machine
    sets, from given counters. *)
Definition sizeFrom (c : Counters) (w : list WorkloadDescriptor.t)
  (m : list MachineSet.t) : (error + ClusterSizing) * Counters :=
  size toLowerCase_ascii kubeletCPU_model kubeletMemory_model catalog_model w BAREMETAL
    (Some m) c.

(** Where the services ended up: the service lists of the nodes and the
    zones, or the error. *)
Definition placement (r : (error + ClusterSizing) * Counters)
  : error + list (Z * list Z) * list Zone.t :=
  match fst r with
  | inr s => inr (map (fun n => (Node.id n, Node.services n)) (nodes s), zoneDetails s)
  | inl e => inl e
  end.

(** Three services, the first replicated over three zones. *)
Definition threeZones : list WorkloadDescriptor.t :=
  [ workload "w" []
      [ service "A" 2 4 3 [] []; service "B" 2 4 1 [] []; service "C" 2 4 1 [] [] ] ].

(** The node [getNode] creates from [machineSet "worker" 8 16]. *)
Definition workerNode (i : Z) : Node.t :=
  Node.mk i 4 8 16 "worker" [] (Some "bare-metal"%string) [] (Some false) None None.

(** A state with two unused zones that both can host a small service:
    zone 1 with one node, zone 2 with two. *)
Definition emptyNode (i : Z) : Node.t :=
  Node.mk i 4 32 64 "worker" [] (Some "bare-metal"%string) [] (Some false) None None.
Definition small : Service.t :=
  Service.mk (Some 1) "C" 2 4 None None None None None None 1 [] [].
Definition twoZones : SchedulerState :=
  mkState [Zone.mk 1 [1]; Zone.mk 2 [2; 3]] [emptyNode 1; emptyNode 2; emptyNode 3] [].

(** Two unrelated services of 20 cores each on a 16-core machine set. *)
Definition batch : list WorkloadDescriptor.t :=
  [ workload "batch" [] [ service "a" 20 8 1 [] []; service "b" 20 8 1 [] [] ] ].
Definition batchService (i : Z) (n : string) : Service.t :=
  Service.mk (Some i) n 20 8 None None None None None None 1 [] [].

(** A chain: A runs with B, B runs with C. *)
Definition chain : list WorkloadDescriptor.t :=
  [ workload "w" []
      [ service "A" 3 4 1 ["B"%string] []; service "B" 3 4 1 ["C"%string] [];
        service "C" 3 4 1 [] [] ] ].
Definition chainA : Service.t :=
  Service.mk (Some 1) "A" 3 4 None None None None None None 1 [2] [].
Definition chainB : Service.t :=
  Service.mk (Some 2) "B" 3 4 None None None None None None 1 [3] [].
Definition chainC : Service.t :=
  Service.mk (Some 3) "C" 3 4 None None None None None None 1 [] [].
End Fixtures.

Module ControlPlaneFixtures.
(** A control-plane node of 8 cores and 16 GB that already runs service 1,
    which avoids service 2; and an [etcd] service (id 2) that asks for 100
    cores and avoids service 1. *)
Definition node : Node.t :=
  Node.mk 1 4 8 16 "controlPlane" [1] (Some "bare-metal"%string) ["infra"%string]
    (Some true) (Some false) (Some (2 # 1, 4 # 1)%Q).
Definition apiserver : Service.t :=
  Service.mk (Some 1) "kube-apiserver" 4 8 None None None None None None 1 [] [2].
Definition etcd : Service.t :=
  Service.mk (Some 2) "Etcd-Main" 100 200 None None None None None None 1 [] [1].
Definition owner : Workload.t :=
  Workload.mk (Some 1) "control" 1 [] [1; 2] None None.
End ControlPlaneFixtures.

Module AvoidFixtures.
(** A control-plane workload on a machine set named [controlPlane]: [etcd]
    avoids [kube-apiserver]. *)
Definition controlPlane : list WorkloadDescriptor.t :=
  [ Fixtures.workload "cp" ["controlPlane"%string]
      [ Fixtures.service "etcd" 2 4 1 [] ["kube-apiserver"%string];
        Fixtures.service "kube-apiserver" 2 4 1 [] [] ] ].

(** A runs with B and with C, and B avoids C. *)
Definition conflicting : list WorkloadDescriptor.t :=
  [ Fixtures.workload "w" []
      [ Fixtures.service "A" 2 4 1 ["B"%string; "C"%string] [];
        Fixtures.service "B" 2 4 1 [] ["C"%string];
        Fixtures.service "C" 2 4 1 [] [] ] ].

(** The anti-affinity scenario of the spec: A avoids B. *)
Definition antiAffinity : list WorkloadDescriptor.t :=
  [ Fixtures.workload "w" []
      [ Fixtures.service "A" 2 4 1 [] ["B"%string]; Fixtures.service "B" 2 4 1 [] [] ] ].
End AvoidFixtures.

Module CapacityFixtures.
(** One two-core service, and a catalog of a one-core machine set followed
    by a sixteen-core one. *)
Definition twoCores : list WorkloadDescriptor.t :=
  [ Fixtures.workload "w" [] [ Fixtures.service "A" 2 2 1 [] [] ] ].
Definition smallThenBig : list MachineSet.t :=
  [ Fixtures.machineSet "small" 1 1; Fixtures.machineSet "big" 16 64 ].

(** Two control-plane services of five cores each on an eight-core
    control-plane machine set. *)
Definition controlPlane : list WorkloadDescriptor.t :=
  [ Fixtures.workload "cp" ["controlPlane"%string]
      [ Fixtures.service "etcd" 5 4 1 [] []; Fixtures.service "kube-apiserver" 5 4 1 [] [] ] ].

(** The over-commit scenario of the spec: three services of two cores and
    eight GB on an (8, 32) machine set. *)
Definition threeServices : list WorkloadDescriptor.t :=
  [ Fixtures.workload "w" []
      [ Fixtures.service "a" 2 8 1 [] []; Fixtures.service "b" 2 8 1 [] [];
        Fixtures.service "c" 2 8 1 [] [] ] ].
End CapacityFixtures.

Module ReplicaFixtures.
(** A with one zone, then B with two. *)
Definition oneThenTwo : list WorkloadDescriptor.t :=
  [ Fixtures.workload "w" []
      [ Fixtures.service "A" 2 4 1 [] []; Fixtures.service "B" 2 4 2 [] [] ] ].

(** A with one zone runs with B, which asks for three. *)
Definition oneWithThree : list WorkloadDescriptor.t :=
  [ Fixtures.workload "w" []
      [ Fixtures.service "A" 2 4 1 ["B"%string] []; Fixtures.service "B" 2 4 3 [] [] ] ].

Definition serviceA : Service.t :=
  Service.mk (Some 1) "A" 2 4 None None None None None None 1 [] [].
Definition serviceB : Service.t :=
  Service.mk (Some 2) "B" 2 4 None None None None None None 2 [] [].
Definition owner : Workload.t := Workload.mk (Some 1) "w" 1 [] [1; 2] None None.

(** The state in which the scheduler turns to B: A sits on node 1 in zone 1,
    and zone 1 is in the used set. *)
Definition afterA : SchedulerState :=
  mkState [Zone.mk 1 [1]; Zone.mk 2 []]
    [Node.mk 1 4 8 16 "worker" [1] (Some "bare-metal"%string) [] (Some false) None None]
    [1].

(** The state after the first replica of B: it sits on node 2 in zone 2, and
    both zones are in the used set; and the state after the second. *)
Definition afterFirstB : SchedulerState :=
  mkState [Zone.mk 1 [1]; Zone.mk 2 [2]]
    [Node.mk 1 4 8 16 "worker" [1] (Some "bare-metal"%string) [] (Some false) None None;
     Node.mk 2 4 8 16 "worker" [2] (Some "bare-metal"%string) [] (Some false) None None]
    [1; 2].
Definition afterSecondB : SchedulerState :=
  mkState [Zone.mk 1 [1]; Zone.mk 2 [2]]
    [Node.mk 1 4 8 16 "worker" [1] (Some "bare-metal"%string) [] (Some false) None None;
     Node.mk 2 4 8 16 "worker" [2; 2] (Some "bare-metal"%string) [] (Some false) None None]
    [2].
End ReplicaFixtures.

Module OvercommitFixtures.
(** A of one core, then B, C and D of three cores each; B is replicated over
    two zones.  The services and the workload as the expansion numbers them,
    and node 2 as it stands when the scheduler turns to D: it lists B
    twice. *)
Definition replicated : list WorkloadDescriptor.t :=
  [ Fixtures.workload "w" []
      [ Fixtures.service "A" 1 1 1 [] []; Fixtures.service "B" 3 4 2 [] [];
        Fixtures.service "C" 3 4 1 [] []; Fixtures.service "D" 3 4 1 [] [] ] ].
Definition service (i : Z) (n : string) (cpu mem : Q) (z : Z) : Service.t :=
  Service.mk (Some i) n cpu mem None None None None None None z [] [].
Definition expanded : list Service.t :=
  [ service 1 "A" 1 1 1; service 2 "B" 3 4 2; service 3 "C" 3 4 1; service 4 "D" 3 4 1 ].
Definition owner : Workload.t := Workload.mk (Some 1) "w" 1 [] [1; 2; 3; 4] None None.
Definition node2 : Node.t :=
  Node.mk 2 4 8 16 "worker" [2; 2] (Some "bare-metal"%string) [] (Some false) None None.
End OvercommitFixtures.

Module RepeatFixtures.
(** The basic scenario of the spec: one service on a (32, 64) machine set. *)
Definition basic : list WorkloadDescriptor.t :=
  [ Fixtures.workload "test-workload" ["worker"%string]
      [ Fixtures.service "test-service" 10 20 1 [] [] ] ].
Definition worker : list MachineSet.t := [ Fixtures.machineSet "worker" 32 64 ].
End RepeatFixtures.

Module MetricsFixtures.
(** Two worker nodes of 8 cores and 16 GB, one hosting service 1 and the
    other service 2; a node without capacity; and a service that declares
    limits. *)
Definition nodeHosting (i : Z) (ids : list Z) : Node.t :=
  Node.mk i 4 8 16 "worker" ids (Some "bare-metal"%string) [] (Some false) None None.
Definition noCapacity : Node.t :=
  Node.mk 1 0 0 0 "none" [1] (Some "bare-metal"%string) [] (Some false) None None.
Definition limited : Service.t :=
  Service.mk (Some 1) "vm" 2 4 (Some (16 # 1)%Q) (Some (64 # 1)%Q) None None None None 1 [] [].
End MetricsFixtures.
(** * Properties *)

Unset Implicit Arguments.

(** ** Membership tests *)

Lemma includesZ_In (l : list Z) (x : Z) : includesZ l x = true <-> In x l.
Proof.
  unfold includesZ. rewrite existsb_exists. split.
  - intros [y [Hy Heq]]. apply Z.eqb_eq in Heq. now subst.
  - intros H. exists x. split; [assumption | apply Z.eqb_refl].
Qed.

Lemma includesZ_false (l : list Z) (x : Z) : includesZ l x = false <-> ~ In x l.
Proof.
  rewrite <- includesZ_In. destruct (includesZ l x); split; congruence.
Qed.

Lemma includesS_In (l : list string) (x : string) : includesS l x = true <-> In x l.
Proof.
  unfold includesS. rewrite existsb_exists. split.
  - intros [y [Hy Heq]]. apply String.eqb_eq in Heq. now subst.
  - intros H. exists x. split; [assumption | apply String.eqb_refl].
Qed.

Lemma includesZ_app (l1 l2 : list Z) (x : Z) :
  includesZ (l1 ++ l2) x = includesZ l1 x || includesZ l2 x.
Proof. unfold includesZ. apply existsb_app. Qed.

Lemma eqId_Some (a : option Z) (i : Z) : eqId a (Some i) = true <-> a = Some i.
Proof.
  destruct a as [x|]; simpl; split; try congruence.
  - intros H. apply Z.eqb_eq in H. now subst.
  - intros [= ->]. apply Z.eqb_refl.
Qed.

(** ** The risk table *)

Lemma Qle_bool_false (a b : Q) : Qle_bool a b = false <-> (b < a)%Q.
Proof.
  split.
  - intros H. apply Qnot_le_lt. intros Hle. apply Qle_bool_iff in Hle. congruence.
  - intros H. destruct (Qle_bool a b) eqn:E; [|reflexivity].
    apply Qle_bool_iff in E. exfalso. apply (Qlt_not_le _ _ H E).
Qed.

Lemma riskOf_table (m : Q) :
  (riskOf m = none <-> (m <= 1)%Q)
  /\ (riskOf m = low <-> (1 < m)%Q /\ (m <= 2)%Q)
  /\ (riskOf m = medium <-> (2 < m)%Q /\ (m <= 4)%Q)
  /\ (riskOf m = high <-> (4 < m)%Q).
Proof.
  unfold riskOf.
  destruct (Qle_bool m 1) eqn:E1;
    [apply Qle_bool_iff in E1 | apply Qle_bool_false in E1];
  (destruct (Qle_bool m 2) eqn:E2;
    [apply Qle_bool_iff in E2 | apply Qle_bool_false in E2]);
  (destruct (Qle_bool m 4) eqn:E4;
    [apply Qle_bool_iff in E4 | apply Qle_bool_false in E4]);
  repeat split; intros; try discriminate; try assumption; try lra;
  try (destruct H; lra).
Qed.

Lemma getMaxValue_scalarOrRange (d : bool) (a b : Q) :
  getMaxValue (scalarOrRange d a b) = b.
Proof. now destruct d. Qed.

Section Metrics.
Variables kubeletCPU kubeletMemory : Q -> Q.

(** C8.  In both copies of the node-level and of the cluster-level
    computation, the risk level follows the table against the worst-case
    ratio [m], the larger of the maximal CPU and the maximal memory
    over-commit ratio of the returned metrics: [none] iff [m <= 1], [low]
    iff [1 < m <= 2], [medium] iff [2 < m <= 4], [high] iff [4 < m]. *)
Theorem riskLevel_follows_table :
  let table (r : RiskLevel) (m : Q) :=
    (r = none <-> (m <= 1)%Q)
    /\ (r = low <-> (1 < m)%Q /\ (m <= 2)%Q)
    /\ (r = medium <-> (2 < m)%Q /\ (m <= 4)%Q)
    /\ (r = high <-> (4 < m)%Q) in
  (forall node services,
     let r := calculateNodeOverCommit kubeletCPU kubeletMemory node services in
     table (riskLevel r) (worstRatio (cpuOverCommitRatio r) (memoryOverCommitRatio r)))
  /\ (forall nodes services,
     let r := calculateClusterOverCommit kubeletCPU kubeletMemory nodes services in
     table (cl_riskLevel r) (worstRatio (fst (overCommitRatio r)) (snd (overCommitRatio r))))
  /\ (forall node services,
     let r := calculateNodeOverCommit_lib kubeletCPU kubeletMemory node services in
     table (riskLevel r) (worstRatio (cpuOverCommitRatio r) (memoryOverCommitRatio r)))
  /\ (forall nodes services,
     let r := calculateClusterOverCommit_lib kubeletCPU kubeletMemory nodes services in
     table (cl_riskLevel r) (worstRatio (fst (overCommitRatio r)) (snd (overCommitRatio r)))).
Proof.
  cbv zeta. split; [|split; [|split]]; intros; simpl; unfold worstRatio;
    rewrite ?getMaxValue_scalarOrRange; simpl; apply riskOf_table.
Qed.

End Metrics.

(** ** Admission on a node *)

Lemma sortBy_nil_iff (A : Type) (before : A -> A -> bool) (l : list A) :
  sortBy before l = [] <-> l = [].
Proof.
  split; [|intros ->; reflexivity].
  destruct l as [|x l]; [reflexivity|]. simpl.
  destruct (sortBy before l) as [|y s]; simpl; [discriminate|].
  destruct (before y x); discriminate.
Qed.

Lemma isControlPlaneService_marker (toLowerCase : string -> string)
  (s : Service.t) (marker : string) :
  In marker controlPlaneServiceNames ->
  str_includes (toLowerCase marker) (toLowerCase (Service.name s)) = true ->
  isControlPlaneService toLowerCase s = true.
Proof.
  intros Hin Hinc. unfold isControlPlaneService. apply existsb_exists.
  exists marker. split; assumption.
Qed.

Section Admission.
Variable toLowerCase : string -> string.
Variables kubeletCPU kubeletMemory : Q -> Q.

(** C10.  On a control-plane node, a candidate whose lower-cased name
    contains one of the control-plane markers (lower-cased too, as the code
    has it) is admitted as soon as its id is defined, a workload owns it, and
    that workload's [usesMachines] is empty or lists the node's machine set:
    neither the node's remaining capacity, nor its [onlyFor] taint, nor any
    [avoid] list is consulted.  This holds whatever [toLowerCase] is. *)
Theorem control_plane_service_always_admitted
  (node : Node.t) (candidate : Service.t) (allServices : list Service.t)
  (workloads : list Workload.t) (machineSets : list MachineSet.t)
  (candidateId : Z) (owner : Workload.t) (marker : string) :
  Node.isControlPlane node = Some true ->
  In marker controlPlaneServiceNames ->
  str_includes (toLowerCase marker) (toLowerCase (Service.name candidate)) = true ->
  Service.id candidate = Some candidateId ->
  find (fun w => includesZ (Workload.services w) candidateId) workloads = Some owner ->
  Workload.usesMachines owner = []
    \/ In (Node.machineSet node) (Workload.usesMachines owner) ->
  canNodeAddService toLowerCase kubeletCPU kubeletMemory node candidate allServices workloads
    machineSets
  = true.
Proof.
  intros Hcp Hin Hinc Hid Hown Huses.
  unfold canNodeAddService. rewrite Hid, Hown, Hcp. simpl.
  rewrite (isControlPlaneService_marker toLowerCase candidate marker Hin Hinc).
  destruct Huses as [-> | Huses]; [reflexivity|].
  apply includesS_In in Huses. rewrite Huses.
  now rewrite andb_false_r.
Qed.

(** A candidate that no workload owns is rejected on every node. *)
Lemma canNodeAddService_no_owner
  (node : Node.t) (candidate : Service.t) (allServices : list Service.t)
  (workloads : list Workload.t) (machineSets : list MachineSet.t) :
  find (fun wl => includesId (Workload.services wl) (Service.id candidate)) workloads = None ->
  canNodeAddService toLowerCase kubeletCPU kubeletMemory node candidate allServices workloads
    machineSets
  = false.
Proof.
  intros Hnone. unfold canNodeAddService.
  destruct (Service.id candidate) as [i|]; [|reflexivity].
  simpl in Hnone. now rewrite Hnone.
Qed.

(** C9, as the code has it.  When no workload owns the first service of the
    bundle, no node is viable for the bundle and [addServiceToZone] returns
    the node list and the zone it was given, unchanged; it raises nothing and
    draws no id. *)
Theorem addServiceToZone_without_owner
  (zone : Zone.t) (nodes : list Node.t) (services : list Service.t)
  (first : Service.t) (rest : list Service.t)
  (workloads : list Workload.t) (machineSets : list MachineSet.t) (c : Counters) :
  find (fun wl => includesId (Workload.services wl) (Service.id first)) workloads = None ->
  (forall node,
     canNodeAddService toLowerCase kubeletCPU kubeletMemory node first services workloads
       machineSets
     = false)
  /\ addServiceToZone toLowerCase kubeletCPU kubeletMemory zone nodes services (first :: rest)
       workloads machineSets c
     = (inr (nodes, zone), c).
Proof.
  intros Hnone. split.
  - intros node. now apply canNodeAddService_no_owner.
  - unfold addServiceToZone, sortNodesWithLeastConsumption.
    assert (Hviable :
      filter (fun node =>
        forallb (fun candidate =>
          canNodeAddService toLowerCase kubeletCPU kubeletMemory node candidate services
            workloads machineSets) (first :: rest))
        (filter (fun node => includesZ (Zone.nodes zone) (Node.id node)) nodes) = []).
    { induction (filter (fun node => includesZ (Zone.nodes zone) (Node.id node)) nodes)
        as [|n l IH]; [reflexivity|].
      simpl. now rewrite (canNodeAddService_no_owner n first services _ machineSets Hnone). }
    rewrite Hviable. simpl. now rewrite Hnone.
Qed.

End Admission.

(** ** Zone choice *)

(** C3, evaluated.  With three zones of one node each and zone 3 in the
    used set, zones 1 and 2 tie with one capable node each: the ranking puts
    zone 2 first, and the scheduler takes the last entry, zone 1, so service C
    (id 3) lands on node 1.  With zone 1 holding one capable node and zone 2
    two, the ranking is again [zone 2; zone 1] and the scheduler again takes
    zone 1. *)
Theorem chooseZone_takes_last_ranked :
  Fixtures.placement
    (Fixtures.sizeFrom Fixtures.fresh Fixtures.threeZones [Fixtures.machineSet "worker" 32 64])
  = inr ([(1, [1; 3]); (2, [1]); (3, [1; 2])],
         [Zone.mk 1 [1]; Zone.mk 2 [2]; Zone.mk 3 [3]])
  /\ map Zone.id
       (sortBestZones kubeletCPU_model kubeletMemory_model
          (st_zones Fixtures.twoZones) (st_nodes Fixtures.twoZones)
          [Fixtures.small] [Fixtures.small])
     = [2; 1]
  /\ chooseZone kubeletCPU_model kubeletMemory_model
       [Fixtures.small] [Fixtures.small] Fixtures.twoZones
     = (Some (Zone.mk 1 [1]), [1]).
Proof. split; [|split]; vm_compute; reflexivity. Qed.

(** ** Feasibility errors *)

Section Feasibility.
Variable toLowerCase : string -> string.
Variables kubeletCPU kubeletMemory : Q -> Q.
Variable catalog : Platform -> Instance.t.

Lemma validate_first_unschedulable
  (pre : list Workload.t) (w : Workload.t) (post : list Workload.t)
  (services : list Service.t) (machineSets : list MachineSet.t) (c : Counters) :
  (forall w', In w' pre ->
     fst (isWorkloadSchedulable kubeletCPU kubeletMemory services machineSets w') = true) ->
  fst (isWorkloadSchedulable kubeletCPU kubeletMemory services machineSets w) = false ->
  validateWorkloadsCanSchedule kubeletCPU kubeletMemory (pre ++ w :: post) services machineSets c
  = (inl (NotSchedulable
            (notSchedulableMessage (Workload.name w)
               (minRequiredCPU kubeletCPU w services machineSets)
               (minRequiredMemory kubeletMemory w services machineSets))), c).
Proof.
  intros Hpre Hw. induction pre as [|p pre IH]; simpl.
  - now rewrite Hw.
  - rewrite (Hpre p (or_introl eq_refl)). apply IH.
    intros w' Hin. apply Hpre. now right.
Qed.

Lemma validate_all_schedulable
  (workloads : list Workload.t) (services : list Service.t)
  (machineSets : list MachineSet.t) (c c' : Counters) (u : unit) :
  validateWorkloadsCanSchedule kubeletCPU kubeletMemory workloads services machineSets c
  = (inr u, c') ->
  c' = c /\
  forall w, In w workloads ->
    fst (isWorkloadSchedulable kubeletCPU kubeletMemory services machineSets w) = true.
Proof.
  induction workloads as [|w ws IH]; simpl; intros H.
  - unfold ret in H. inversion H. split; [reflexivity | intros ? []].
  - destruct (fst (isWorkloadSchedulable kubeletCPU kubeletMemory services machineSets w)) eqn:E.
    + destruct (IH H) as [-> Hall]. split; [reflexivity|].
      intros w' [<- | Hin]; [assumption | now apply Hall].
    + discriminate.
Qed.

(** C6, as the code has it.  When [w] is the first expanded workload that no
    machine set can host, [size] throws: the result is the error alone.  The
    message names the workload and states a minimum size computed from the
    requests of all the services of the workload plus the kubelet reservation
    of the target machine set: the CPU figure is
    [min(200, ceil((sum of requiredCPU + kubeletCPU) / 2) * 2)] and the memory
    figure [min(512, ceil((sum of requiredMemory + kubeletMemory) / 4) * 4)]. *)
Theorem size_reports_unschedulable_workload
  (workloads : list WorkloadDescriptor.t) (platform : Platform)
  (machineSets : option (list MachineSet.t)) (c c1 : Counters)
  (allServices : list Service.t)
  (pre : list Workload.t) (w : Workload.t) (post : list Workload.t) :
  let available := availableMachineSets catalog platform machineSets in
  let target := targetMachineSet w available in
  let workloadServices := getWorkloadServices w allServices in
  let kubeletCPUOfTarget :=
    kubeletCPU (match target with Some ms => MachineSet.cpu ms | None => 0%Q end) in
  let kubeletMemoryOfTarget :=
    kubeletMemory (match target with Some ms => MachineSet.memory ms | None => 0%Q end) in
  let minCPU :=
    Z.min 200
      (Qceiling ((sumQ Service.requiredCPU workloadServices + kubeletCPUOfTarget) / (2 # 1))
       * 2) in
  let minMemory :=
    Z.min 512
      (Qceiling ((sumQ Service.requiredMemory workloadServices + kubeletMemoryOfTarget)
                 / (4 # 1)) * 4) in
  expansion workloads c = (inr (pre ++ w :: post, allServices), c1) ->
  (forall w', In w' pre ->
     fst (isWorkloadSchedulable kubeletCPU kubeletMemory allServices available w') = true) ->
  fst (isWorkloadSchedulable kubeletCPU kubeletMemory allServices available w) = false ->
  size toLowerCase kubeletCPU kubeletMemory catalog workloads platform machineSets c
  = (inl (NotSchedulable
       ("Workload " ++ quote ++ Workload.name w ++ quote ++ " is not schedulable. "
        ++ "All available MachineSets are too small to run this workload. "
        ++ "Minimum required: at least " ++ showZ minCPU ++ " CPU and "
        ++ showZ minMemory ++ " GB memory.")%string), c1).
Proof.
  intros available target workloadServices kCPU kMem minCPU minMemory Hexp Hpre Hw.
  unfold size, bind. unfold expansion in Hexp. rewrite Hexp.
  change (match machineSets with
          | Some ms => ms
          | None => getDefaultMachineSets catalog platform
          end) with available.
  rewrite (validate_first_unschedulable pre w post allServices available c1 Hpre Hw).
  reflexivity.
Qed.

End Feasibility.

(** ** Lists, sorting and the monad *)

Lemma In_insert_sorted (A : Type) (before : A -> A -> bool) (x y : A) (l : list A) :
  In y (insert_sorted before x l) <-> y = x \/ In y l.
Proof.
  induction l as [|z l IH]; simpl.
  - intuition.
  - destruct (before z x); simpl; rewrite ?IH; intuition.
Qed.

Lemma In_sortBy (A : Type) (before : A -> A -> bool) (y : A) (l : list A) :
  In y (sortBy before l) <-> In y l.
Proof.
  induction l as [|x l IH]; simpl; [reflexivity|].
  rewrite In_insert_sorted, IH. intuition.
Qed.

Lemma replaceFirst_split (A : Type) (p : A -> bool) (f : A -> A) (l : list A) (x : A) :
  In x l -> p x = true ->
  exists pre y post,
    l = pre ++ y :: post /\ p y = true /\ (forall z, In z pre -> p z = false)
    /\ replaceFirst p f l = pre ++ f y :: post.
Proof.
  induction l as [|z l IH]; intros Hin Hp; [contradiction|].
  simpl. destruct (p z) eqn:Ez.
  - exists [], z, l. repeat split; auto. intros ? [].
  - destruct Hin as [-> | Hin]; [congruence|].
    destruct (IH Hin Hp) as (pre & y & post & Hl & Hy & Hpre & Hrep).
    exists (z :: pre), y, post. subst l. repeat split; auto.
    + intros w [<- | Hw]; auto.
    + simpl. now rewrite Hrep.
Qed.

Lemma replaceFirst_none (A : Type) (p : A -> bool) (f : A -> A) (l : list A) :
  (forall z, In z l -> p z = false) -> replaceFirst p f l = l.
Proof.
  induction l as [|z l IH]; intros H; [reflexivity|]. simpl.
  rewrite (H z (or_introl eq_refl)). f_equal. apply IH. intros w Hw. apply H. now right.
Qed.

Lemma bind_inr (A B : Type) (m : M A) (f : A -> M B) (c c' : Counters) (b : B) :
  bind m f c = (inr b, c') ->
  exists a c1, m c = (inr a, c1) /\ f a c1 = (inr b, c').
Proof.
  unfold bind. destruct (m c) as [[e | a] c1]; intros H; [discriminate|].
  now exists a, c1.
Qed.

Lemma ret_inr (A : Type) (a b : A) (c c' : Counters) :
  ret a c = (inr b, c') -> b = a /\ c' = c.
Proof. unfold ret. intros H. inversion H. auto. Qed.

(** Decomposing a successful computation. *)
Ltac run_M H :=
  repeat match type of H with
  | bind _ _ _ = (inr _, _) =>
      let a := fresh "a" in let c1 := fresh "c" in
      let H1 := fresh "Hrun" in
      apply bind_inr in H; destruct H as (a & c1 & H1 & H)
  | ret _ _ = (inr _, _) =>
      apply ret_inr in H; destruct H as [? ?]; subst
  | throw _ _ = (inr _, _) => discriminate H
  end.

(** An invariant of the loop body is an invariant of the loop. *)
Lemma forEachM_invariant (A S : Type) (I : S -> Counters -> Prop)
  (body : S -> A -> M S) (l : list A) :
  (forall s c x s' c', In x l -> I s c -> body s x c = (inr s', c') -> I s' c') ->
  forall s c s' c', I s c -> forEachM body l s c = (inr s', c') -> I s' c'.
Proof.
  induction l as [|x l IH]; intros Hbody s c s' c' HI Hrun; simpl in Hrun.
  - run_M Hrun. assumption.
  - run_M Hrun. eapply IH; [| |exact Hrun].
    + intros. eapply Hbody; eauto. now right.
    + eapply Hbody; eauto. now left.
Qed.

Lemma timesM_invariant (S : Type) (I : S -> Counters -> Prop)
  (body : S -> M S) (n : nat) :
  (forall s c s' c', I s c -> body s c = (inr s', c') -> I s' c') ->
  forall s c s' c', I s c -> timesM n body s c = (inr s', c') -> I s' c'.
Proof.
  intros Hbody. induction n as [|n IH]; intros s c s' c' HI Hrun; simpl in Hrun.
  - run_M Hrun. assumption.
  - run_M Hrun. eapply IH; [|exact Hrun]. eapply Hbody; eauto.
Qed.

(** ** Placement of a bundle *)

Lemma getNode_inr (ms : option MachineSet.t) (c c' : Counters) (n : Node.t) :
  getNode ms c = (inr n, c') ->
  exists m, ms = Some m
    /\ Node.id n = nodeIdCounter c + 1
    /\ nodeIdCounter c' = nodeIdCounter c + 1
    /\ zoneIdCounter c' = zoneIdCounter c
    /\ workloadIdCounter c' = workloadIdCounter c
    /\ serviceIdCounter c' = serviceIdCounter c
    /\ Node.services n = []
    /\ Node.cpuUnits n = MachineSet.cpu m
    /\ Node.memory n = MachineSet.memory m
    /\ Node.maxDisks n = MachineSet.numberOfDisks m
    /\ Node.machineSet n = MachineSet.name m
    /\ Node.isControlPlane n = Some (String.eqb (MachineSet.name m) "controlPlane").
Proof.
  unfold getNode, bind, generateNodeID. destruct ms as [m|]; simpl; intros H.
  - inversion H; subst; clear H. exists m. simpl. repeat split; reflexivity.
  - discriminate.
Qed.

Section Placement.
Variable toLowerCase : string -> string.
Variables kubeletCPU kubeletMemory : Q -> Q.

(** The three ways [addServiceToZone] returns. *)
Lemma addServiceToZone_inr
  (zone : Zone.t) (nodes : list Node.t) (services bundle : list Service.t)
  (workloads : list Workload.t) (machineSets : list MachineSet.t)
  (c c' : Counters) (nodes' : list Node.t) (zone' : Zone.t) :
  addServiceToZone toLowerCase kubeletCPU kubeletMemory zone nodes services bundle workloads
    machineSets c
  = (inr (nodes', zone'), c') ->
  (exists nodeToRun pre n post,
      In nodeToRun nodes
      /\ viable toLowerCase kubeletCPU kubeletMemory services bundle workloads machineSets nodeToRun
        = true
      /\ includesZ (Zone.nodes zone) (Node.id nodeToRun) = true
      /\ nodes = pre ++ n :: post
      /\ Node.id n = Node.id nodeToRun
      /\ (forall m, In m pre -> Node.id m <> Node.id n)
      /\ nodes' = pre ++ Node.with_services n (Node.services n ++ definedIds bundle) :: post
      /\ zone' = zone /\ c' = c)
  \/ (exists first rest owner fresh,
      bundle = first :: rest
      /\ find (fun wl => includesId (Workload.services wl) (Service.id first)) workloads
         = Some owner
      /\ getNode (getMachineSetForWorkload owner machineSets) c = (inr fresh, c')
      /\ nodes' = nodes ++ [Node.with_services fresh (definedIds bundle)]
      /\ zone' = Zone.mk (Zone.id zone) (Zone.nodes zone ++ [Node.id fresh]))
  \/ (exists first rest,
      bundle = first :: rest
      /\ find (fun wl => includesId (Workload.services wl) (Service.id first)) workloads = None
      /\ nodes' = nodes /\ zone' = zone /\ c' = c).
Proof.
  unfold addServiceToZone, sortNodesWithLeastConsumption.
  set (inZone := filter (fun node => includesZ (Zone.nodes zone) (Node.id node)) nodes).
  set (sorted := sortBy _ _).
  destruct sorted as [|nodeToRun others] eqn:Esorted; intros Hrun.
  - destruct bundle as [|first rest]; [discriminate|].
    destruct (find _ workloads) as [owner|] eqn:Eowner.
    + right; left. run_M Hrun. inversion H; subst; clear H.
      exists first, rest, owner, a. repeat split; auto.
    + right; right. run_M Hrun. inversion H; subst. exists first, rest. auto.
  - left. run_M Hrun. inversion H; subst; clear H.
    assert (Hin : In nodeToRun sorted) by (rewrite Esorted; now left).
    unfold sorted in Hin. apply In_sortBy in Hin. apply filter_In in Hin.
    destruct Hin as [Hin Hviable]. unfold inZone in Hin. apply filter_In in Hin.
    destruct Hin as [Hin Hzone].
    destruct (replaceFirst_split _ (fun n => Node.id n =? Node.id nodeToRun)
                (fun n => Node.with_services n (Node.services n ++ definedIds bundle))
                nodes nodeToRun Hin (Z.eqb_refl _))
      as (pre & n & post & Hnodes & Hn & Hpre & Hrep).
    apply Z.eqb_eq in Hn.
    exists nodeToRun, pre, n, post. repeat split; auto.
    intros m Hm Heq. specialize (Hpre m Hm). apply Z.eqb_neq in Hpre. congruence.
Qed.

End Placement.

(** ** Bundles *)

Lemma includesId_In (l : list Z) (x : option Z) :
  includesId l x = true <-> exists i, x = Some i /\ In i l.
Proof.
  destruct x as [i|]; simpl.
  - rewrite includesZ_In. split; [intros H; now exists i | intros [j [[= ->] H]]; exact H].
  - split; [discriminate | intros [j [[=] _]]].
Qed.

Lemma eqId_false (a b : option Z) : eqId a b = false <-> a <> b.
Proof.
  destruct a as [x|], b as [y|]; simpl; split; intros H; try congruence.
  - apply Z.eqb_neq in H. congruence.
  - apply Z.eqb_neq. congruence.
Qed.

Lemma In_getCoplacedServices (candidate : Service.t) (pending : list Service.t) (s : Service.t) :
  In s (getCoplacedServices candidate pending) <->
  s = candidate
  \/ (In s pending
      /\ (exists i, Service.id s = Some i /\ In i (Service.runsWith candidate))
      /\ Service.id s <> Service.id candidate).
Proof.
  unfold getCoplacedServices. simpl. rewrite filter_In, andb_true_iff, negb_true_iff.
  rewrite includesId_In, eqId_false. intuition.
Qed.

(** ** Sums of requests *)

Lemma fold_sum_acc (A : Type) (f : A -> Q) (l : list A) (a : Q) :
  (fold_left (fun sum x => sum + f x) l a == a + sumQ f l)%Q.
Proof.
  unfold sumQ. revert a. induction l as [|x l IH]; intros a; simpl.
  - ring.
  - rewrite IH. rewrite (IH (0 + f x)%Q). ring.
Qed.

Lemma sumQ_cons (A : Type) (f : A -> Q) (x : A) (l : list A) :
  (sumQ f (x :: l) == f x + sumQ f l)%Q.
Proof. unfold sumQ at 1. simpl. rewrite fold_sum_acc. ring. Qed.

Lemma sumQ_app (A : Type) (f : A -> Q) (l1 l2 : list A) :
  (sumQ f (l1 ++ l2) == sumQ f l1 + sumQ f l2)%Q.
Proof.
  induction l1 as [|x l1 IH]; simpl.
  - unfold sumQ at 2. simpl. ring.
  - rewrite !sumQ_cons, IH. ring.
Qed.

Lemma sumQ_nonneg (A : Type) (f : A -> Q) (l : list A) :
  (forall x, In x l -> (0 <= f x)%Q) -> (0 <= sumQ f l)%Q.
Proof.
  induction l as [|x l IH]; intros H.
  - unfold sumQ. simpl. lra.
  - rewrite sumQ_cons.
    assert (0 <= f x)%Q by (apply H; now left).
    assert (0 <= sumQ f l)%Q by (apply IH; intros; apply H; now right).
    lra.
Qed.

(** A duplicate-free list all of whose elements occur in [B] weighs at most
    as much as [B]. *)
Lemma sumQ_incl_le (A : Type) (f : A -> Q) (T : list A) :
  NoDup T ->
  forall B, incl T B -> (forall x, In x B -> (0 <= f x)%Q) ->
  (sumQ f T <= sumQ f B)%Q.
Proof.
  induction 1 as [|t T Hnotin Hnodup IH]; intros B Hincl Hpos.
  - apply sumQ_nonneg in Hpos. unfold sumQ at 1. simpl. exact Hpos.
  - assert (Ht : In t B) by (apply Hincl; now left).
    apply in_split in Ht. destruct Ht as (B1 & B2 & ->).
    assert (Hincl' : incl T (B1 ++ B2)).
    { intros x Hx. assert (Hx' : In x (B1 ++ t :: B2)) by (apply Hincl; now right).
      apply in_app_or in Hx'. apply in_or_app.
      destruct Hx' as [Hx' | [-> | Hx']]; auto. contradiction. }
    assert (Hpos' : forall x, In x (B1 ++ B2) -> (0 <= f x)%Q).
    { intros x Hx. apply Hpos. apply in_app_or in Hx. apply in_or_app.
      destruct Hx; [left | right; right]; assumption. }
    specialize (IH (B1 ++ B2) Hincl' Hpos').
    rewrite sumQ_cons. rewrite sumQ_app in IH. rewrite sumQ_app, sumQ_cons. lra.
Qed.

Lemma sumQ_filter_orb (A : Type) (f : A -> Q) (p q : A -> bool) (l : list A) :
  (forall x, In x l -> (0 <= f x)%Q) ->
  (sumQ f (filter (fun x => p x || q x) l) <= sumQ f (filter p l) + sumQ f (filter q l))%Q.
Proof.
  induction l as [|x l IH]; intros Hpos.
  - unfold sumQ. simpl. lra.
  - assert (0 <= f x)%Q by (apply Hpos; now left).
    assert (IH' := IH (fun y Hy => Hpos y (or_intror Hy))).
    simpl. destruct (p x), (q x); simpl; rewrite ?sumQ_cons; lra.
Qed.

Lemma length_filter_incl_le (A : Type) (p : A -> bool) (T B : list A) :
  NoDup T -> incl T B ->
  (List.length (filter p T) <= List.length (filter p B))%nat.
Proof.
  intros Hnodup Hincl. apply NoDup_incl_length.
  - now apply NoDup_filter.
  - intros x Hx. apply filter_In in Hx. apply filter_In. destruct Hx. split; auto.
Qed.

Lemma length_filter_orb (A : Type) (p q r : A -> bool) (l : list A) :
  (List.length (filter r (filter (fun x => p x || q x) l))
   <= List.length (filter r (filter p l)) + List.length (filter r (filter q l)))%nat.
Proof.
  induction l as [|x l IH]; simpl; [lia|].
  destruct (p x), (q x); simpl; destruct (r x); simpl; lia.
Qed.

(** The three components of [getTotalResourceRequirement]. *)
Lemma getTotalResourceRequirement_acc (l : list Service.t) (acc : ResourceRequirement) :
  let r := fold_left (addRequirement false) l acc in
  (totalCPU r == totalCPU acc + sumQ Service.requiredCPU l)%Q
  /\ (totalMem r == totalMem acc + sumQ Service.requiredMemory l)%Q
  /\ totalDisks r = totalDisks acc + Z.of_nat (List.length (filter isCephOSD l)).
Proof.
  revert acc. induction l as [|s l IH]; intros acc; simpl.
  - unfold sumQ. simpl. repeat split; try ring.
  - destruct (IH (addRequirement false acc s)) as (Hc & Hm & Hd).
    rewrite Hc, Hm, Hd. rewrite !sumQ_cons. unfold addRequirement, isCephOSD. simpl.
    repeat split; try ring.
    destruct (str_includes "Ceph_OSD" (Service.name s)); simpl List.length; lia.
Qed.

Lemma getTotalResourceRequirement_sums (l : list Service.t) :
  let r := getTotalResourceRequirement l false in
  (totalCPU r == sumQ Service.requiredCPU l)%Q
  /\ (totalMem r == sumQ Service.requiredMemory l)%Q
  /\ totalDisks r = Z.of_nat (List.length (filter isCephOSD l)).
Proof.
  unfold getTotalResourceRequirement.
  destruct (getTotalResourceRequirement_acc l (mkReq 0 0 0)) as (Hc & Hm & Hd).
  simpl in *. rewrite Hc, Hm, Hd. repeat split; try ring.
Qed.

(** ** Unique ids *)

Lemma NoDup_map_eq (A B : Type) (f : A -> B) (l : list A) (a b : A) :
  NoDup (map f l) -> In a l -> In b l -> f a = f b -> a = b.
Proof.
  induction l as [|x l IH]; intros Hnd Ha Hb Heq; [contradiction|].
  simpl in Hnd. inversion Hnd as [|? ? Hnotin Hnd']; subst.
  destruct Ha as [-> | Ha], Hb as [-> | Hb]; auto.
  - exfalso. apply Hnotin. rewrite Heq. now apply in_map.
  - exfalso. apply Hnotin. rewrite <- Heq. now apply in_map.
Qed.

Lemma uniqueIds_eq (l : list Service.t) (a b : Service.t) :
  uniqueIds l -> In a l -> In b l -> Service.id a = Service.id b -> a = b.
Proof. intros [_ Hnd]. now apply NoDup_map_eq. Qed.

Lemma uniqueIds_NoDup (l : list Service.t) : uniqueIds l -> NoDup l.
Proof. intros [_ Hnd]. now apply NoDup_map_inv in Hnd. Qed.

Lemma In_definedIds (l : list Service.t) (i : Z) :
  In i (definedIds l) <-> exists s, In s l /\ Service.id s = Some i.
Proof.
  induction l as [|x l IH]; simpl.
  - split; [contradiction | intros [s [[] _]]].
  - destruct (Service.id x) as [j|] eqn:Ex; simpl; rewrite IH; split.
    + intros [<- | [s [Hs Hid]]]; [exists x | exists s]; auto.
    + intros [s [[<- | Hs] Hid]]; [left; congruence | right; now exists s].
    + intros [s [Hs Hid]]. exists s; auto.
    + intros [s [[<- | Hs] Hid]]; [congruence | now exists s].
Qed.

(** ** Expansion of the descriptors *)

Lemma In_consecutive (k : Z) (n : nat) (i : Z) :
  In i (consecutive k n) <-> k < i <= k + Z.of_nat n.
Proof.
  revert k. induction n as [|n IH]; intros k; simpl consecutive.
  - simpl. lia.
  - simpl In. rewrite IH. lia.
Qed.

Lemma NoDup_consecutive (k : Z) (n : nat) : NoDup (consecutive k n).
Proof.
  revert k. induction n as [|n IH]; intros k; simpl; constructor.
  - rewrite In_consecutive. lia.
  - apply IH.
Qed.

Lemma NoDup_map_Some (A : Type) (l : list A) : NoDup l -> NoDup (map Some l).
Proof.
  induction 1 as [|x l Hnotin Hnd IH]; simpl; constructor; [|assumption].
  intros Hin. apply in_map_iff in Hin. destruct Hin as (y & [= ->] & Hy). contradiction.
Qed.

Lemma assignServiceIds_inr (l : list ServiceDescriptor.t) (c c' : Counters)
  (r : list (Z * ServiceDescriptor.t)) :
  assignServiceIds l c = (inr r, c') ->
  map fst r = consecutive (serviceIdCounter c) (List.length l)
  /\ map snd r = l
  /\ c' = mkCounters (zoneIdCounter c) (nodeIdCounter c) (workloadIdCounter c)
            (serviceIdCounter c + Z.of_nat (List.length l)).
Proof.
  revert c c' r. induction l as [|x l IH]; intros c c' r H.
  - simpl in H. run_M H. simpl. destruct c; simpl. repeat split; f_equal; lia.
  - simpl in H. run_M H. unfold generateServiceID in Hrun. inversion Hrun; subst; clear Hrun.
    apply IH in Hrun0. destruct Hrun0 as (Hfst & Hsnd & ->). simpl in *.
    rewrite Hfst, Hsnd. repeat split. f_equal. lia.
Qed.

Lemma assignServiceIds_total (l : list ServiceDescriptor.t) (c : Counters) :
  exists r c', assignServiceIds l c = (inr r, c').
Proof.
  revert c. induction l as [|x l IH]; intros c; simpl.
  - now exists [], c.
  - unfold bind at 1. unfold generateServiceID at 1.
    destruct (IH (mkCounters (zoneIdCounter c) (nodeIdCounter c) (workloadIdCounter c)
                    (serviceIdCounter c + 1))) as (r & c' & Hr).
    unfold bind. rewrite Hr. now eexists _, _.
Qed.

Lemma getWorkloadFromDescriptors_inr (w : WorkloadDescriptor.t) (c c' : Counters)
  (ss : list Service.t) (wl : Workload.t) :
  getWorkloadFromDescriptors w c = (inr (ss, wl), c') ->
  map Service.id ss
  = map Some (consecutive (serviceIdCounter c) (List.length (WorkloadDescriptor.services w)))
  /\ Workload.services wl
     = consecutive (serviceIdCounter c) (List.length (WorkloadDescriptor.services w))
  /\ Workload.id wl = Some (workloadIdCounter c + 1)
  /\ Workload.name wl = WorkloadDescriptor.name w
  /\ Workload.usesMachines wl = WorkloadDescriptor.usesMachines w
  /\ c' = mkCounters (zoneIdCounter c) (nodeIdCounter c) (workloadIdCounter c + 1)
            (serviceIdCounter c + Z.of_nat (List.length (WorkloadDescriptor.services w))).
Proof.
  unfold getWorkloadFromDescriptors. intros H. run_M H.
  apply assignServiceIds_inr in Hrun. destruct Hrun as (Hfst & Hsnd & ->).
  unfold generateWorkloadID in Hrun0. simpl in Hrun0. inversion Hrun0; subst; clear Hrun0.
  inversion H; subst; clear H. simpl.
  repeat split; auto.
  rewrite map_map. simpl. rewrite <- Hfst. now rewrite map_map.
Qed.

Lemma expandDescriptor_inr (acc : list Workload.t * list Service.t)
  (w : WorkloadDescriptor.t) (c c' : Counters) (acc' : list Workload.t * list Service.t) :
  expandDescriptor acc w c = (inr acc', c') ->
  exists wl ss,
    acc' = (fst acc ++ [wl], snd acc ++ ss)
    /\ map Service.id ss
       = map Some (consecutive (serviceIdCounter c)
                     (List.length (WorkloadDescriptor.services w)))
    /\ Workload.services wl
       = consecutive (serviceIdCounter c) (List.length (WorkloadDescriptor.services w))
    /\ Workload.id wl = Some (workloadIdCounter c + 1)
    /\ Workload.name wl = WorkloadDescriptor.name w
    /\ Workload.usesMachines wl = WorkloadDescriptor.usesMachines w
    /\ c' = mkCounters (zoneIdCounter c) (nodeIdCounter c) (workloadIdCounter c + 1)
              (serviceIdCounter c + Z.of_nat (List.length (WorkloadDescriptor.services w))).
Proof.
  unfold expandDescriptor. destruct acc as [allWorkloads allServices].
  intros H. run_M H. destruct a as [ss wl]. run_M H.
  apply getWorkloadFromDescriptors_inr in Hrun.
  destruct (WorkloadDescriptor.count w >? 1); simpl in Hrun;
    rewrite ?length_map in Hrun;
    destruct Hrun as (Hids & Hsvc & Hid & Hname & Huses & Hc);
    exists wl, ss; simpl; repeat split; auto.
Qed.

(** After the expansion every service has an id of its own, at most the
    value of the service counter. *)
Lemma expansion_uniqueIds (workloads : list WorkloadDescriptor.t) (c c' : Counters)
  (allWorkloads : list Workload.t) (allServices : list Service.t) :
  expansion workloads c = (inr (allWorkloads, allServices), c') ->
  uniqueIds allServices.
Proof.
  unfold expansion. intros H.
  pose (I := fun (acc : list Workload.t * list Service.t) (c : Counters) =>
            NoDup (map Service.id (snd acc))
            /\ forall s, In s (snd acc) ->
                 exists i, Service.id s = Some i /\ i <= serviceIdCounter c).
  assert (Hinv : I (allWorkloads, allServices) c').
  { apply (forEachM_invariant _ _ I expandDescriptor workloads) with (s := ([], [])) (c := c);
      [| |exact H]; unfold I.
    - intros acc c0 w acc' c0' _ [Hnd Hle] Hstep.
      apply expandDescriptor_inr in Hstep.
      destruct Hstep as (wl & ss & -> & Hids & _ & _ & _ & _ & ->). simpl.
      assert (Hnew : forall s, In s ss ->
                exists i, Service.id s = Some i
                  /\ serviceIdCounter c0 < i
                     <= serviceIdCounter c0
                        + Z.of_nat (List.length (WorkloadDescriptor.services w))).
      { intros s Hs. apply (in_map Service.id) in Hs. rewrite Hids in Hs.
        apply in_map_iff in Hs. destruct Hs as (i & Hi & Hin).
        apply In_consecutive in Hin. exists i. split; [now symmetry | assumption]. }
      split.
      + rewrite map_app. apply NoDup_app; [assumption | |].
        * rewrite Hids. apply NoDup_map_Some, NoDup_consecutive.
        * intros a Ha Ha'. apply in_map_iff in Ha. destruct Ha as (s & <- & Hs).
          apply in_map_iff in Ha'. destruct Ha' as (s' & Heq & Hs').
          destruct (Hle s Hs) as (i & Hi & Hbound).
          destruct (Hnew s' Hs') as (i' & Hi' & Hbound').
          rewrite Hi, Hi' in Heq. inversion Heq. lia.
      + intros s Hs. apply in_app_or in Hs. destruct Hs as [Hs | Hs].
        * destruct (Hle s Hs) as (i & Hi & Hbound). exists i. split; [assumption | lia].
        * destruct (Hnew s Hs) as (i & Hi & Hbound). exists i. split; [assumption | lia].
    - simpl. split; [constructor | intros s []]. }
  destruct Hinv as [Hnd Hle]. split; [|assumption].
  intros s Hs. destruct (Hle s Hs) as (i & Hi & _). now exists i.
Qed.

(** ** Invariants of the scheduler *)

(** A loop invariant that may speak of the part of the list already
    processed. *)
Lemma forEachM_prefix_invariant (A S : Type) (I : list A -> S -> Counters -> Prop)
  (body : S -> A -> M S) (l : list A) :
  (forall pre x post s c s' c',
     l = pre ++ x :: post -> I pre s c -> body s x c = (inr s', c') -> I (pre ++ [x]) s' c') ->
  forall s c s' c', I [] s c -> forEachM body l s c = (inr s', c') -> I l s' c'.
Proof.
  intros Hbody.
  assert (Hgen : forall rest pre s c s' c',
            l = pre ++ rest -> I pre s c ->
            forEachM body rest s c = (inr s', c') -> I l s' c').
  { induction rest as [|x rest IH]; intros pre s c s' c' Hl HI Hrun; simpl in Hrun.
    - apply ret_inr in Hrun. destruct Hrun as [-> ->].
      rewrite app_nil_r in Hl. now rewrite Hl.
    - apply bind_inr in Hrun. destruct Hrun as (a & c0 & Hrun0 & Hrun).
      apply (IH (pre ++ [x]) a c0); [| |exact Hrun].
      + now rewrite <- app_assoc.
      + eapply Hbody; eauto. }
  intros s c s' c' HI Hrun. now apply (Hgen l [] s c).
Qed.

Lemma createZones_inr (n : Z) (c c' : Counters) (zs : list Zone.t) :
  createZones n c = (inr zs, c') ->
  nodeIdCounter c' = nodeIdCounter c
  /\ workloadIdCounter c' = workloadIdCounter c
  /\ serviceIdCounter c' = serviceIdCounter c.
Proof.
  unfold createZones.
  pose (I := fun (_ : list Zone.t) (k : Counters) =>
               nodeIdCounter k = nodeIdCounter c
               /\ workloadIdCounter k = workloadIdCounter c
               /\ serviceIdCounter k = serviceIdCounter c).
  intros H.
  assert (HI : I zs c').
  { revert H. apply timesM_invariant; unfold I; auto.
    intros s k s' k' Hk Hstep. run_M Hstep.
    unfold generateZoneID in Hrun. inversion Hrun; subst. simpl. assumption. }
  exact HI.
Qed.

Section Scheduler.
Variable toLowerCase : string -> string.
Variables kubeletCPU kubeletMemory : Q -> Q.

Lemma placeReplica_inr (workload : Workload.t) (services : list Service.t)
  (machineSets : list MachineSet.t) (bundle : list Service.t)
  (st st' : SchedulerState) (c c' : Counters) :
  placeReplica toLowerCase kubeletCPU kubeletMemory workload services machineSets bundle st c
  = (inr st', c') ->
  exists zone zone' used,
    chooseZone kubeletCPU kubeletMemory services bundle st = (Some zone, used)
    /\ addServiceToZone toLowerCase kubeletCPU kubeletMemory zone (st_nodes st) services bundle
         [workload] machineSets c
       = (inr (st_nodes st', zone'), c')
    /\ st_zones st'
       = replaceFirst (fun z => Zone.id z =? Zone.id zone') (fun _ => zone') (st_zones st)
    /\ st_usedZonesId st' = used.
Proof.
  unfold placeReplica.
  destruct (chooseZone kubeletCPU kubeletMemory services bundle st) as [[zone|] used];
    intros H; [|discriminate].
  run_M H. destruct a as [nodes' zone']. run_M H.
  exists zone, zone', used. simpl. auto.
Qed.

Lemma scheduleService_inr (workload : Workload.t) (services : list Service.t)
  (machineSets : list MachineSet.t) (serviceObjects : list Service.t)
  (st st' : SchedulerState) (scheduled scheduled' : list Z)
  (candidateService : Service.t) (c c' : Counters) :
  scheduleService toLowerCase kubeletCPU kubeletMemory workload services machineSets serviceObjects
    (st, scheduled) candidateService c
  = (inr (st', scheduled'), c') ->
  scheduled' = scheduledStep serviceObjects scheduled candidateService
  /\ (if unscheduled scheduled candidateService
      then timesM
             (Z.to_nat (getMaxZones (bundleOf serviceObjects scheduled candidateService)))
             (placeReplica toLowerCase kubeletCPU kubeletMemory workload services machineSets
                (bundleOf serviceObjects scheduled candidateService)) st c
           = (inr st', c')
      else st' = st /\ c' = c).
Proof.
  unfold scheduleService, scheduledStep, bundleOf.
  destruct (unscheduled scheduled candidateService); intros H.
  - run_M H. inversion H; subst. auto.
  - run_M H. inversion H; subst. auto.
Qed.

(** What holds of the nodes before a workload is scheduled and is preserved
    by every placement of one of its bundles holds afterwards. *)
Lemma workloadScheduler_nodes_invariant (I : list Node.t -> Z -> Prop)
  (workload : Workload.t) (services : list Service.t) (machineSets : list MachineSet.t) :
  (forall bundle zone nodes c nodes' zone' c',
     isBundleOf workload services bundle ->
     I nodes (nodeIdCounter c) ->
     addServiceToZone toLowerCase kubeletCPU kubeletMemory zone nodes services bundle
       [workload] machineSets c = (inr (nodes', zone'), c') ->
     I nodes' (nodeIdCounter c')) ->
  forall zones nodes used c st' c',
    I nodes (nodeIdCounter c) ->
    workloadScheduler toLowerCase kubeletCPU kubeletMemory workload services machineSets zones nodes
      used c
    = (inr st', c') ->
    I (st_nodes st') (nodeIdCounter c').
Proof.
  intros Hstep zones nodes used c st' c' HI Hrun.
  unfold workloadScheduler in Hrun.
  set (serviceObjects := getWorkloadServices workload services) in *.
  run_M Hrun. destruct a0 as [st scheduled].
  apply ret_inr in Hrun. destruct Hrun as [-> ->].
  assert (Hc : nodeIdCounter c0 = nodeIdCounter c).
  { destruct (orOne (maxZ (map Service.zones serviceObjects)) >? Z.of_nat (List.length zones)).
    - run_M Hrun0.
      match goal with
      | Hz : createZones _ _ = _ |- _ => now apply createZones_inr in Hz
      end.
    - run_M Hrun0. reflexivity. }
  pose (J := fun (pre : list Service.t) (s : SchedulerState * list Z) (k : Counters) =>
               snd s = fold_left (scheduledStep serviceObjects) pre []
               /\ I (st_nodes (fst s)) (nodeIdCounter k)).
  assert (HJ : J serviceObjects (st, scheduled) c1).
  { apply (forEachM_prefix_invariant _ _ J _ serviceObjects) with (3 := Hrun1); unfold J.
    - intros pre x post [s sch] k [s' sch'] k' Hsplit [Hsch HIs] Hbody. simpl in *.
      apply scheduleService_inr in Hbody. destruct Hbody as [-> Hbody]. split.
      + rewrite fold_left_app. simpl. now rewrite Hsch.
      + destruct (unscheduled sch x) eqn:Eun.
        * revert Hbody.
          apply (timesM_invariant _ (fun s k => I (st_nodes s) (nodeIdCounter k))); auto.
          intros s1 k1 s2 k2 HI1 Hplace. apply placeReplica_inr in Hplace.
          destruct Hplace as (zone & zone' & used' & _ & Hadd & _).
          apply (Hstep _ _ _ _ _ _ _ (ex_intro _ pre (ex_intro _ x (ex_intro _ post
                   (conj Hsplit (conj (eq_ind _ (fun l => unscheduled l x = true) Eun _ Hsch)
                      (f_equal (fun l => bundleOf serviceObjects l x) Hsch))))))
                   HI1 Hadd).
        * destruct Hbody as [-> ->]. assumption.
    - simpl. split; [reflexivity|]. now rewrite Hc. }
  apply HJ.
Qed.

End Scheduler.

(** ** What an admission without the control-plane shortcut checks *)

Section Checks.
Variable toLowerCase : string -> string.
Variables kubeletCPU kubeletMemory : Q -> Q.

Lemma canNodeAddService_checks
  (node : Node.t) (candidate : Service.t) (allServices : list Service.t)
  (workloads : list Workload.t) (machineSets : list MachineSet.t) :
  canNodeAddService toLowerCase kubeletCPU kubeletMemory node candidate allServices workloads
    machineSets
  = true ->
  truthy (Node.isControlPlane node) && isControlPlaneService toLowerCase candidate = false ->
  existsb (includesZ (Node.services node)) (Service.avoid candidate) = false
  /\ (exists i, Service.id candidate = Some i
        /\ includesZ (flat_map Service.avoid (getServicesInNode node allServices)) i = false)
  /\ canNodeSupportRequirements kubeletCPU kubeletMemory
       (getTotalResourceRequirement
          (filter (fun service =>
             includesId (Service.runsWith candidate) (Service.id service)) allServices
           ++ [candidate]) false)
       (getTotalResourceRequirement (getServicesInNode node allServices) false)
       node = true.
Proof.
  unfold canNodeAddService. intros H Hcp.
  destruct (Service.id candidate) as [i|]; [|discriminate].
  destruct (find _ workloads) as [w|]; [|discriminate].
  destruct (negb _ && negb _); [discriminate|].
  assert (Hcont :
    (if negb
          match find (fun ms => (MachineSet.name ms =? Node.machineSet node)%string) machineSets with
          | Some ms =>
              (MachineSet.name ms =? "controlPlane")%string
              && truthy (MachineSet.allowWorkloadScheduling ms)
          | None => false
          end
        && negb match Node.onlyFor node with [] => true | _ :: _ => false end
        && negb (includesS (Node.onlyFor node) (Workload.name w))
     then false
     else
       if existsb (includesZ (Node.services node)) (Service.avoid candidate)
       then false
       else
         if includesZ (flat_map Service.avoid (getServicesInNode node allServices)) i
         then false
         else
           canNodeSupportRequirements kubeletCPU kubeletMemory
             (getTotalResourceRequirement
                (filter (fun service =>
                   includesId (Service.runsWith candidate) (Service.id service)) allServices
                 ++ [candidate]) false)
             (getTotalResourceRequirement (getServicesInNode node allServices) false)
             node) = true).
  { destruct (truthy (Node.isControlPlane node)).
    - simpl in Hcp. rewrite Hcp in H.
      destruct (negb (truthy (Node.allowWorkloadScheduling node)) && _); [discriminate|].
      exact H.
    - destruct (truthy (Workload.requireControlPlane w)); [discriminate|]. exact H. }
  clear H.
  destruct (negb _ && _ && _); [discriminate|].
  destruct (existsb _ _); [discriminate|].
  destruct (includesZ _ i) eqn:Eavoid; [discriminate|].
  repeat split; auto. now exists i.
Qed.

End Checks.

(** ** Well-formed nodes *)

Lemma getMachineSetForWorkload_In (w : Workload.t) (machineSets : list MachineSet.t)
  (m : MachineSet.t) :
  getMachineSetForWorkload w machineSets = Some m -> In m machineSets.
Proof.
  unfold getMachineSetForWorkload.
  destruct (find _ machineSets) as [d|] eqn:Ed.
  - intros [= <-]. now apply find_some in Ed.
  - destruct (0 <? _).
    + intros H. now apply find_some in H.
    + destruct (find (fun ms => negb _) machineSets) as [d|] eqn:Edef.
      * intros [= <-]. now apply find_some in Edef.
      * destruct machineSets; simpl; [discriminate | intros [= <-]; now left].
Qed.

Lemma getWorkloadServices_In (w : Workload.t) (services : list Service.t) (s : Service.t) :
  In s (getWorkloadServices w services) <->
  In s services /\ exists i, Service.id s = Some i /\ In i (Workload.services w).
Proof.
  unfold getWorkloadServices. rewrite filter_In, includesId_In. reflexivity.
Qed.

Lemma unscheduled_true (scheduled : list Z) (s : Service.t) :
  unscheduled scheduled s = true <->
  exists i, Service.id s = Some i /\ ~ In i scheduled.
Proof.
  unfold unscheduled. destruct (Service.id s) as [i|].
  - rewrite negb_true_iff, includesZ_false. split.
    + intros H. now exists i.
    + intros [j [[= ->] H]]. exact H.
  - split; [discriminate | intros [j [[=] _]]].
Qed.

(** The shape of a bundle of the scheduler. *)
Lemma isBundleOf_inv (w : Workload.t) (services bundle : list Service.t) :
  isBundleOf w services bundle ->
  exists candidate tail,
    bundle = candidate :: tail
    /\ In candidate services
    /\ find (fun wl => includesId (Workload.services wl) (Service.id candidate)) [w] = Some w
    /\ (forall b, In b tail ->
          In b services
          /\ (exists i, Service.id b = Some i /\ In i (Service.runsWith candidate))
          /\ Service.id b <> Service.id candidate).
Proof.
  intros (pre & cand & post & Hsplit & Hun & ->).
  assert (Hcand : In cand (getWorkloadServices w services)).
  { rewrite Hsplit. apply in_or_app. right. now left. }
  apply getWorkloadServices_In in Hcand. destruct Hcand as [Hin (i & Hi & Hiw)].
  unfold bundleOf, getCoplacedServices.
  eexists cand, _. split; [reflexivity|]. split; [assumption|]. split.
  - simpl. rewrite Hi. simpl. apply includesZ_In in Hiw. now rewrite Hiw.
  - intros b Hb. apply filter_In in Hb. destruct Hb as [Hb Hcond].
    apply filter_In in Hb. destruct Hb as [Hb _].
    apply getWorkloadServices_In in Hb. destruct Hb as [Hb _].
    apply andb_true_iff in Hcond. destruct Hcond as [Hrw Hneq].
    apply includesId_In in Hrw. apply negb_true_iff, eqId_false in Hneq. auto.
Qed.

Section WellFormed.
Variable toLowerCase : string -> string.
Variables kubeletCPU kubeletMemory : Q -> Q.

Lemma addServiceToZone_wellFormed
  (zone : Zone.t) (nodes : list Node.t) (services bundle : list Service.t)
  (workloads : list Workload.t) (machineSets : list MachineSet.t)
  (c c' : Counters) (nodes' : list Node.t) (zone' : Zone.t) :
  noControlPlaneShortcut toLowerCase machineSets services ->
  nodesWellFormed toLowerCase services nodes (nodeIdCounter c) ->
  addServiceToZone toLowerCase kubeletCPU kubeletMemory zone nodes services bundle workloads
    machineSets c
  = (inr (nodes', zone'), c') ->
  nodesWellFormed toLowerCase services nodes' (nodeIdCounter c').
Proof.
  intros Hcp (Hnd & Hle & Hnocp) Hrun. apply addServiceToZone_inr in Hrun.
  destruct Hrun as [Hex | [Hnew | Hnone]].
  - destruct Hex as (nodeToRun & pre & n & post & _ & _ & _ & -> & _ & _ & -> & _ & ->).
    repeat split.
    + rewrite map_app in *. simpl in *. exact Hnd.
    + intros m Hm. apply in_app_or in Hm. destruct Hm as [Hm | [<- | Hm]].
      * apply Hle. apply in_or_app. now left.
      * simpl. apply Hle. apply in_or_app. right. now left.
      * apply Hle. apply in_or_app. right. now right.
    + intros m s Hm Hs. apply in_app_or in Hm. destruct Hm as [Hm | [<- | Hm]].
      * apply Hnocp; auto. apply in_or_app. now left.
      * simpl. apply (Hnocp n s); auto. apply in_or_app. right. now left.
      * apply Hnocp; auto. apply in_or_app. right. now right.
  - destruct Hnew as (first & rest & owner & fresh & _ & _ & Hnode & -> & _).
    apply getNode_inr in Hnode.
    destruct Hnode as (m & Hm & Hid & Hctr & _ & _ & _ & _ & _ & _ & _ & _ & Hiscp).
    apply getMachineSetForWorkload_In in Hm.
    repeat split.
    + rewrite map_app. simpl. apply NoDup_app; [assumption | repeat constructor; intros [] |].
      intros i Hi [<- | []]. apply in_map_iff in Hi. destruct Hi as (n & Hn & Hin).
      specialize (Hle n Hin). lia.
    + intros n Hn. apply in_app_or in Hn. destruct Hn as [Hn | [<- | []]].
      * specialize (Hle n Hn). lia.
      * simpl. lia.
    + intros n s Hn Hs. apply in_app_or in Hn. destruct Hn as [Hn | [<- | []]].
      * now apply Hnocp.
      * simpl. rewrite Hiscp. simpl.
        specialize (Hcp m s Hm Hs). destruct (MachineSet.name m =? "controlPlane")%string; auto.
  - destruct Hnone as (first & rest & _ & _ & -> & _ & ->). repeat split; assumption.
Qed.

(** With well-formed nodes, the node that receives a bundle is the viable
    node itself. *)
Lemma addServiceToZone_cases
  (zone : Zone.t) (nodes : list Node.t) (services bundle : list Service.t)
  (workloads : list Workload.t) (machineSets : list MachineSet.t)
  (c c' : Counters) (nodes' : list Node.t) (zone' : Zone.t) :
  NoDup (map Node.id nodes) ->
  addServiceToZone toLowerCase kubeletCPU kubeletMemory zone nodes services bundle workloads
    machineSets c
  = (inr (nodes', zone'), c') ->
  (exists pre n post,
      nodes = pre ++ n :: post
      /\ viable toLowerCase kubeletCPU kubeletMemory services bundle workloads machineSets n = true
      /\ nodes' = pre ++ Node.with_services n (Node.services n ++ definedIds bundle) :: post)
  \/ (exists m fresh,
      (exists first rest owner,
         bundle = first :: rest
         /\ find (fun wl => includesId (Workload.services wl) (Service.id first)) workloads
            = Some owner
         /\ getMachineSetForWorkload owner machineSets = Some m)
      /\ getNode (Some m) c = (inr fresh, c')
      /\ nodes' = nodes ++ [Node.with_services fresh (definedIds bundle)])
  \/ nodes' = nodes.
Proof.
  intros Hnd Hrun. apply addServiceToZone_inr in Hrun.
  destruct Hrun as [Hex | [Hnew | Hnone]].
  - left. destruct Hex as (nodeToRun & pre & n & post & Hin & Hv & _ & Hsplit & Hid & _ & -> & _).
    exists pre, n, post. repeat split; auto.
    assert (Hn : In n nodes) by (rewrite Hsplit; apply in_or_app; right; now left).
    now rewrite (NoDup_map_eq _ _ Node.id nodes n nodeToRun Hnd Hn Hin Hid).
  - right; left. destruct Hnew as (first & rest & owner & fresh & Hb & Hfind & Hnode & -> & _).
    destruct (getNode_inr _ _ _ _ Hnode) as (m & Hm & _).
    exists m, fresh. rewrite Hm in Hnode. repeat split; auto.
    exists first, rest, owner. auto.
  - right; right. now destruct Hnone as (first & rest & _ & _ & -> & _).
Qed.

End WellFormed.

(** ** Invariants of a whole run *)

Lemma isBundleOf_members (w : Workload.t) (services bundle : list Service.t) :
  isBundleOf w services bundle ->
  exists candidate,
    In candidate services
    /\ (exists tail, bundle = candidate :: tail)
    /\ find (fun wl => includesId (Workload.services wl) (Service.id candidate)) [w] = Some w
    /\ forall b, In b bundle ->
         In b services
         /\ (b = candidate
             \/ exists i, Service.id b = Some i /\ In i (Service.runsWith candidate)).
Proof.
  intros H. apply isBundleOf_inv in H.
  destruct H as (cand & tail & -> & Hin & Hfind & Htail).
  exists cand. repeat split; auto.
  - now exists tail.
  - destruct H as [<- | Hb]; [assumption | now apply Htail].
  - destruct H as [<- | Hb]; [now left | right; now apply Htail].
Qed.

Section Run.
Variable toLowerCase : string -> string.
Variables kubeletCPU kubeletMemory : Q -> Q.
Variable catalog : Platform -> Instance.t.

Lemma size_inr (workloads : list WorkloadDescriptor.t) (platform : Platform)
  (machineSets : option (list MachineSet.t)) (c c' : Counters) (out : ClusterSizing) :
  size toLowerCase kubeletCPU kubeletMemory catalog workloads platform machineSets c = (inr out, c')
    ->
  exists allWorkloads allServices c1 st,
    expansion workloads c = (inr (allWorkloads, allServices), c1)
    /\ (forall w, In w allWorkloads ->
          fst (isWorkloadSchedulable kubeletCPU kubeletMemory allServices
                 (availableMachineSets catalog platform machineSets) w) = true)
    /\ forEachM (scheduleWorkload toLowerCase kubeletCPU kubeletMemory allServices
                   (availableMachineSets catalog platform machineSets))
         allWorkloads (mkState [] [] []) c1 = (inr st, c')
    /\ nodes out = st_nodes st
    /\ zoneDetails out = st_zones st
    /\ services out = allServices
    /\ nodeCount out = Z.of_nat (List.length (st_nodes st))
    /\ zones out = Z.of_nat (List.length (st_zones st)).
Proof.
  unfold size. intros H.
  apply bind_inr in H. destruct H as ([allWorkloads allServices] & c1 & Hexp & H).
  apply bind_inr in H. destruct H as (u & c2 & Hval & H).
  apply bind_inr in H. destruct H as (st & c3 & Hsched & H).
  apply ret_inr in H. destruct H as [-> ->].
  apply validate_all_schedulable in Hval. destruct Hval as [-> Hall].
  exists allWorkloads, allServices, c1, st. simpl. repeat split; auto.
Qed.

(** A property of the node list that holds of the empty list and that every
    placement of a bundle preserves holds of the nodes [size] returns. *)
Lemma size_nodes_invariant (workloads : list WorkloadDescriptor.t) (platform : Platform)
  (machineSets : option (list MachineSet.t)) (c c' : Counters) (out : ClusterSizing) :
  size toLowerCase kubeletCPU kubeletMemory catalog workloads platform machineSets c = (inr out, c')
    ->
  exists allWorkloads c1,
    expansion workloads c = (inr (allWorkloads, services out), c1)
    /\ (forall w, In w allWorkloads ->
          fst (isWorkloadSchedulable kubeletCPU kubeletMemory (services out)
                 (availableMachineSets catalog platform machineSets) w) = true)
    /\ forall I : list Node.t -> Z -> Prop,
         I [] (nodeIdCounter c1) ->
         (forall w bundle zone nodes k nodes' zone' k',
            In w allWorkloads ->
            isBundleOf w (services out) bundle ->
            I nodes (nodeIdCounter k) ->
            addServiceToZone toLowerCase kubeletCPU kubeletMemory zone nodes (services out) bundle
              [w]
              (availableMachineSets catalog platform machineSets) k
            = (inr (nodes', zone'), k') ->
            I nodes' (nodeIdCounter k')) ->
         I (nodes out) (nodeIdCounter c').
Proof.
  intros H. apply size_inr in H.
  destruct H as (allWorkloads & allServices & c1 & st & Hexp & Hall & Hsched & Hnodes & _ & Hsvc & _).
  subst allServices. exists allWorkloads, c1. split; [assumption|]. split; [assumption|].
  intros I Hinit Hstep. rewrite Hnodes.
  pose (J := fun (s : SchedulerState) (k : Counters) => I (st_nodes s) (nodeIdCounter k)).
  assert (HJ : J st c').
  { revert Hsched. apply forEachM_invariant; unfold J; [|exact Hinit].
    intros s k w s' k' Hw HI Hbody. unfold scheduleWorkload in Hbody.
    revert Hbody. apply workloadScheduler_nodes_invariant; [|exact HI].
    intros bundle zone nodes0 k0 nodes' zone' k0'. now apply Hstep. }
  exact HJ.
Qed.

(** C5, as the code has it.  When no control-plane node can admit a service
    through the control-plane shortcut, and no service avoids a member of a
    group it is placed with (a service and the services it lists in
    [runsWith]), then in every sizing that [size] returns no two distinct
    services on a node avoid one another, in either direction. *)
Theorem avoid_respected_on_every_node
  (workloads : list WorkloadDescriptor.t) (platform : Platform)
  (machineSets : option (list MachineSet.t)) (c c' : Counters) (out : ClusterSizing) :
  size toLowerCase kubeletCPU kubeletMemory catalog workloads platform machineSets c = (inr out, c')
    ->
  noControlPlaneShortcut toLowerCase (availableMachineSets catalog platform machineSets) (services
    out) ->
  bundlesCompatible (services out) ->
  forall n, In n (nodes out) -> avoidRespected (services out) n.
Proof.
  intros Hsize Hcp Hcompat.
  destruct (size_nodes_invariant _ _ _ _ _ _ Hsize) as (allWorkloads & c1 & Hexp & _ & Hinv).
  assert (Huniq : uniqueIds (services out)) by (eapply expansion_uniqueIds; eauto).
  set (all := services out) in *.
  set (available := availableMachineSets catalog platform machineSets) in *.
  pose (I := fun (nodes : list Node.t) (k : Z) =>
               nodesWellFormed toLowerCase all nodes k /\ forall n, In n nodes -> avoidRespected all
                 n).
  assert (HI : I (nodes out) (nodeIdCounter c')); [|apply HI].
  apply Hinv; unfold I.
  { split; [|intros n []]. repeat split; [constructor | intros n [] | intros n s []]. }
  intros w bundle zone nodes0 k nodes' zone' k' Hw Hbundle [Hwf Havoid] Hadd.
  split; [eapply addServiceToZone_wellFormed; eauto|].
  destruct (isBundleOf_members _ _ _ Hbundle) as (cand & Hcand & _ & _ & Hmembers).
  (* Two services of the bundle are compatible. *)
  assert (Hboth : forall a b ia ib,
            In a all -> In b all -> Service.id a = Some ia -> Service.id b = Some ib ->
            In ia (definedIds bundle) -> In ib (definedIds bundle) -> ia <> ib ->
            ~ In ib (Service.avoid a)).
  { intros a b ia ib Ha Hb Hia Hib Hina Hinb Hneq.
    apply In_definedIds in Hina. destruct Hina as (a' & Ha' & Hia').
    apply In_definedIds in Hinb. destruct Hinb as (b' & Hb' & Hib').
    destruct (Hmembers a' Ha') as [Ha'all Hagroup].
    destruct (Hmembers b' Hb') as [Hb'all Hbgroup].
    assert (a' = a) by (apply (uniqueIds_eq all); auto; congruence).
    assert (b' = b) by (apply (uniqueIds_eq all); auto; congruence).
    subst a' b'.
    apply (Hcompat cand a b ia ib); auto.
    - destruct Hagroup as [-> | (i & Hi & Hrw)]; [now left | right; congruence].
    - destruct Hbgroup as [-> | (i & Hi & Hrw)]; [now left | right; congruence]. }
  destruct Hwf as (Hnd & Hle & Hnocp).
  destruct (addServiceToZone_cases _ _ _ _ _ _ _ _ _ _ _ _ _ Hnd Hadd)
    as [(pre & n & post & -> & Hviable & ->) | [(m & fresh & _ & Hnode & ->) | ->]].
  - intros n' Hn'. apply in_app_or in Hn'.
    destruct Hn' as [Hn' | [<- | Hn']];
      [apply Havoid, in_or_app; now left | | apply Havoid, in_or_app; right; now right].
    assert (Hn : In n (pre ++ n :: post)) by (apply in_or_app; right; now left).
    intros a b ia ib Ha Hb Hia Hib Hina Hinb Hneq. simpl in Hina, Hinb.
    apply in_app_or in Hina. apply in_app_or in Hinb.
    assert (Hcheck : forall x ix, In x all -> Service.id x = Some ix ->
              In ix (definedIds bundle) ->
              existsb (includesZ (Node.services n)) (Service.avoid x) = false
              /\ includesZ (flat_map Service.avoid (getServicesInNode n all)) ix = false).
    { intros x ix Hx Hix Hinx. apply In_definedIds in Hinx.
      destruct Hinx as (x' & Hx' & Hix').
      destruct (Hmembers x' Hx') as [Hx'all _].
      assert (x' = x) by (apply (uniqueIds_eq all); auto; congruence). subst x'.
      unfold viable in Hviable. rewrite forallb_forall in Hviable.
      destruct (canNodeAddService_checks _ _ _ _ _ _ _ _ (Hviable x Hx') (Hnocp n x Hn Hx))
        as (H1 & (j & Hj & H2) & _).
      split; [assumption|]. congruence. }
    destruct Hina as [Hina | Hina], Hinb as [Hinb | Hinb].
    + apply (Havoid n Hn a b ia ib); auto.
    + destruct (Hcheck b ib Hb Hib Hinb) as [_ H2].
      apply includesZ_false in H2. intros Hin. apply H2.
      apply in_flat_map. exists a. split; [|assumption].
      unfold getServicesInNode. apply filter_In. split; [assumption|].
      rewrite Hia. simpl. now apply includesZ_In.
    + destruct (Hcheck a ia Ha Hia Hina) as [H1 _].
      intros Hin. assert (Hex : existsb (includesZ (Node.services n)) (Service.avoid a) = true).
      { apply existsb_exists. exists ib. split; [assumption | now apply includesZ_In]. }
      congruence.
    + now apply (Hboth a b ia ib).
  - intros n' Hn'. apply in_app_or in Hn'. destruct Hn' as [Hn' | [<- | []]]; [now apply Havoid|].
    intros a b ia ib Ha Hb Hia Hib Hina Hinb Hneq. simpl in Hina, Hinb.
    now apply (Hboth a b ia ib).
  - assumption.
Qed.

End Run.

(** ** The bundles of the feasibility analysis and of the scheduler *)

Lemma coplacedStep_snd_grows (services : list Service.t) (l : list Service.t)
  (st : list Z * list (list Service.t)) (b : list Service.t) :
  In b (snd st) -> In b (snd (fold_left (coplacedStep services) l st)).
Proof.
  revert st. induction l as [|x l IH]; intros st Hb; simpl; [assumption|].
  apply IH. unfold coplacedStep.
  destruct (Service.id x) as [i|]; [|assumption].
  destruct (negb (includesZ (fst st) i)); [|assumption].
  simpl. apply in_or_app. now left.
Qed.

(** On the ids of the workload's services, the scheduled set of the
    feasibility analysis and that of the scheduler agree after every
    prefix. *)
Lemma scheduled_sets_agree (serviceObjects : list Service.t) (l : list Service.t) :
  (forall x, In x l -> In x serviceObjects) ->
  forall (sv : list Z) (bundles : list (list Service.t)) (ss : list Z),
    (forall s i, In s serviceObjects -> Service.id s = Some i -> (In i sv <-> In i ss)) ->
    forall s i, In s serviceObjects -> Service.id s = Some i ->
      (In i (fst (fold_left (coplacedStep serviceObjects) l (sv, bundles)))
       <-> In i (fold_left (scheduledStep serviceObjects) l ss)).
Proof.
  induction l as [|x l IH]; intros Hl sv bundles ss Hagree; simpl; [exact Hagree|].
  assert (Hx : In x serviceObjects) by (apply Hl; now left).
  assert (Hl' : forall y, In y l -> In y serviceObjects) by (intros; apply Hl; now right).
  unfold coplacedStep at 2. unfold scheduledStep at 2. unfold unscheduled. simpl fst.
  destruct (Service.id x) as [ix|] eqn:Ex; [|now apply IH].
  assert (Hsame : includesZ ss ix = includesZ sv ix).
  { specialize (Hagree x ix Hx Ex). rewrite <- !includesZ_In in Hagree.
    destruct (includesZ ss ix), (includesZ sv ix); intuition congruence. }
  rewrite Hsame. destruct (includesZ sv ix) eqn:Esv; simpl negb; cbv iota.
  - now apply IH.
  - apply IH; [assumption|]. clear IH.
    intros s i Hs Hi. simpl snd. specialize (Hagree s i Hs Hi).
    rewrite !in_app_iff, In_definedIds.
    apply includesZ_false in Hsame.
    split.
    + intros [Hin | [Heq | Hrw]].
      * left. now apply Hagree.
      * right. exists x. split; [unfold bundleOf, getCoplacedServices; now left | congruence].
      * destruct (in_dec Z.eq_dec i ss) as [Hin | Hnin]; [now left|].
        right. destruct (Z.eq_dec i ix) as [-> | Hneq].
        -- exists x. split; [unfold bundleOf, getCoplacedServices; now left | assumption].
        -- exists s. split; [|assumption].
           apply In_getCoplacedServices. right. repeat split.
           ++ apply filter_In. split; [assumption|].
              apply unscheduled_true. now exists i.
           ++ now exists i.
           ++ rewrite Hi, Ex. congruence.
    + intros [Hin | (t & Ht & Hti)].
      * left. now apply Hagree.
      * right. apply In_getCoplacedServices in Ht.
        destruct Ht as [-> | (_ & (j & Hj & Hrw) & _)].
        -- left. congruence.
        -- right. congruence.
Qed.

(** The group the feasibility analysis forms around the candidate of a
    bundle of the scheduler is one of the groups it checks. *)
Lemma scheduler_bundle_is_validated (w : Workload.t) (services : list Service.t)
  (pre : list Service.t) (candidate : Service.t) (post : list Service.t) :
  getWorkloadServices w services = pre ++ candidate :: post ->
  unscheduled (fold_left (scheduledStep (getWorkloadServices w services)) pre []) candidate
  = true ->
  In (candidate :: lookupServices (getWorkloadServices w services) (Service.runsWith candidate))
     (getAllCoplacedServices (getWorkloadServices w services)).
Proof.
  set (SO := getWorkloadServices w services). intros Hsplit Hun.
  unfold getAllCoplacedServices. fold SO.
  replace (fold_left (coplacedStep SO) SO ([], []))
    with (fold_left (coplacedStep SO) (pre ++ candidate :: post) ([], []))
    by (now rewrite <- Hsplit).
  rewrite fold_left_app. simpl.
  apply coplacedStep_snd_grows.
  apply unscheduled_true in Hun. destruct Hun as (ic & Hic & Hnotin).
  assert (Hcand : In candidate SO) by (rewrite Hsplit; apply in_or_app; right; now left).
  assert (Hagree :
    In ic (fst (fold_left (coplacedStep SO) pre ([], [])))
    <-> In ic (fold_left (scheduledStep SO) pre [])).
  { apply (scheduled_sets_agree SO pre) with (s := candidate); auto.
    - intros x Hx. rewrite Hsplit. apply in_or_app. now left.
    - intros; reflexivity. }
  unfold coplacedStep at 1. rewrite Hic.
  destruct (includesZ (fst (fold_left (coplacedStep SO) pre ([], []))) ic) eqn:E.
  - apply includesZ_In in E. apply Hagree in E. contradiction.
  - simpl. apply in_or_app. right. now left.
Qed.

Lemma In_lookupServices (services : list Service.t) (ids : list Z) (s : Service.t) (i : Z) :
  NoDup (map Service.id services) ->
  In s services -> Service.id s = Some i -> In i ids ->
  In s (lookupServices services ids).
Proof.
  intros Hnd Hs Hi Hin. unfold lookupServices. apply in_flat_map. exists i.
  split; [assumption|].
  destruct (find (fun s0 => eqId (Service.id s0) (Some i)) services) as [s'|] eqn:Efind.
  - apply find_some in Efind. destruct Efind as [Hs' Hid]. apply eqId_Some in Hid.
    left. apply (NoDup_map_eq _ _ Service.id services); auto. congruence.
  - exfalso. apply (find_none _ _ Efind) in Hs. rewrite Hi in Hs. simpl in Hs.
    rewrite Z.eqb_refl in Hs. discriminate.
Qed.

Section Validation.
Variables kubeletCPU kubeletMemory : Q -> Q.

(** A machine set the analysis retains hosts every group it formed. *)
Lemma isWorkloadSchedulable_fits (services : list Service.t)
  (machineSets : list MachineSet.t) (w : Workload.t) (m : MachineSet.t) :
  In m (snd (isWorkloadSchedulable kubeletCPU kubeletMemory services machineSets w)) ->
  forall group, In group (getAllCoplacedServices (getWorkloadServices w services)) ->
    areServicesSchedulable kubeletCPU kubeletMemory group m = true.
Proof.
  unfold isWorkloadSchedulable.
  set (sorted := sortBy _ (getAllCoplacedServices (getWorkloadServices w services))).
  set (fits := fun ms : MachineSet.t =>
                 forallb (fun ser => areServicesSchedulable kubeletCPU kubeletMemory ser ms) sorted).
  assert (Hfits : fits m = true ->
    forall group, In group (getAllCoplacedServices (getWorkloadServices w services)) ->
      areServicesSchedulable kubeletCPU kubeletMemory group m = true).
  { unfold fits. intros Hf group Hg. rewrite forallb_forall in Hf. apply Hf.
    unfold sorted. now apply In_sortBy. }
  intros Hin. apply Hfits. clear Hfits.
  destruct (0 <? Z.of_nat (List.length (Workload.usesMachines w))).
  - destruct (0 <? _); simpl in Hin; [|contradiction].
    apply filter_In in Hin. apply Hin.
  - destruct (_ && _); simpl in Hin.
    + apply filter_In in Hin. apply Hin.
    + destruct (0 <? _); simpl in Hin; [|contradiction].
      apply filter_In in Hin. destruct Hin as [_ Hin].
      destruct (isControlPlaneName (MachineSet.name m) && _); [discriminate|].
      apply andb_true_iff in Hin. apply Hin.
Qed.

End Validation.

(** ** Capacity *)

Lemma Qgtb_false (a b : Q) : Qgtb a b = false <-> (a <= b)%Q.
Proof.
  unfold Qgtb. rewrite negb_false_iff. apply Qle_bool_iff.
Qed.

Lemma includesId_app (l1 l2 : list Z) (x : option Z) :
  includesId (l1 ++ l2) x = includesId l1 x || includesId l2 x.
Proof. destruct x; simpl; [apply includesZ_app | reflexivity]. Qed.

Lemma getServicesInNode_append (n : Node.t) (ids : list Z) (all : list Service.t) :
  getServicesInNode (Node.with_services n (Node.services n ++ ids)) all
  = filter (fun s => includesId (Node.services n) (Service.id s)
                     || includesId ids (Service.id s)) all.
Proof.
  unfold getServicesInNode. simpl. apply filter_ext. intros s. apply includesId_app.
Qed.

Section Capacity.
Variables kubeletCPU kubeletMemory : Q -> Q.

Lemma canNodeSupportRequirements_true (req cur : ResourceRequirement) (node : Node.t) :
  canNodeSupportRequirements kubeletCPU kubeletMemory req cur node = true ->
  (totalCPU req + totalCPU cur + kubeletCPU (Node.cpuUnits node) <= Node.cpuUnits node)%Q
  /\ (totalMem req + totalMem cur + kubeletMemory (Node.memory node) <= Node.memory node)%Q
  /\ totalDisks req + totalDisks cur <= Node.maxDisks node.
Proof.
  unfold canNodeSupportRequirements.
  destruct (Qgtb _ (Node.cpuUnits node)) eqn:E1; [discriminate|].
  destruct (Qgtb _ (Node.memory node)) eqn:E2; [discriminate|].
  destruct (_ >? Node.maxDisks node) eqn:E3; [discriminate|].
  intros _. apply Qgtb_false in E1. apply Qgtb_false in E2.
  repeat split; auto. lia.
Qed.

Lemma areServicesSchedulable_true (group : list Service.t) (m : MachineSet.t) :
  areServicesSchedulable kubeletCPU kubeletMemory group m = true ->
  (sumQ Service.requiredCPU group + kubeletCPU (MachineSet.cpu m) <= MachineSet.cpu m)%Q
  /\ (sumQ Service.requiredMemory group + kubeletMemory (MachineSet.memory m)
      <= MachineSet.memory m)%Q
  /\ Z.of_nat (List.length (filter isCephOSD group)) <= MachineSet.numberOfDisks m.
Proof.
  unfold areServicesSchedulable. intros H.
  apply andb_true_iff in H. destruct H as [H Hd].
  apply andb_true_iff in H. destruct H as [Hm Hc].
  apply Qle_bool_iff in Hm. apply Qle_bool_iff in Hc. apply Z.leb_le in Hd.
  destruct (getTotalResourceRequirement_sums group) as (Ec & Em & Ed).
  rewrite Ec in Hc. rewrite Em in Hm. rewrite Ed in Hd. auto.
Qed.

End Capacity.

(** The services a bundle adds to a node, and what they weigh. *)
Section BundleWeight.
Variable all : list Service.t.
Variable w : Workload.t.
Variable bundle : list Service.t.
Hypothesis Hunique : uniqueIds all.
Hypothesis Hbundle : isBundleOf w all bundle.

Lemma bundle_NoDup_incl :
  NoDup bundle /\ incl bundle all.
Proof.
  destruct Hbundle as (pre & cand & post & Hsplit & Hun & ->).
  assert (Hcand : In cand (getWorkloadServices w all)).
  { rewrite Hsplit. apply in_or_app. right. now left. }
  apply getWorkloadServices_In in Hcand. destruct Hcand as [Hcand _].
  unfold bundleOf, getCoplacedServices. split.
  - constructor.
    + intros Hin. apply filter_In in Hin. destruct Hin as [_ Hcond].
      apply andb_true_iff in Hcond. destruct Hcond as [_ Hneq].
      apply negb_true_iff, eqId_false in Hneq. congruence.
    + apply NoDup_filter, NoDup_filter. unfold getWorkloadServices.
      apply NoDup_filter. now apply uniqueIds_NoDup.
  - intros b [<- | Hb]; [assumption|].
    apply filter_In in Hb. destruct Hb as [Hb _]. apply filter_In in Hb.
    destruct Hb as [Hb _]. apply getWorkloadServices_In in Hb. apply Hb.
Qed.

(** The services of the run whose id the bundle lists are members of the
    bundle. *)
Lemma listed_in_bundle :
  incl (filter (fun s => includesId (definedIds bundle) (Service.id s)) all) bundle.
Proof.
  intros t Ht. apply filter_In in Ht. destruct Ht as [Ht Hid].
  apply includesId_In in Hid. destruct Hid as (i & Hi & Hin).
  apply In_definedIds in Hin. destruct Hin as (b & Hb & Hbi).
  assert (Hball : In b all) by (now apply bundle_NoDup_incl).
  assert (t = b) by (apply (uniqueIds_eq all); auto; congruence).
  now subst.
Qed.

Lemma listed_weight (f : Service.t -> Q) :
  (forall s, In s all -> (0 <= f s)%Q) ->
  (sumQ f (filter (fun s => includesId (definedIds bundle) (Service.id s)) all)
   <= sumQ f bundle)%Q.
Proof.
  intros Hpos. apply sumQ_incl_le.
  - apply NoDup_filter. now apply uniqueIds_NoDup.
  - apply listed_in_bundle.
  - intros x Hx. apply Hpos. now apply bundle_NoDup_incl.
Qed.

Lemma listed_disks :
  (List.length (filter isCephOSD
     (filter (fun s => includesId (definedIds bundle) (Service.id s)) all))
   <= List.length (filter isCephOSD bundle))%nat.
Proof.
  apply length_filter_incl_le.
  - apply NoDup_filter. now apply uniqueIds_NoDup.
  - apply listed_in_bundle.
Qed.

(** The bundle is part of what [canNodeAddService] weighs for its first
    member, and part of the group the feasibility analysis formed around
    it. *)
Lemma bundle_in_checked_groups :
  exists candidate tail,
    bundle = candidate :: tail
    /\ incl bundle
         (filter (fun service =>
            includesId (Service.runsWith candidate) (Service.id service)) all
          ++ [candidate])
    /\ incl bundle
         (candidate :: lookupServices (getWorkloadServices w all) (Service.runsWith candidate))
    /\ In (candidate :: lookupServices (getWorkloadServices w all)
                          (Service.runsWith candidate))
          (getAllCoplacedServices (getWorkloadServices w all)).
Proof.
  destruct Hbundle as (pre & cand & post & Hsplit & Hun & Hb).
  exists cand. eexists. split; [exact Hb|].
  assert (Htail : forall b, In b bundle -> b = cand \/
            (In b (getWorkloadServices w all)
             /\ exists i, Service.id b = Some i /\ In i (Service.runsWith cand))).
  { intros b Hin. rewrite Hb in Hin. apply In_getCoplacedServices in Hin.
    destruct Hin as [-> | (Hin & Hrw & _)]; [now left | right].
    apply filter_In in Hin. split; [apply Hin | assumption]. }
  split; [|split].
  - intros b Hin. apply in_or_app. destruct (Htail b Hin) as [-> | (Hso & i & Hi & Hrw)].
    + right. now left.
    + left. apply filter_In. split.
      * apply getWorkloadServices_In in Hso. apply Hso.
      * rewrite Hi. simpl. now apply includesZ_In.
  - intros b Hin. destruct (Htail b Hin) as [-> | (Hso & i & Hi & Hrw)]; [now left | right].
    apply In_lookupServices with (i := i); auto.
    unfold getWorkloadServices.
    destruct Hunique as [_ Hnd]. clear - Hnd.
    induction all as [|x l IH]; simpl; [constructor|].
    inversion Hnd as [|? ? Hnotin Hnd']; subst.
    destruct (includesId (Workload.services w) (Service.id x)); simpl; auto.
    constructor; auto. intros Hin. apply Hnotin.
    apply in_map_iff in Hin. destruct Hin as (y & Hy & Hyin).
    apply filter_In in Hyin. rewrite <- Hy. apply in_map. apply Hyin.
  - now apply scheduler_bundle_is_validated with (pre := pre) (post := post).
Qed.

End BundleWeight.

Section CapacityOfARun.
Variable toLowerCase : string -> string.
Variables kubeletCPU kubeletMemory : Q -> Q.
Variable catalog : Platform -> Instance.t.

Lemma expandedWorkloads_eq (workloads : list WorkloadDescriptor.t) (c c1 : Counters)
  (allWorkloads : list Workload.t) (allServices : list Service.t) :
  expansion workloads c = (inr (allWorkloads, allServices), c1) ->
  expandedWorkloads workloads c = allWorkloads.
Proof. unfold expandedWorkloads. now intros ->. Qed.

(** X29.  What the admission test does guarantee.  Take a sizing that
    [size] returns, with non-negative requests, in which no control-plane node
    can admit a service through the control-plane shortcut, and in which the
    machine set that [getMachineSetForWorkload] picks for the new nodes of
    each workload is one the feasibility analysis retained for that workload.
    Then on every node the requests of the services the node lists, each
    weighed once however often the node lists it, fit the node: their CPU
    requests plus the kubelet CPU reservation are at most [cpuUnits], likewise
    for memory, and those whose name contains [Ceph_OSD] number at most
    [maxDisks]. *)
Theorem capacity_respected_on_every_node
  (workloads : list WorkloadDescriptor.t) (platform : Platform)
  (machineSets : option (list MachineSet.t)) (c c' : Counters) (out : ClusterSizing) :
  size toLowerCase kubeletCPU kubeletMemory catalog workloads platform machineSets c = (inr out, c')
    ->
  (forall s, In s (services out) ->
     (0 <= Service.requiredCPU s)%Q /\ (0 <= Service.requiredMemory s)%Q) ->
  noControlPlaneShortcut toLowerCase (availableMachineSets catalog platform machineSets) (services
    out) ->
  (forall w, In w (expandedWorkloads workloads c) ->
     createsValidatedNodes kubeletCPU kubeletMemory
       (availableMachineSets catalog platform machineSets) (services out) w) ->
  forall n, In n (nodes out) -> capacityRespected kubeletCPU kubeletMemory (services out) n.
Proof.
  intros Hsize Hpos Hcp Hms.
  destruct (size_nodes_invariant _ _ _ _ _ _ _ _ _ _ Hsize) as (allWorkloads & c1 & Hexp & _ & Hinv).
  assert (Huniq : uniqueIds (services out)) by (eapply expansion_uniqueIds; eauto).
  rewrite (expandedWorkloads_eq _ _ _ _ _ Hexp) in Hms.
  set (all := services out) in *.
  set (available := availableMachineSets catalog platform machineSets) in *.
  assert (HposC : forall s, In s all -> (0 <= Service.requiredCPU s)%Q)
    by (intros s Hs; now apply Hpos).
  assert (HposM : forall s, In s all -> (0 <= Service.requiredMemory s)%Q)
    by (intros s Hs; now apply Hpos).
  pose (I := fun (nodes : list Node.t) (k : Z) =>
               nodesWellFormed toLowerCase all nodes k
               /\ forall n, In n nodes -> capacityRespected kubeletCPU kubeletMemory all n).
  assert (HI : I (nodes out) (nodeIdCounter c')); [|apply HI].
  apply Hinv; unfold I.
  { split; [|intros n []]. repeat split; [constructor | intros n [] | intros n s []]. }
  intros w bundle zone nodes0 k nodes' zone' k' Hw Hbundle [Hwf Hcap] Hadd.
  split; [eapply addServiceToZone_wellFormed; eauto|].
  destruct (bundle_in_checked_groups all w bundle Huniq Hbundle)
    as (cand & tail & Hshape & Hadj & Hgroup & Hvalidated).
  destruct (bundle_NoDup_incl all w bundle Huniq Hbundle) as [Hnodup Hincl].
  assert (Hcandall : In cand all) by (apply Hincl; rewrite Hshape; now left).
  destruct Hwf as (Hnd & Hle & Hnocp).
  destruct (addServiceToZone_cases _ _ _ _ _ _ _ _ _ _ _ _ _ Hnd Hadd)
    as [(pre & n & post & -> & Hviable & ->) | [(m & fresh & Hm & Hnode & ->) | ->]].
  - (* the bundle joins the viable node [n] *)
    intros n' Hn'. apply in_app_or in Hn'.
    destruct Hn' as [Hn' | [<- | Hn']];
      [apply Hcap, in_or_app; now left | | apply Hcap, in_or_app; right; now right].
    assert (Hn : In n (pre ++ n :: post)) by (apply in_or_app; right; now left).
    unfold viable in Hviable. rewrite forallb_forall in Hviable.
    assert (Hcandb : In cand bundle) by (rewrite Hshape; now left).
    destruct (canNodeAddService_checks _ _ _ _ _ _ _ _ (Hviable cand Hcandb)
                (Hnocp n cand Hn Hcandall)) as (_ & _ & Hsupport).
    apply canNodeSupportRequirements_true in Hsupport.
    destruct Hsupport as (Hc & Hmem & Hd).
    set (adjusted := filter _ all ++ [cand]) in *.
    destruct (getTotalResourceRequirement_sums adjusted) as (Ec & Em & Ed).
    destruct (getTotalResourceRequirement_sums (getServicesInNode n all)) as (Ec' & Em' & Ed').
    rewrite Ec, Ec' in Hc. rewrite Em, Em' in Hmem. rewrite Ed, Ed' in Hd.
    unfold capacityRespected. rewrite getServicesInNode_append. simpl.
    assert (Hadjpos : forall f : Service.t -> Q,
              (forall s, In s all -> (0 <= f s)%Q) ->
              forall x, In x adjusted -> (0 <= f x)%Q).
    { intros f Hf x Hx. apply Hf. unfold adjusted in Hx. apply in_app_or in Hx.
      destruct Hx as [Hx | [<- | []]]; [|assumption]. apply filter_In in Hx. apply Hx. }
    repeat split.
    + pose proof (sumQ_filter_orb _ Service.requiredCPU
                    (fun s => includesId (Node.services n) (Service.id s))
                    (fun s => includesId (definedIds bundle) (Service.id s)) all HposC) as H1.
      pose proof (listed_weight all w bundle Huniq Hbundle Service.requiredCPU HposC) as H2.
      pose proof (sumQ_incl_le _ Service.requiredCPU bundle Hnodup adjusted Hadj
                    (Hadjpos _ HposC)) as H3.
      unfold getServicesInNode in Hc. cbv beta in H1. lra.
    + pose proof (sumQ_filter_orb _ Service.requiredMemory
                    (fun s => includesId (Node.services n) (Service.id s))
                    (fun s => includesId (definedIds bundle) (Service.id s)) all HposM) as H1.
      pose proof (listed_weight all w bundle Huniq Hbundle Service.requiredMemory HposM) as H2.
      pose proof (sumQ_incl_le _ Service.requiredMemory bundle Hnodup adjusted Hadj
                    (Hadjpos _ HposM)) as H3.
      unfold getServicesInNode in Hmem. cbv beta in H1. lra.
    + pose proof (length_filter_orb _
                    (fun s => includesId (Node.services n) (Service.id s))
                    (fun s => includesId (definedIds bundle) (Service.id s)) isCephOSD all) as H1.
      pose proof (listed_disks all w bundle Huniq Hbundle) as H2.
      pose proof (length_filter_incl_le _ isCephOSD bundle adjusted Hnodup Hadj) as H3.
      unfold getServicesInNode in Hd. cbv beta in H1. lia.
  - (* the bundle goes to a new node created from [m] *)
    intros n' Hn'. apply in_app_or in Hn'. destruct Hn' as [Hn' | [<- | []]]; [now apply Hcap|].
    destruct Hm as (first & rest & owner & Hfirst & Hfind & Hpick).
    assert (owner = w).
    { simpl in Hfind. destruct (includesId _ _) in Hfind; congruence. }
    subst owner.
    destruct (Hms w Hw) as (m' & Hpick' & Hretained).
    assert (m' = m) by congruence. subst m'.
    pose proof (isWorkloadSchedulable_fits _ _ _ _ _ _ Hretained _ Hvalidated) as Hfits.
    apply areServicesSchedulable_true in Hfits. destruct Hfits as (Hc & Hmem & Hd).
    apply getNode_inr in Hnode.
    destruct Hnode as (m0 & [= <-] & _ & _ & _ & _ & _ & _ & Hcpu & Hmemory & Hdisks & _).
    unfold capacityRespected, getServicesInNode. simpl. rewrite Hcpu, Hmemory, Hdisks.
    set (group := cand :: lookupServices _ _) in *.
    assert (Hgrouppos : forall f : Service.t -> Q,
              (forall s, In s all -> (0 <= f s)%Q) ->
              forall x, In x group -> (0 <= f x)%Q).
    { intros f Hf x Hx. apply Hf. destruct Hx as [<- | Hx]; [assumption|].
      unfold lookupServices in Hx. apply in_flat_map in Hx. destruct Hx as (i & _ & Hx).
      destruct (find (fun s0 => eqId (Service.id s0) (Some i)) (getWorkloadServices w all))
        as [s'|] eqn:Efind; [|destruct Hx].
      destruct Hx as [<- | []]. apply find_some in Efind. destruct Efind as [Hs' _].
      apply getWorkloadServices_In in Hs'. apply Hs'. }
    repeat split.
    + pose proof (listed_weight all w bundle Huniq Hbundle Service.requiredCPU HposC) as H2.
      pose proof (sumQ_incl_le _ Service.requiredCPU bundle Hnodup group Hgroup
                    (Hgrouppos _ HposC)) as H3.
      lra.
    + pose proof (listed_weight all w bundle Huniq Hbundle Service.requiredMemory HposM) as H2.
      pose proof (sumQ_incl_le _ Service.requiredMemory bundle Hnodup group Hgroup
                    (Hgrouppos _ HposM)) as H3.
      lra.
    + pose proof (listed_disks all w bundle Huniq Hbundle) as H2.
      pose proof (length_filter_incl_le _ isCephOSD bundle group Hnodup Hgroup) as H3.
      lia.
  - assumption.
Qed.

End CapacityOfARun.

(** C1, evaluated.  The accounting of [canNodeAddService] does not see
    that a node lists a service more than once.  One workload of A (1 core,
    zones 1), B (3 cores, zones 2), C and D (3 cores, zones 1) on an (8, 16)
    machine set, which the feasibility analysis retains and from which every
    node is created; no control-plane machine set is involved.  Both replicas
    of B land on node 2, which then lists [2; 2].  When D asks to join,
    the requests on node 2 are weighed as those of B alone, 3 cores, and D is
    admitted: node 2 ends with [2; 2; 4], that is 9 requested cores on 8. *)
Theorem node_overcommitted_by_repeated_service :
  (forall (n : Node.t) (ids : list Z) (all : list Service.t),
     getServicesInNode (Node.with_services n (ids ++ ids)) all
     = getServicesInNode (Node.with_services n ids) all)
  /\ Fixtures.placement
       (Fixtures.sizeFrom Fixtures.fresh OvercommitFixtures.replicated
          [Fixtures.machineSet "worker" 8 16])
     = inr ([(1, [1; 3]); (2, [2; 2; 4])], [Zone.mk 1 [1]; Zone.mk 2 [2]])
  /\ (exists sizing n,
        fst (Fixtures.sizeFrom Fixtures.fresh OvercommitFixtures.replicated
               [Fixtures.machineSet "worker" 8 16]) = inr sizing
        /\ services sizing = OvercommitFixtures.expanded
        /\ nodes sizing
           = [Node.with_services (Fixtures.workerNode 1) [1; 3]; n]
        /\ n = Node.with_services OvercommitFixtures.node2 [2; 2; 4]
        /\ map Service.name (servicesPlaced n (services sizing)) = ["B"; "B"; "D"]%string
        /\ (sumQ Service.requiredCPU (servicesPlaced n (services sizing)) == 9)%Q
        /\ (Node.cpuUnits n == 8)%Q
        /\ (Node.cpuUnits n
            < sumQ Service.requiredCPU (servicesPlaced n (services sizing))
              + kubeletCPU_model (Node.cpuUnits n))%Q)
  /\ map Service.name (getServicesInNode OvercommitFixtures.node2 OvercommitFixtures.expanded)
     = ["B"%string]
  /\ canNodeAddService toLowerCase_ascii kubeletCPU_model kubeletMemory_model
       OvercommitFixtures.node2 (OvercommitFixtures.service 4 "D" 3 4 1)
       OvercommitFixtures.expanded [OvercommitFixtures.owner]
       [Fixtures.machineSet "worker" 8 16]
     = true
  /\ noControlPlaneShortcut toLowerCase_ascii [Fixtures.machineSet "worker" 8 16]
       OvercommitFixtures.expanded
  /\ createsValidatedNodes kubeletCPU_model kubeletMemory_model
       [Fixtures.machineSet "worker" 8 16] OvercommitFixtures.expanded
       OvercommitFixtures.owner.
Proof.
  split.
  { intros n ids all. unfold getServicesInNode. apply filter_ext. intros s. simpl.
    rewrite includesId_app. apply orb_diag. }
  split; [vm_compute; reflexivity|].
  split.
  { eexists. eexists. split; [vm_compute; reflexivity|].
    split; [reflexivity|]. split; [reflexivity|]. split; [reflexivity|].
    split; [reflexivity|]. repeat split; vm_compute; reflexivity. }
  split; [reflexivity|]. split; [vm_compute; reflexivity|]. split.
  - intros m s Hm _. simpl in Hm. destruct Hm as [<- | []]. reflexivity.
  - exists (Fixtures.machineSet "worker" 8 16). split; [reflexivity|].
    vm_compute. left. reflexivity.
Qed.

(** ** What the scheduler does with a bundle *)

Lemma placedInTurn_app (b1 b2 : list (list Service.t)) (nodes between nodes' : list Node.t) :
  placedInTurn b1 nodes between -> placedInTurn b2 between nodes' ->
  placedInTurn (b1 ++ b2) nodes nodes'.
Proof.
  revert nodes. induction b1 as [|b b1 IH]; intros nodes H1 H2; simpl in *.
  - now subst.
  - destruct H1 as (mid & Hb & H1). exists mid. split; [assumption|]. now apply IH.
Qed.

(** The [k]-th bundle is formed around a service that no earlier bundle
    contains. *)
Lemma bundlesFormed_inv (serviceObjects : list Service.t) (l : list Service.t) :
  forall (scheduled : list Z) (before : list (list Service.t)) (bundle : list Service.t)
         (after : list (list Service.t)),
    bundlesFormed serviceObjects scheduled l = before ++ bundle :: after ->
    exists candidate,
      In candidate l
      /\ unscheduled (scheduled ++ flat_map definedIds before) candidate = true
      /\ bundle = bundleOf serviceObjects (scheduled ++ flat_map definedIds before) candidate.
Proof.
  induction l as [|x l IH]; intros scheduled before bundle after H; simpl in H.
  - destruct before; discriminate H.
  - destruct (unscheduled scheduled x) eqn:Ex.
    + destruct before as [|b0 before]; simpl in H; inversion H; subst.
      * exists x. simpl. rewrite app_nil_r. auto.
      * match goal with Hrest : bundlesFormed _ _ _ = _ |- _ =>
          destruct (IH _ _ _ _ Hrest) as (cand & Hin & Hun & Hb) end.
        exists cand. simpl. rewrite app_assoc. auto.
    + destruct (IH _ _ _ _ H) as (cand & Hin & Hun & Hb). exists cand.
      split; [now right | auto].
Qed.

(** Every id of [l] is scheduled already or is listed by one of the bundles
    formed. *)
Lemma bundlesFormed_cover (serviceObjects : list Service.t) (l : list Service.t) :
  forall (scheduled : list Z) (s : Service.t) (i : Z),
    In s l -> Service.id s = Some i ->
    In i scheduled
    \/ exists bundle,
         In bundle (bundlesFormed serviceObjects scheduled l) /\ In i (definedIds bundle).
Proof.
  induction l as [|x l IH]; intros scheduled s i Hs Hid; [contradiction|].
  simpl. destruct (unscheduled scheduled x) eqn:Ex.
  - destruct Hs as [-> | Hs].
    + right. eexists. split; [left; reflexivity|].
      unfold bundleOf, getCoplacedServices. simpl. rewrite Hid. now left.
    + destruct (IH (scheduled ++ definedIds (bundleOf serviceObjects scheduled x)) s i Hs Hid)
        as [Hin | (b & Hb & Hi)].
      * apply in_app_or in Hin. destruct Hin as [Hin | Hin]; [now left|].
        right. eexists. split; [left; reflexivity | exact Hin].
      * right. exists b. split; [now right | exact Hi].
  - destruct Hs as [-> | Hs].
    + left. unfold unscheduled in Ex. rewrite Hid in Ex.
      apply negb_false_iff in Ex. now apply includesZ_In.
    + destruct (IH scheduled s i Hs Hid) as [Hin | (b & Hb & Hi)]; [now left|].
      right. exists b. auto.
Qed.

Section BundlePlacement.
Variable toLowerCase : string -> string.
Variables kubeletCPU kubeletMemory : Q -> Q.

(** Every replica of an owned bundle is a placement of the whole bundle on
    one node. *)
Lemma placeReplica_placedOnOneNode (w : Workload.t) (services : list Service.t)
  (machineSets : list MachineSet.t) (first : Service.t) (rest : list Service.t)
  (st st' : SchedulerState) (c c' : Counters) :
  includesId (Workload.services w) (Service.id first) = true ->
  placeReplica toLowerCase kubeletCPU kubeletMemory w services machineSets (first :: rest) st c
  = (inr st', c') ->
  placedOnOneNode (first :: rest) (st_nodes st) (st_nodes st').
Proof.
  intros Hown Hrun. apply placeReplica_inr in Hrun.
  destruct Hrun as (zone & zone' & used & _ & Hadd & _ & _).
  apply addServiceToZone_inr in Hadd.
  destruct Hadd as [Hex | [Hnew | Hnone]].
  - destruct Hex as (nodeToRun & pre & n & post & _ & _ & _ & Hnodes & _ & _ & Hnodes' & _).
    left. exists pre, n, post. auto.
  - destruct Hnew as (f & r & owner & fresh & _ & _ & _ & Hnodes' & _).
    right. exists (Node.with_services fresh (definedIds (first :: rest))). auto.
  - destruct Hnone as (f & r & Hb & Hfind & _). inversion Hb; subst f r.
    simpl in Hfind. rewrite Hown in Hfind. discriminate Hfind.
Qed.

Lemma timesM_placedInTurn (w : Workload.t) (services : list Service.t)
  (machineSets : list MachineSet.t) (first : Service.t) (rest : list Service.t) (n : nat) :
  includesId (Workload.services w) (Service.id first) = true ->
  forall (st st' : SchedulerState) (c c' : Counters),
    timesM n (placeReplica toLowerCase kubeletCPU kubeletMemory w services machineSets
                (first :: rest)) st c = (inr st', c') ->
    placedInTurn (repeat (first :: rest) n) (st_nodes st) (st_nodes st').
Proof.
  intros Hown. induction n as [|n IH]; intros st st' c c' Hrun; simpl in Hrun.
  - apply ret_inr in Hrun. destruct Hrun as [-> _]. reflexivity.
  - apply bind_inr in Hrun. destruct Hrun as (mid & c1 & Hstep & Hrest).
    simpl. exists (st_nodes mid). split.
    + exact (placeReplica_placedOnOneNode _ _ _ _ _ _ _ _ _ Hown Hstep).
    + exact (IH _ _ _ _ Hrest).
Qed.

Lemma forEachM_placedInTurn (w : Workload.t) (services : list Service.t)
  (machineSets : list MachineSet.t) (serviceObjects : list Service.t) (l : list Service.t) :
  (forall x, In x l -> includesId (Workload.services w) (Service.id x) = true) ->
  forall (st st' : SchedulerState) (scheduled scheduled' : list Z) (c c' : Counters),
    forEachM (scheduleService toLowerCase kubeletCPU kubeletMemory w services machineSets
                serviceObjects) l (st, scheduled) c = (inr (st', scheduled'), c') ->
    placedInTurn
      (flat_map (fun bundle => repeat bundle (Z.to_nat (getMaxZones bundle)))
         (bundlesFormed serviceObjects scheduled l))
      (st_nodes st) (st_nodes st').
Proof.
  induction l as [|x l IH]; intros Hown st st' scheduled scheduled' c c' Hrun; simpl in Hrun.
  - apply ret_inr in Hrun. destruct Hrun as [Heq _]. inversion Heq. reflexivity.
  - apply bind_inr in Hrun. destruct Hrun as ([st1 sch1] & c1 & Hstep & Hrest).
    apply scheduleService_inr in Hstep. destruct Hstep as [Hsch Hplace].
    unfold scheduledStep in Hsch. simpl.
    destruct (unscheduled scheduled x) eqn:Ex.
    + simpl. apply placedInTurn_app with (between := st_nodes st1).
      * unfold bundleOf, getCoplacedServices in Hplace |- *.
        apply (timesM_placedInTurn w services machineSets x _ _
                 (Hown x (or_introl eq_refl)) _ _ _ _ Hplace).
      * subst sch1. apply (IH (fun y Hy => Hown y (or_intror Hy)) _ _ _ _ _ _ Hrest).
    + destruct Hplace as [-> ->]. subst sch1.
      apply (IH (fun y Hy => Hown y (or_intror Hy)) _ _ _ _ _ _ Hrest).
Qed.

(** C2, as the code has it.  While it schedules a workload, the scheduler
    forms one bundle around each service of the workload that no earlier
    bundle contains: the service itself, followed by the services of the
    workload, in their order, that the service lists in [runsWith] (one hop,
    in the direction of that service only), that are not the service itself,
    and that no earlier bundle contains.  Every id of the workload is listed
    by one of these bundles.  And the nodes it returns are the nodes it was
    given after the placements of these bundles, in turn and once per replica
    of each, where a placement appends the ids of the whole bundle to the
    service list of a single node, an existing one or a new one. *)
Theorem workloadScheduler_places_direct_runsWith_bundles
  (w : Workload.t) (services : list Service.t) (machineSets : list MachineSet.t)
  (zones : list Zone.t) (nodes : list Node.t) (used : list Z)
  (c c' : Counters) (st' : SchedulerState) :
  workloadScheduler toLowerCase kubeletCPU kubeletMemory w services machineSets
    zones nodes used c = (inr st', c') ->
  let serviceObjects := getWorkloadServices w services in
  let bundles := bundlesFormed serviceObjects [] serviceObjects in
  (forall before bundle after,
     bundles = before ++ bundle :: after ->
     exists candidate,
       In candidate serviceObjects
       /\ unscheduled (flat_map definedIds before) candidate = true
       /\ bundle
          = candidate ::
            filter (fun s => includesId (Service.runsWith candidate) (Service.id s)
                             && negb (eqId (Service.id s) (Service.id candidate)))
              (filter (unscheduled (flat_map definedIds before)) serviceObjects))
  /\ (forall s i, In s serviceObjects -> Service.id s = Some i ->
        exists bundle, In bundle bundles /\ In i (definedIds bundle))
  /\ placedInTurn
       (flat_map (fun bundle => repeat bundle (Z.to_nat (getMaxZones bundle))) bundles)
       nodes (st_nodes st').
Proof.
  intros Hrun serviceObjects bundles. split; [|split].
  - intros before bundle after Hsplit.
    destruct (bundlesFormed_inv _ _ _ _ _ _ Hsplit) as (cand & Hin & Hun & Hb).
    exists cand. simpl in Hun, Hb. auto.
  - intros s i Hs Hid.
    destruct (bundlesFormed_cover serviceObjects serviceObjects [] s i Hs Hid)
      as [[] | Hex]. exact Hex.
  - unfold workloadScheduler in Hrun. run_M Hrun.
    destruct a0 as [st sch]. run_M Hrun.
    match goal with
    | H : forEachM _ _ _ _ = _ |- _ =>
        apply forEachM_placedInTurn in H; [exact H|]
    end.
    intros x Hx. apply getWorkloadServices_In in Hx.
    destruct Hx as (_ & i & Hid & Hi). rewrite Hid. simpl. now apply includesZ_In.
Qed.

End BundlePlacement.

(** ** Replicas *)

Lemma placements_app (i : Z) (l1 l2 : list Node.t) :
  placements i (l1 ++ l2) = (placements i l1 + placements i l2)%nat.
Proof. unfold placements. now rewrite flat_map_app, count_occ_app. Qed.

Lemma placements_cons (i : Z) (n : Node.t) (l : list Node.t) :
  placements i (n :: l) = (count_occ Z.eq_dec (Node.services n) i + placements i l)%nat.
Proof. unfold placements. simpl. now rewrite count_occ_app. Qed.

Lemma In_sortBestZones (kubeletCPU kubeletMemory : Q -> Q)
  (zones : list Zone.t) (nodes : list Node.t) (all bundle : list Service.t) (z : Zone.t) :
  In z (sortBestZones kubeletCPU kubeletMemory zones nodes all bundle) -> In z zones.
Proof.
  unfold sortBestZones. intros H. apply in_map_iff in H.
  destruct H as ([z' k] & <- & H). apply In_sortBy in H. apply in_flat_map in H.
  destruct H as (z0 & Hz0 & H). destruct (0 <? _); [|contradiction].
  destruct H as [[= <- _] | []]. assumption.
Qed.

Lemma pop_In (A : Type) (l : list A) (x : A) : pop l = Some x -> In x l.
Proof.
  unfold pop. intros H. apply in_rev. destruct (rev l); [discriminate|].
  inversion H. now left.
Qed.

Section Replicas.
Variable toLowerCase : string -> string.
Variables kubeletCPU kubeletMemory : Q -> Q.

(** A placement of an owned bundle lists each of its ids once more. *)
Lemma addServiceToZone_placements
  (zone : Zone.t) (nodes : list Node.t) (services : list Service.t)
  (first : Service.t) (rest : list Service.t) (w : Workload.t)
  (machineSets : list MachineSet.t) (c c' : Counters)
  (nodes' : list Node.t) (zone' : Zone.t) :
  includesId (Workload.services w) (Service.id first) = true ->
  addServiceToZone toLowerCase kubeletCPU kubeletMemory zone nodes services (first :: rest) [w]
    machineSets c = (inr (nodes', zone'), c') ->
  forall i, placements i nodes'
            = (placements i nodes + count_occ Z.eq_dec (definedIds (first :: rest)) i)%nat.
Proof.
  intros Hown Hrun i. apply addServiceToZone_inr in Hrun.
  remember (definedIds (first :: rest)) as ids eqn:Eids. clear Eids.
  destruct Hrun as [Hex | [Hnew | Hnone]].
  - destruct Hex as (nodeToRun & pre & n & post & _ & _ & _ & -> & _ & _ & -> & _).
    rewrite !placements_app, !placements_cons. simpl Node.services.
    rewrite count_occ_app. lia.
  - destruct Hnew as (f & r & owner & fresh & _ & _ & Hnode & -> & _).
    rewrite placements_app, placements_cons. simpl Node.services.
    change (placements i []) with 0%nat. lia.
  - destruct Hnone as (f & r & [= <- <-] & Hfind & _).
    simpl in Hfind. rewrite Hown in Hfind. discriminate.
Qed.

(** A replica goes to a zone outside the used set whenever there is one. *)
Lemma chooseZone_prefers_unused (services bundle : list Service.t) (st : SchedulerState) :
  (exists z0, In z0 (st_zones st) /\ ~ In (Zone.id z0) (st_usedZonesId st)) ->
  exists z,
    chooseZone kubeletCPU kubeletMemory services bundle st
    = (Some z, st_usedZonesId st ++ [Zone.id z])
    /\ In z (st_zones st)
    /\ ~ In (Zone.id z) (st_usedZonesId st).
Proof.
  intros (z0 & Hz0 & Hunused). unfold chooseZone.
  destruct (pop _) as [z|] eqn:Epop.
  - exists z. split; [reflexivity|].
    apply pop_In, In_sortBestZones, filter_In in Epop. destruct Epop as [Hz Hun].
    split; [assumption|]. now apply negb_true_iff, includesZ_false in Hun.
  - destruct (find _ (st_zones st)) as [z|] eqn:Efind.
    + exists z. split; [reflexivity|]. apply find_some in Efind. destruct Efind as [Hz Hun].
      split; [assumption|]. now apply negb_true_iff, includesZ_false in Hun.
    + exfalso. apply (find_none _ _ Efind) in Hz0.
      apply negb_false_iff, includesZ_In in Hz0. contradiction.
Qed.

(** When every zone is in the used set, the set is reset and the replica
    goes to the first zone in decreasing order of id. *)
Lemma chooseZone_reset (services bundle : list Service.t) (st : SchedulerState) :
  (forall z0, In z0 (st_zones st) -> In (Zone.id z0) (st_usedZonesId st)) ->
  chooseZone kubeletCPU kubeletMemory services bundle st
  = match hd_error (sortBy (fun a b => Zone.id b - Zone.id a <? 0) (st_zones st)) with
    | Some z => (Some z, [Zone.id z])
    | None => (None, [])
    end.
Proof.
  intros Hall. unfold chooseZone.
  assert (Hfiltered :
    filter (fun z => negb (includesZ (st_usedZonesId st) (Zone.id z))) (st_zones st) = []).
  { induction (st_zones st) as [|z l IH]; [reflexivity|]. simpl.
    assert (Hz : includesZ (st_usedZonesId st) (Zone.id z) = true)
      by (apply includesZ_In, Hall; now left).
    rewrite Hz. simpl. apply IH. intros z0 Hz0. apply Hall. now right. }
  rewrite Hfiltered. simpl.
  destruct (find _ (st_zones st)) as [z|] eqn:Efind; [|reflexivity].
  apply find_some in Efind. destruct Efind as [Hz Hun].
  apply negb_true_iff, includesZ_false in Hun. exfalso. apply Hun. now apply Hall.
Qed.

End Replicas.

(** C4, evaluated.  One workload of A (zones 1) and B (zones 2) on an (8, 16)
    machine set.  The scheduler creates zones 1 and 2 and places A on node 1
    of zone 1, which puts zone 1 in the used set; the set is not cleared when
    the scheduler turns to B.  The first replica of B goes to zone 2, the only
    zone outside the used set, on a new node 2.  For the second replica every
    zone is in the used set: the set is reset and the replica goes to the zone
    of highest id, zone 2 again, where node 2 admits it.  Both replicas of B
    sit on node 2 of zone 2, and zone 1 hosts none. *)
Theorem both_replicas_land_in_one_zone :
  Fixtures.placement
    (Fixtures.sizeFrom Fixtures.fresh ReplicaFixtures.oneThenTwo
       [Fixtures.machineSet "worker" 8 16])
  = inr ([(1, [1]); (2, [2; 2])], [Zone.mk 1 [1]; Zone.mk 2 [2]])
  /\ (exists sizing,
        fst (Fixtures.sizeFrom Fixtures.fresh ReplicaFixtures.oneThenTwo
               [Fixtures.machineSet "worker" 8 16]) = inr sizing
        /\ map (fun s => (Service.id s, Service.zones s)) (services sizing)
           = [(Some 1, 1); (Some 2, 2)]
        /\ zonesHosting 2 (zoneDetails sizing) (nodes sizing) = [2])
  /\ placeReplica toLowerCase_ascii kubeletCPU_model kubeletMemory_model
       ReplicaFixtures.owner [ReplicaFixtures.serviceA; ReplicaFixtures.serviceB]
       [Fixtures.machineSet "worker" 8 16] [ReplicaFixtures.serviceB]
       ReplicaFixtures.afterA (mkCounters 2 1 1 2)
     = (inr ReplicaFixtures.afterFirstB, mkCounters 2 2 1 2)
  /\ chooseZone kubeletCPU_model kubeletMemory_model
       [ReplicaFixtures.serviceA; ReplicaFixtures.serviceB] [ReplicaFixtures.serviceB]
       ReplicaFixtures.afterFirstB
     = (Some (Zone.mk 2 [2]), [2])
  /\ placeReplica toLowerCase_ascii kubeletCPU_model kubeletMemory_model
       ReplicaFixtures.owner [ReplicaFixtures.serviceA; ReplicaFixtures.serviceB]
       [Fixtures.machineSet "worker" 8 16] [ReplicaFixtures.serviceB]
       ReplicaFixtures.afterFirstB (mkCounters 2 2 1 2)
     = (inr ReplicaFixtures.afterSecondB, mkCounters 2 2 1 2).
Proof.
  split; [vm_compute; reflexivity|].
  split; [eexists; split; [vm_compute; reflexivity | split; reflexivity]|].
  repeat split; vm_compute; reflexivity.
Qed.

(** ** Renumbering *)

Lemma find_map (A B : Type) (f : A -> B) (p : A -> bool) (q : B -> bool) (l : list A) :
  (forall x, q (f x) = p x) -> find q (map f l) = option_map f (find p l).
Proof.
  intros H. induction l as [|x l IH]; simpl; [reflexivity|].
  rewrite H. destruct (p x); [reflexivity | exact IH].
Qed.


Lemma existsb_map (A B : Type) (f : A -> B) (p : A -> bool) (q : B -> bool) (l : list A) :
  (forall x, q (f x) = p x) -> existsb q (map f l) = existsb p l.
Proof.
  intros H. induction l as [|x l IH]; simpl; [reflexivity|]. now rewrite H, IH.
Qed.





Lemma pop_map (A B : Type) (f : A -> B) (l : list A) :
  pop (map f l) = option_map f (pop l).
Proof. unfold pop. rewrite <- map_rev. now destruct (rev l). Qed.








Lemma isControlPlaneService_shift (toLowerCase : string -> string) (d : Shift) (s : Service.t) :
  isControlPlaneService toLowerCase (shiftService d s) = isControlPlaneService toLowerCase s.
Proof. reflexivity. Qed.







Section RenumberedAdmission.
Variable toLowerCase : string -> string.
Variables kubeletCPU kubeletMemory : Q -> Q.
Variable d : Shift.

Lemma canNodeSupportRequirements_shift (req cur : ResourceRequirement) (n : Node.t) :
  canNodeSupportRequirements kubeletCPU kubeletMemory req cur (shiftNode d n)
  = canNodeSupportRequirements kubeletCPU kubeletMemory req cur n.
Proof. reflexivity. Qed.





End RenumberedAdmission.

(** *** Renumbered computations *)












Section RenumberedPlacement.
Variable toLowerCase : string -> string.
Variables kubeletCPU kubeletMemory : Q -> Q.
Variable d : Shift.






End RenumberedPlacement.

(** *** Renumbered expansion and feasibility *)










Section RenumberedFeasibility.
Variables kubeletCPU kubeletMemory : Q -> Q.
Variable d : Shift.






End RenumberedFeasibility.

(** *** Renumbered runs *)



Section RenumberedRun.
Variable toLowerCase : string -> string.
Variables kubeletCPU kubeletMemory : Q -> Q.
Variable catalog : Platform -> Instance.t.



End RenumberedRun.

(** * Further properties of the code *)

(** ** Pruning ([lib/src/scheduler], [pruneNodes]) *)

Lemma length_zero_iff_nil (A : Type) (l : list A) :
  (Z.of_nat (List.length l) =? 0) = true <-> l = [].
Proof.
  destruct l; simpl; split; intros H; try reflexivity; discriminate.
Qed.

Lemma filter_nil_iff (A : Type) (p : A -> bool) (l : list A) :
  filter p l = [] <-> forall x, In x l -> p x = false.
Proof.
  induction l as [|x l IH]; simpl.
  - split; [intros _ y [] | reflexivity].
  - destruct (p x) eqn:E; split.
    + discriminate.
    + intros H. specialize (H x (or_introl eq_refl)). congruence.
    + intros H y [<- | Hy]; [assumption | now apply IH].
    + intros H. apply IH. intros y Hy. apply H. now right.
Qed.

Lemma filter_id (A : Type) (p : A -> bool) (l : list A) :
  (forall x, In x l -> p x = true) -> filter p l = l.
Proof.
  induction l as [|x l IH]; intros H; simpl; [reflexivity|].
  rewrite (H x (or_introl eq_refl)). f_equal. apply IH. intros y Hy. apply H. now right.
Qed.

(** The nodes [pruneNodes] keeps. *)
Lemma In_pruneNodes (nodes : list Node.t) (zones : list Zone.t) (n : Node.t) :
  In n (fst (pruneNodes nodes zones)) <->
  In n nodes
  /\ forall e, In e nodes -> Node.services e = [] -> Node.id e <> Node.id n.
Proof.
  unfold pruneNodes.
  set (empty := fun node : Node.t => Z.of_nat (List.length (Node.services node)) =? 0).
  destruct (Z.of_nat (List.length (filter empty nodes)) =? 0) eqn:E; simpl.
  - apply length_zero_iff_nil in E. split.
    + intros Hn. split; [assumption|]. intros e He Hempty.
      exfalso. assert (Hp : empty e = false) by (exact (proj1 (filter_nil_iff _ _ _) E e He)).
      unfold empty in Hp. rewrite Hempty in Hp. discriminate.
    + now intros [Hn _].
  - rewrite filter_In, negb_true_iff, includesZ_false, in_map_iff. split.
    + intros [Hn Hnot]. split; [assumption|]. intros e He Hempty Heq.
      apply Hnot. exists e. split; [assumption|]. apply filter_In. split; [assumption|].
      unfold empty. now rewrite Hempty.
    + intros [Hn Hall]. split; [assumption|]. intros (e & Heq & He).
      apply filter_In in He. destruct He as [He Hempty].
      apply length_zero_iff_nil in Hempty. now apply (Hall e He Hempty).
Qed.

Lemma pruneNodes_kept_nonempty (nodes : list Node.t) (zones : list Zone.t) (n : Node.t) :
  In n (fst (pruneNodes nodes zones)) -> Node.services n <> [].
Proof.
  intros H. apply In_pruneNodes in H. destruct H as [Hn Hall]. intros Hempty.
  now apply (Hall n Hn Hempty).
Qed.

Lemma pruneNodes_noop (nodes : list Node.t) (zones : list Zone.t) :
  (forall n, In n nodes -> Node.services n <> []) ->
  pruneNodes nodes zones = (nodes, zones).
Proof.
  intros H. unfold pruneNodes.
  replace (filter _ nodes) with (@nil Node.t); [reflexivity|].
  symmetry. apply filter_nil_iff. intros n Hn.
  destruct (Z.of_nat (List.length (Node.services n)) =? 0) eqn:E; [|reflexivity].
  apply length_zero_iff_nil in E. now apply H in Hn.
Qed.

(** X1.  Pruning twice is pruning once: after [pruneNodes] no node is without
    services, so a second call returns its arguments. *)
Theorem pruneNodes_idempotent (nodes : list Node.t) (zones : list Zone.t) :
  pruneNodes (fst (pruneNodes nodes zones)) (snd (pruneNodes nodes zones))
  = pruneNodes nodes zones.
Proof.
  rewrite pruneNodes_noop.
  - now destruct (pruneNodes nodes zones).
  - intros n. apply pruneNodes_kept_nonempty.
Qed.

(** X2.  [pruneNodes] keeps exactly the nodes whose id is not the id of a
    node without services: a node that has services is dropped too when it
    shares its id with an empty node. *)
Theorem pruneNodes_keeps_nodes_without_empty_namesake
  (nodes : list Node.t) (zones : list Zone.t) (n : Node.t) :
  In n (fst (pruneNodes nodes zones)) <->
  In n nodes
  /\ forall e, In e nodes -> Node.services e = [] -> Node.id e <> Node.id n.
Proof. apply In_pruneNodes. Qed.

(** X3.  The zones [pruneNodes] returns.  When some node has no service, the
    zones kept are those that list the id of a kept node, and they are
    returned as they were (the ids of pruned nodes stay in their lists).
    When every node has a service, the zones are returned unchanged, zones
    without nodes included. *)
Theorem pruneNodes_zones (nodes : list Node.t) (zones : list Zone.t) :
  if existsb (fun n => match Node.services n with [] => true | _ :: _ => false end) nodes
  then forall z,
         In z (snd (pruneNodes nodes zones)) <->
         In z zones
         /\ exists n, In n (fst (pruneNodes nodes zones)) /\ In (Node.id n) (Zone.nodes z)
  else pruneNodes nodes zones = (nodes, zones).
Proof.
  destruct (existsb _ nodes) eqn:E.
  - apply existsb_exists in E. destruct E as (e & He & Hempty).
    assert (Hnil : Node.services e = []) by (destruct (Node.services e); [reflexivity | discriminate]).
    intros z. unfold pruneNodes.
    set (empty := fun node : Node.t => Z.of_nat (List.length (Node.services node)) =? 0).
    destruct (Z.of_nat (List.length (filter empty nodes)) =? 0) eqn:El.
    + exfalso. apply length_zero_iff_nil in El.
      assert (Hp : empty e = false) by (exact (proj1 (filter_nil_iff _ _ _) El e He)).
      unfold empty in Hp. rewrite Hnil in Hp. discriminate.
    + simpl. rewrite filter_In, negb_true_iff. split.
      * intros [Hz Hsome]. split; [assumption|].
        destruct (forallb _ (Zone.nodes z)) eqn:Ef; [discriminate|]. clear Hsome.
        assert (Hex : exists i, In i (Zone.nodes z)
                  /\ includesZ (map Node.id
                       (filter (fun node => negb (includesZ (map Node.id (filter empty nodes))
                                                    (Node.id node))) nodes)) i = true).
        { induction (Zone.nodes z) as [|i l IH]; simpl in Ef; [discriminate|].
          destruct (includesZ _ i) eqn:Ei.
          - exists i. split; [now left | assumption].
          - simpl in Ef. destruct (IH Ef) as (j & Hj & Hjin). exists j. split; [now right | assumption]. }
        destruct Hex as (i & Hi & Hin). apply includesZ_In, in_map_iff in Hin.
        destruct Hin as (n & <- & Hn). now exists n.
      * intros [Hz (n & Hn & Hin)]. split; [assumption|].
        apply not_true_is_false. intros Hall. rewrite forallb_forall in Hall.
        specialize (Hall _ Hin). apply negb_true_iff, includesZ_false in Hall.
        apply Hall. now apply in_map.
  - apply pruneNodes_noop. intros n Hn Hnil.
    assert (existsb (fun n => match Node.services n with [] => true | _ :: _ => false end) nodes
            = true); [|congruence].
    apply existsb_exists. exists n. split; [assumption|]. now rewrite Hnil.
Qed.

(** ** Descriptors ([lib/src/utils/workload.ts]) *)

Lemma combine_fst_snd (A B : Type) (l : list (A * B)) :
  combine (map fst l) (map snd l) = l.
Proof.
  induction l as [|[a b] l IH]; simpl; [reflexivity|]. now rewrite IH.
Qed.

Lemma getWorkloadFromDescriptors_run (d : WorkloadDescriptor.t) (c : Counters) :
  exists sds,
    map fst sds = consecutive (serviceIdCounter c) (List.length (WorkloadDescriptor.services d))
    /\ map snd sds = WorkloadDescriptor.services d
    /\ getWorkloadFromDescriptors d c
       = (inr (map (serviceOfDescriptor sds) sds,
               {| Workload.id := Some (workloadIdCounter c + 1);
                  Workload.name := WorkloadDescriptor.name d;
                  Workload.count := WorkloadDescriptor.count d;
                  Workload.usesMachines := WorkloadDescriptor.usesMachines d;
                  Workload.services := map fst sds;
                  Workload.allowControlPlane := WorkloadDescriptor.allowControlPlane d;
                  Workload.requireControlPlane := WorkloadDescriptor.requireControlPlane d |}),
          mkCounters (zoneIdCounter c) (nodeIdCounter c) (workloadIdCounter c + 1)
            (serviceIdCounter c + Z.of_nat (List.length (WorkloadDescriptor.services d)))).
Proof.
  destruct (assignServiceIds_total (WorkloadDescriptor.services d) c) as (sds & c1 & Hsds).
  destruct (assignServiceIds_inr _ _ _ _ Hsds) as (Hfst & Hsnd & ->).
  exists sds. split; [assumption|]. split; [assumption|].
  unfold getWorkloadFromDescriptors, bind. rewrite Hsds. reflexivity.
Qed.

(** X4.  [getWorkloadFromDescriptors] never fails.  It draws one service id
    per service, in input order, and then one workload id; the services keep
    their names, the workload lists exactly the ids drawn, and the zone and
    node counters are left alone. *)
Theorem getWorkloadFromDescriptors_draws_fresh_ids (d : WorkloadDescriptor.t) (c : Counters) :
  let n := List.length (WorkloadDescriptor.services d) in
  exists svcs w,
    getWorkloadFromDescriptors d c
    = (inr (svcs, w),
       mkCounters (zoneIdCounter c) (nodeIdCounter c) (workloadIdCounter c + 1)
         (serviceIdCounter c + Z.of_nat n))
    /\ map Service.id svcs = map Some (consecutive (serviceIdCounter c) n)
    /\ map Service.name svcs = map ServiceDescriptor.name (WorkloadDescriptor.services d)
    /\ Workload.services w = consecutive (serviceIdCounter c) n
    /\ Workload.id w = Some (workloadIdCounter c + 1).
Proof.
  intros n. subst n.
  destruct (getWorkloadFromDescriptors_run d c) as (sds & Hfst & Hsnd & Hrun).
  eexists _, _. split; [exact Hrun|]. simpl. repeat split.
  - rewrite map_map. simpl. rewrite <- Hfst. now rewrite map_map.
  - rewrite map_map. simpl. rewrite <- Hsnd. now rewrite map_map.
  - exact Hfst.
Qed.

Lemma resolveNames_incl (sds : list (Z * ServiceDescriptor.t)) (names : list string) :
  incl (resolveNames sds names) (map fst sds).
Proof.
  intros i Hi. unfold resolveNames in Hi. apply in_flat_map in Hi.
  destruct Hi as (name & _ & Hi).
  destruct (find _ sds) as [so|] eqn:E; [|contradiction].
  destruct Hi as [<- | []]. apply find_some in E. apply in_map. apply E.
Qed.

Lemma resolveNames_idsOfNames (sds : list (Z * ServiceDescriptor.t)) (names : list string) :
  resolveNames sds names = idsOfNames (map (serviceOfDescriptor sds) sds) names.
Proof.
  unfold resolveNames, idsOfNames. apply flat_map_ext. intros name.
  rewrite (find_map _ _ (serviceOfDescriptor sds)
             (fun so => String.eqb (ServiceDescriptor.name (snd so)) name)
             (fun s => String.eqb (Service.name s) name)) by reflexivity.
  destruct (find _ sds) as [so|]; reflexivity.
Qed.

Lemma Forall2_map_both (A B C : Type) (R : B -> C -> Prop) (f : A -> B) (g : A -> C)
  (l : list A) :
  (forall x, In x l -> R (f x) (g x)) -> Forall2 R (map f l) (map g l).
Proof.
  induction l as [|x l IH]; intros H; simpl; constructor.
  - apply H. now left.
  - apply IH. intros y Hy. apply H. now right.
Qed.

(** X5.  The relations of a service never leave its workload.  For every
    service, [getWorkloadFromDescriptors] turns the names of [runsWith] and of
    [avoid], in order, into the id of the first service of the same
    descriptor that bears the name, and into nothing when no service of the
    descriptor bears it; so every id it lists is the id of a service of the
    same workload, and a list of names that belong to services of other
    workloads only resolves to the empty list. *)
Theorem getWorkloadFromDescriptors_resolves_inside_workload
  (d : WorkloadDescriptor.t) (c : Counters) :
  exists svcs w c',
    getWorkloadFromDescriptors d c = (inr (svcs, w), c')
    /\ Forall2 (fun sd s =>
                  Service.runsWith s = idsOfNames svcs (ServiceDescriptor.runsWith sd)
                  /\ Service.avoid s = idsOfNames svcs (ServiceDescriptor.avoid sd))
         (WorkloadDescriptor.services d) svcs
    /\ Forall (fun s => incl (Service.runsWith s) (Workload.services w)
                        /\ incl (Service.avoid s) (Workload.services w)) svcs
    /\ (forall names,
          (forall name, In name names -> knownName d name = false) ->
          idsOfNames svcs names = []).
Proof.
  destruct (getWorkloadFromDescriptors_run d c) as (sds & Hfst & Hsnd & Hrun).
  eexists _, _, _. split; [exact Hrun|]. simpl. split; [|split].
  - rewrite <- Hsnd. apply Forall2_map_both. intros p _. simpl.
    split; apply resolveNames_idsOfNames.
  - apply Forall_forall. intros s Hs. apply in_map_iff in Hs. destruct Hs as (p & <- & _).
    simpl. split; apply resolveNames_incl.
  - intros names Hunknown. rewrite <- resolveNames_idsOfNames.
    induction names as [|name names IH]; [reflexivity|].
    unfold resolveNames in *. simpl.
    rewrite IH by (intros n Hn; apply Hunknown; now right). rewrite app_nil_r.
    destruct (find _ sds) as [so|] eqn:Eso; [|reflexivity].
    apply find_some in Eso. destruct Eso as [Hso Hname].
    assert (Hk : knownName d name = true).
    { unfold knownName. apply existsb_exists. exists (snd so). split; [|exact Hname].
      rewrite <- Hsnd. now apply in_map. }
    rewrite (Hunknown name (or_introl eq_refl)) in Hk. discriminate.
Qed.

Lemma find_existsb_none (A : Type) (p : A -> bool) (l : list A) :
  find p l = None -> existsb p l = false.
Proof.
  induction l as [|x l IH]; simpl; [reflexivity|].
  destruct (p x); [discriminate | exact IH].
Qed.

(** Resolving names to ids and the ids back to names keeps the known names. *)
Lemma resolveIds_resolveNames (sds : list (Z * ServiceDescriptor.t)) (names : list string) :
  NoDup (map fst sds) ->
  resolveIds (map (serviceOfDescriptor sds) sds) (resolveNames sds names)
  = filter (fun name => existsb (fun so => String.eqb (ServiceDescriptor.name (snd so)) name) sds)
           names.
Proof.
  intros Hnd. induction names as [|name names IH]; [reflexivity|].
  unfold resolveNames, resolveIds in *. simpl. rewrite flat_map_app, IH. clear IH.
  destruct (find (fun so => String.eqb (ServiceDescriptor.name (snd so)) name) sds)
    as [so|] eqn:Eso.
  - assert (Hex : existsb (fun so => String.eqb (ServiceDescriptor.name (snd so)) name) sds = true).
    { apply existsb_exists. exists so. now apply find_some in Eso. }
    rewrite Hex. simpl. rewrite app_nil_r.
    apply find_some in Eso. destruct Eso as [Hso Hname]. apply String.eqb_eq in Hname.
    destruct (find (fun serv => eqId (Service.id serv) (Some (fst so)))
                (map (serviceOfDescriptor sds) sds)) as [serv|] eqn:Eserv.
    + apply find_some in Eserv. destruct Eserv as [Hserv Hid].
      apply in_map_iff in Hserv. destruct Hserv as (so' & <- & Hso').
      simpl in Hid. apply Z.eqb_eq in Hid.
      assert (so' = so) by (now apply (NoDup_map_eq _ _ fst sds)). subst so'.
      simpl. now rewrite Hname.
    + exfalso.
      assert (Hno := find_none _ _ Eserv (serviceOfDescriptor sds so)
                       (in_map (serviceOfDescriptor sds) _ _ Hso)).
      simpl in Hno. rewrite Z.eqb_refl in Hno. discriminate.
  - apply find_existsb_none in Eso. rewrite Eso. reflexivity.
Qed.

(** X6.  Round trip.  Turning a descriptor into a workload and its services
    and these back into a descriptor gives the descriptor again, with the ids
    that were drawn, and without the names of [runsWith] and [avoid] that no
    service of the descriptor bears. *)
Theorem descriptor_round_trip (d : WorkloadDescriptor.t) (c : Counters) :
  exists svcs w c',
    getWorkloadFromDescriptors d c = (inr (svcs, w), c')
    /\ getDescriptorFromWorkload w svcs = stamped d c.
Proof.
  destruct (getWorkloadFromDescriptors_run d c) as (sds & Hfst & Hsnd & Hrun).
  eexists _, _, _. split; [exact Hrun|].
  assert (Hnd : NoDup (map fst sds)) by (rewrite Hfst; apply NoDup_consecutive).
  unfold getDescriptorFromWorkload, stamped. simpl. f_equal.
  rewrite filter_id.
  - rewrite map_map. rewrite <- Hfst.
    rewrite <- Hsnd at 1. rewrite combine_fst_snd.
    apply map_ext_in. intros p Hp. unfold descriptorOfService, stampService. simpl.
    rewrite !resolveIds_resolveNames by assumption.
    f_equal; apply filter_ext; intros name; unfold knownName; rewrite <- Hsnd;
      symmetry; apply existsb_map; reflexivity.
  - intros s Hs. apply in_map_iff in Hs. destruct Hs as (p & <- & Hp). simpl.
    apply includesZ_In. now apply in_map.
Qed.

(** ** Disks and OSDs ([lib/src/utils/node.ts], [lib/src/utils/common.ts]) *)

Lemma str_includes_cons (needle : string) (c : ascii) (hay : string) :
  str_includes needle (String c hay)
  = if String.prefix needle (String c hay) then true else str_includes needle hay.
Proof. reflexivity. Qed.

Lemma str_includes_skip (needle : string) (c : ascii) (hay : string) :
  str_includes needle hay = true -> str_includes needle (String c hay) = true.
Proof.
  intros H. rewrite str_includes_cons.
  destruct (String.prefix needle (String c hay)); [reflexivity | exact H].
Qed.

Lemma prefix_Ceph_OSD_upper (s : string) :
  String.prefix "Ceph_OSD" s = true -> str_includes "OSD" (toUpperCase s) = true.
Proof.
  intros H.
  do 8 (destruct s as [|? s]; [discriminate H|];
        simpl in H;
        match type of H with
        | (if ?d then _ else _) = true => destruct d as [<- | _]; [|discriminate H]
        end).
  clear H.
  change (toUpperCase (String "C" (String "e" (String "p" (String "h"
            (String "_" (String "O" (String "S" (String "D" s)))))))))
    with (String "C" (String "E" (String "P" (String "H"
            (String "_" (String "O" (String "S" (String "D" (toUpperCase s))))))))).
  do 5 (rewrite str_includes_cons;
        match goal with |- (if ?b then _ else _) = true => destruct b; [reflexivity|] end).
  rewrite str_includes_cons.
  replace (String.prefix "OSD" (String "O" (String "S" (String "D" (toUpperCase s)))))
    with true; [reflexivity|].
  symmetry. apply String.prefix_correct. destruct (toUpperCase s); reflexivity.
Qed.

Lemma Ceph_OSD_is_an_OSD (s : string) :
  str_includes "Ceph_OSD" s = true -> str_includes "OSD" (toUpperCase s) = true.
Proof.
  induction s as [|c s IH]; intros H.
  - discriminate H.
  - rewrite str_includes_cons in H.
    destruct (String.prefix "Ceph_OSD" (String c s)) eqn:E.
    + now apply prefix_Ceph_OSD_upper.
    + simpl toUpperCase. apply str_includes_skip. now apply IH.
Qed.

Lemma length_filter_le (A : Type) (p q : A -> bool) (l : list A) :
  (forall x, p x = true -> q x = true) ->
  (List.length (filter p l) <= List.length (filter q l))%nat.
Proof.
  intros Hpq. induction l as [|x l IH]; simpl; [lia|].
  destruct (p x) eqn:Ep.
  - rewrite (Hpq x Ep). simpl. lia.
  - destruct (q x); simpl; lia.
Qed.

(** X7.  Every service the resource accounting counts as a disk (its name
    contains [Ceph_OSD]) is an OSD for [getOSDsInNode] (its upper-cased name
    contains [OSD]): on every node the disks counted against [maxDisks] are
    at most the OSDs reported. *)
Theorem disks_counted_are_OSDs (node : Node.t) (services : list Service.t) :
  totalDisks (getTotalResourceRequirement (getServicesInNode node services) false)
  <= getOSDsInNode node services.
Proof.
  destruct (getTotalResourceRequirement_sums (getServicesInNode node services))
    as (_ & _ & ->).
  unfold getOSDsInNode. apply inj_le. apply length_filter_le.
  intros s. unfold isCephOSD. apply Ceph_OSD_is_an_OSD.
Qed.

(** ** The two copies of the capacity test *)

Section Copies.
Variables kubeletCPU kubeletMemory : Q -> Q.

Lemma Qgtb_plus_0 (a b : Q) : Qgtb (a + 0) b = Qgtb a b.
Proof.
  unfold Qgtb. f_equal.
  destruct (Qle_bool (a + 0) b) eqn:E1, (Qle_bool a b) eqn:E2; try reflexivity.
  - apply Qle_bool_iff in E1. apply Qle_bool_false in E2. lra.
  - apply Qle_bool_iff in E2. apply Qle_bool_false in E1. lra.
Qed.

(** X8.  The copy of [canNodeSupportRequirements] in the application
    ([src/utils/common.ts]) and the copy in the library
    ([lib/src/utils/common.ts]) give the same answer on every input. *)
Theorem canNodeSupportRequirements_copies_agree
  (requirements currentUsage : ResourceRequirement) (node : Node.t) :
  canNodeSupportRequirements_ui kubeletCPU kubeletMemory requirements currentUsage node
  = canNodeSupportRequirements kubeletCPU kubeletMemory requirements currentUsage node.
Proof.
  unfold canNodeSupportRequirements_ui, canNodeSupportRequirements.
  cbv zeta. rewrite !Qgtb_plus_0.
  destruct (_ || _ || _); reflexivity.
Qed.

End Copies.

(** ** Sorting *)

Section Sorted.
Variable A : Type.
Variable before : A -> A -> bool.
Hypothesis before_asym : forall a b, before a b = true -> before b a = false.
Hypothesis before_trans :
  forall a b c, before b a = false -> before c b = false -> before c a = false.

Lemma insert_sorted_sorted (x : A) (l : list A) :
  StronglySorted (fun a b => before b a = false) l ->
  StronglySorted (fun a b => before b a = false) (insert_sorted before x l).
Proof.
  induction 1 as [|y l Hsorted IH Hall]; simpl.
  - constructor; constructor.
  - destruct (before y x) eqn:E.
    + constructor; [assumption|].
      apply Forall_forall. intros z Hz. apply In_insert_sorted in Hz.
      destruct Hz as [-> | Hz].
      * now apply before_asym.
      * rewrite Forall_forall in Hall. now apply Hall.
    + constructor; [now constructor|].
      constructor; [assumption|].
      apply Forall_forall. intros z Hz. rewrite Forall_forall in Hall.
      apply before_trans with (b := y); [assumption | now apply Hall].
Qed.

Lemma sortBy_sorted (l : list A) :
  StronglySorted (fun a b => before b a = false) (sortBy before l).
Proof.
  induction l as [|x l IH]; simpl; [constructor | now apply insert_sorted_sorted].
Qed.

End Sorted.

Lemma pop_cons (A : Type) (x y : A) (l : list A) : pop (x :: y :: l) = pop (y :: l).
Proof.
  unfold pop. simpl. destruct (rev l ++ [y]) eqn:E; [|reflexivity].
  destruct (rev l); discriminate.
Qed.

(** Every entry of a sorted list is related to the last one. *)
Lemma pop_sorted (A : Type) (R : A -> A -> Prop) (l : list A) (x : A) :
  StronglySorted R l ->
  pop l = Some x ->
  forall y, In y l -> y = x \/ R y x.
Proof.
  induction 1 as [|a l Hsorted IH Hall]; intros Hpop y Hy; [contradiction|].
  destruct l as [|b l].
  - unfold pop in Hpop. simpl in Hpop. inversion Hpop; subst.
    destruct Hy as [<- | []]. now left.
  - rewrite pop_cons in Hpop. destruct Hy as [<- | Hy].
    + right. rewrite Forall_forall in Hall. apply Hall. now apply pop_In.
    + now apply IH.
Qed.

Lemma pop_not_nil (A : Type) (l : list A) : l <> [] -> exists x, pop l = Some x.
Proof.
  intros H. unfold pop. destruct (rev l) as [|x r] eqn:E.
  - exfalso. apply H. rewrite <- (rev_involutive l), E. reflexivity.
  - now exists x.
Qed.

(** ** The node a bundle joins ([lib/src/utils/service.ts]) *)

Section Selection.
Variable toLowerCase : string -> string.
Variables kubeletCPU kubeletMemory : Q -> Q.

(** X9.  When a zone holds a node that admits every member of the bundle,
    [addServiceToZone] creates no node and draws no id: the bundle joins a
    viable node of the zone whose memory consumption is the least among the
    viable nodes of the zone. *)
Theorem addServiceToZone_fills_least_loaded_viable_node
  (zone : Zone.t) (nodes : list Node.t) (services bundle : list Service.t)
  (workloads : list Workload.t) (machineSets : list MachineSet.t) (c : Counters) :
  (exists n0, In n0 nodes
     /\ includesZ (Zone.nodes zone) (Node.id n0) = true
     /\ viable toLowerCase kubeletCPU kubeletMemory services bundle workloads machineSets n0 = true)
       ->
  exists target,
    In target nodes
    /\ includesZ (Zone.nodes zone) (Node.id target) = true
    /\ viable toLowerCase kubeletCPU kubeletMemory services bundle workloads machineSets target =
      true
    /\ (forall n, In n nodes ->
          includesZ (Zone.nodes zone) (Node.id n) = true ->
          viable toLowerCase kubeletCPU kubeletMemory services bundle workloads machineSets n = true
            ->
          (getTotalNodeMemoryConsumption target services
           <= getTotalNodeMemoryConsumption n services)%Q)
    /\ addServiceToZone toLowerCase kubeletCPU kubeletMemory zone nodes services bundle workloads
         machineSets c
       = (inr (replaceFirst (fun n => Node.id n =? Node.id target)
                 (fun n => Node.with_services n (Node.services n ++ definedIds bundle)) nodes,
               zone), c).
Proof.
  intros (n0 & Hn0 & Hzone0 & Hviable0).
  unfold addServiceToZone, sortNodesWithLeastConsumption.
  set (inZone := filter (fun node => includesZ (Zone.nodes zone) (Node.id node)) nodes).
  set (candidates := filter _ inZone).
  set (before := fun a b : Node.t =>
         Qltb (getTotalNodeMemoryConsumption a services)
              (getTotalNodeMemoryConsumption b services)).
  assert (Hcand : forall n, In n candidates <->
            In n nodes /\ includesZ (Zone.nodes zone) (Node.id n) = true
            /\ viable toLowerCase kubeletCPU kubeletMemory services bundle workloads machineSets n =
              true).
  { intros n. unfold candidates, inZone. rewrite !filter_In. unfold viable. tauto. }
  assert (Hsorted : StronglySorted (fun a b => before b a = false) (sortBy before candidates)).
  { apply sortBy_sorted; unfold before, Qltb; intros a b.
    - rewrite negb_true_iff, negb_false_iff. intros H.
      apply Qle_bool_false in H. apply Qle_bool_iff. lra.
    - intros k. rewrite !negb_false_iff. intros H1 H2.
      apply Qle_bool_iff in H1. apply Qle_bool_iff in H2. apply Qle_bool_iff. lra. }
  destruct (sortBy before candidates) as [|target rest] eqn:Esorted.
  - exfalso. assert (Hin : In n0 (sortBy before candidates)).
    { apply In_sortBy. apply Hcand. auto. }
    rewrite Esorted in Hin. contradiction.
  - assert (Htarget : In target candidates).
    { apply (In_sortBy _ before). rewrite Esorted. now left. }
    apply Hcand in Htarget. destruct Htarget as (Hin & Hzone & Hviable).
    exists target. repeat split; auto.
    intros n Hn Hnz Hnv.
    assert (Hn' : In n (target :: rest)).
    { rewrite <- Esorted. apply In_sortBy. apply Hcand. auto. }
    destruct Hn' as [<- | Hn']; [lra|].
    inversion Hsorted as [|? ? _ Hall]; subst.
    rewrite Forall_forall in Hall. specialize (Hall n Hn').
    unfold before, Qltb in Hall. apply negb_false_iff, Qle_bool_iff in Hall. exact Hall.
Qed.

End Selection.

(** ** The zone a replica goes to ([lib/src/scheduler/workloadScheduler.ts]) *)

Section ZoneChoice.
Variables kubeletCPU kubeletMemory : Q -> Q.

(** The comparator of [sortBestZones] on (zone, capable nodes) pairs. *)
Lemma zone_before_iff (a b : Zone.t * Z) :
  (let diff := snd b - snd a in
   if diff =? 0 then Zone.id (fst b) - Zone.id (fst a) <? 0 else diff <? 0) = true
  <-> snd b < snd a \/ (snd b = snd a /\ Zone.id (fst b) < Zone.id (fst a)).
Proof.
  cbv zeta. destruct (snd b - snd a =? 0) eqn:E.
  - apply Z.eqb_eq in E. rewrite Z.ltb_lt. lia.
  - apply Z.eqb_neq in E. rewrite Z.ltb_lt. lia.
Qed.

Lemma zone_before_false (a b : Zone.t * Z) :
  (let diff := snd b - snd a in
   if diff =? 0 then Zone.id (fst b) - Zone.id (fst a) <? 0 else diff <? 0) = false
  <-> snd a < snd b \/ (snd a = snd b /\ Zone.id (fst a) <= Zone.id (fst b)).
Proof.
  rewrite <- not_true_iff_false, zone_before_iff. lia.
Qed.

(** The ranking of [sortBestZones], with the counts it sorts by. *)
Lemma sortBestZones_ranked (zones : list Zone.t) (nodes : list Node.t)
  (all bundle : list Service.t) :
  exists ranked,
    sortBestZones kubeletCPU kubeletMemory zones nodes all bundle = map fst ranked
    /\ StronglySorted
         (fun a b => snd b < snd a \/ (snd b = snd a /\ Zone.id (fst b) <= Zone.id (fst a)))
         ranked
    /\ forall p, In p ranked <->
         In (fst p) zones
         /\ snd p = capableNodes kubeletCPU kubeletMemory nodes all bundle (fst p)
         /\ 0 < snd p.
Proof.
  unfold sortBestZones. cbv zeta.
  set (before := fun a b : Zone.t * Z =>
         if snd b - snd a =? 0 then Zone.id (fst b) - Zone.id (fst a) <? 0
         else snd b - snd a <? 0).
  set (suitable := flat_map _ zones).
  exists (sortBy before suitable). split; [reflexivity|]. split.
  - assert (Hs : StronglySorted (fun a b => before b a = false) (sortBy before suitable)).
    { apply sortBy_sorted.
      - intros a b H. apply (zone_before_iff a b) in H. apply (zone_before_false b a). lia.
      - intros a b k H1 H2. apply (zone_before_false b a) in H1.
        apply (zone_before_false k b) in H2. apply (zone_before_false k a). lia. }
    revert Hs. generalize (sortBy before suitable). intros l Hs.
    induction Hs as [|a l Hs IH Hall]; constructor; [assumption|].
    apply Forall_forall. intros b Hb. rewrite Forall_forall in Hall.
    specialize (Hall b Hb). apply (zone_before_false b a) in Hall. lia.
  - intros [z k]. rewrite In_sortBy. unfold suitable. rewrite in_flat_map. simpl.
    fold (capableNodes kubeletCPU kubeletMemory nodes all bundle).
    split.
    + intros (z0 & Hz0 & Hin).
      change (Z.of_nat (List.length (filter _ (filter _ nodes))))
        with (capableNodes kubeletCPU kubeletMemory nodes all bundle z0) in Hin.
      destruct (0 <? capableNodes kubeletCPU kubeletMemory nodes all bundle z0) eqn:E;
        [|contradiction].
      destruct Hin as [[= <- <-] | []]. apply Z.ltb_lt in E. auto.
    + intros (Hz & -> & Hpos). exists z. split; [assumption|].
      change (Z.of_nat (List.length (filter _ (filter _ nodes))))
        with (capableNodes kubeletCPU kubeletMemory nodes all bundle z).
      apply Z.ltb_lt in Hpos. rewrite Hpos. now left.
Qed.

(** X10.  Among the zones outside the used set that hold a node able to take
    the bundle, [chooseZone] takes one with the fewest such nodes, and of
    those the one with the lowest id: it pops the last entry of a ranking
    that [sortBestZones] orders by decreasing number of capable nodes. *)
Theorem chooseZone_takes_zone_with_fewest_capable_nodes
  (services bundle : list Service.t) (st : SchedulerState) :
  (exists z0, In z0 (st_zones st)
     /\ ~ In (Zone.id z0) (st_usedZonesId st)
     /\ 0 < capableNodes kubeletCPU kubeletMemory (st_nodes st) services bundle z0) ->
  exists z,
    chooseZone kubeletCPU kubeletMemory services bundle st
    = (Some z, st_usedZonesId st ++ [Zone.id z])
    /\ In z (st_zones st)
    /\ ~ In (Zone.id z) (st_usedZonesId st)
    /\ 0 < capableNodes kubeletCPU kubeletMemory (st_nodes st) services bundle z
    /\ forall z', In z' (st_zones st) ->
         ~ In (Zone.id z') (st_usedZonesId st) ->
         0 < capableNodes kubeletCPU kubeletMemory (st_nodes st) services bundle z' ->
         capableNodes kubeletCPU kubeletMemory (st_nodes st) services bundle z
         <= capableNodes kubeletCPU kubeletMemory (st_nodes st) services bundle z'
         /\ (capableNodes kubeletCPU kubeletMemory (st_nodes st) services bundle z'
             = capableNodes kubeletCPU kubeletMemory (st_nodes st) services bundle z ->
             Zone.id z <= Zone.id z').
Proof.
  intros (z0 & Hz0 & Hunused0 & Hcap0). unfold chooseZone.
  set (unused := filter (fun z => negb (includesZ (st_usedZonesId st) (Zone.id z)))
                        (st_zones st)).
  assert (Hunused : forall z, In z unused <->
            In z (st_zones st) /\ ~ In (Zone.id z) (st_usedZonesId st)).
  { intros z. unfold unused. rewrite filter_In, negb_true_iff, includesZ_false. tauto. }
  destruct (sortBestZones_ranked unused (st_nodes st) services bundle)
    as (ranked & -> & Hsorted & Hranked).
  rewrite pop_map.
  assert (Hne : ranked <> []).
  { intros Hnil.
    assert (Hin : In (z0, capableNodes kubeletCPU kubeletMemory (st_nodes st) services bundle z0)
                     ranked).
    { apply Hranked. simpl. repeat split; auto. apply Hunused. auto. }
    rewrite Hnil in Hin. contradiction. }
  destruct (pop_not_nil _ ranked Hne) as ([z k] & Hpop). rewrite Hpop. simpl.
  exists z. split; [reflexivity|].
  assert (Hz : In (z, k) ranked) by (now apply pop_In).
  apply Hranked in Hz. simpl in Hz. destruct Hz as (Hzin & -> & Hpos).
  apply Hunused in Hzin. destruct Hzin as [Hzin Hzun].
  repeat split; auto;
    assert (Hz' : In (z', capableNodes kubeletCPU kubeletMemory (st_nodes st) services bundle z')
                     ranked)
      by (apply Hranked; simpl; repeat split; auto; apply Hunused; auto);
    assert (Hlast := pop_sorted _ _ ranked _ Hsorted Hpop _ Hz');
    destruct Hlast as [[= -> ] | Hlast]; simpl in *; try lia.
Qed.

End ZoneChoice.

Section ZoneReset.
Variable toLowerCase : string -> string.
Variables kubeletCPU kubeletMemory : Q -> Q.

(** X30.  When every zone is in the used-zone set, a replica goes to a zone
    of highest id, whatever zones host the bundle already: [placeReplica]
    hands the bundle to [addServiceToZone] for that zone and leaves the set
    holding that zone only. *)
Theorem replica_goes_to_highest_zone_after_reset
  (w : Workload.t) (services : list Service.t) (machineSets : list MachineSet.t)
  (bundle : list Service.t) (st st' : SchedulerState) (c c' : Counters) :
  (forall z0, In z0 (st_zones st) -> In (Zone.id z0) (st_usedZonesId st)) ->
  placeReplica toLowerCase kubeletCPU kubeletMemory w services machineSets bundle st c
  = (inr st', c') ->
  exists z z',
    In z (st_zones st)
    /\ (forall z0, In z0 (st_zones st) -> Zone.id z0 <= Zone.id z)
    /\ addServiceToZone toLowerCase kubeletCPU kubeletMemory z (st_nodes st) services bundle
         [w] machineSets c
       = (inr (st_nodes st', z'), c')
    /\ st_usedZonesId st' = [Zone.id z].
Proof.
  intros Hall Hrun. apply placeReplica_inr in Hrun.
  destruct Hrun as (z & z' & used & Hchoose & Hadd & _ & Hused).
  rewrite (chooseZone_reset kubeletCPU kubeletMemory services bundle st Hall) in Hchoose.
  set (before := fun a b : Zone.t => Zone.id b - Zone.id a <? 0) in Hchoose.
  assert (Hsorted : StronglySorted (fun a b => before b a = false)
                      (sortBy before (st_zones st))).
  { apply sortBy_sorted; unfold before.
    - intros a b H. apply Z.ltb_lt in H. apply Z.ltb_ge. lia.
    - intros a b x H1 H2. apply Z.ltb_ge in H1, H2. apply Z.ltb_ge. lia. }
  destruct (sortBy before (st_zones st)) as [|h rest] eqn:Esorted; simpl in Hchoose;
    [discriminate Hchoose|].
  inversion Hchoose; subst z used. clear Hchoose.
  assert (Hin : forall z0, In z0 (st_zones st) <-> In z0 (h :: rest)).
  { intros z0. rewrite <- Esorted. symmetry. apply In_sortBy. }
  exists h, z'. split; [apply Hin; now left|]. split; [|split; [assumption | now symmetry]].
  intros z0 Hz0. apply Hin in Hz0. destruct Hz0 as [<- | Hz0]; [lia|].
  inversion Hsorted as [|? ? _ Hhead]; subst. rewrite Forall_forall in Hhead.
  specialize (Hhead z0 Hz0). unfold before in Hhead. apply Z.ltb_ge in Hhead. lia.
Qed.

End ZoneReset.

(** ** Feasibility ([lib/src/utils/workload.ts]) *)

Lemma filter_nonempty_iff (A : Type) (p : A -> bool) (l : list A) :
  (0 <? Z.of_nat (List.length (filter p l))) = true <-> exists x, In x l /\ p x = true.
Proof.
  split.
  - intros H. destruct (filter p l) as [|x r] eqn:E; [discriminate|].
    exists x. apply filter_In. rewrite E. now left.
  - intros (x & Hx & Hp). destruct (filter p l) as [|y r] eqn:E.
    + exfalso. assert (Hno := proj1 (filter_nil_iff _ p l) E x Hx). congruence.
    + simpl. apply Z.ltb_lt. lia.
Qed.

Lemma nonempty_length (A : Type) (l : list A) :
  (0 <? Z.of_nat (List.length l)) = true <-> l <> [].
Proof.
  destruct l; simpl; split; intros H; try discriminate; try congruence.
  apply Z.ltb_lt. lia.
Qed.

Section FeasibilityAnalysis.
Variables kubeletCPU kubeletMemory : Q -> Q.

(** X11.  What [isWorkloadSchedulable] answers.  The flag is true exactly
    when it retains a machine set; every machine set it retains is one of
    those offered, is named in [usesMachines] when the workload names any,
    and passes [areServicesSchedulable] for every group that
    [getAllCoplacedServices] forms of the services of the workload. *)
Theorem isWorkloadSchedulable_retains_fitting_machine_sets
  (services : list Service.t) (machineSets : list MachineSet.t) (w : Workload.t) :
  let result := isWorkloadSchedulable kubeletCPU kubeletMemory services machineSets w in
  (fst result = true <-> snd result <> [])
  /\ Forall (fun m =>
       In m machineSets
       /\ (Workload.usesMachines w <> [] ->
           In (MachineSet.name m) (Workload.usesMachines w))
       /\ Forall (fun group => areServicesSchedulable kubeletCPU kubeletMemory group m = true)
            (getAllCoplacedServices (getWorkloadServices w services)))
       (snd result).
Proof.
  cbv zeta.
  assert (Hflag : forall l : list MachineSet.t,
            (0 <? Z.of_nat (List.length l)) = true ->
            (true = true <-> l <> [])).
  { intros l E. split; [intros _; now apply nonempty_length | reflexivity]. }
  assert (Hnone : false = true <-> @nil MachineSet.t <> []).
  { split; [discriminate | intros H; now elim H]. }
  split.
  - unfold isWorkloadSchedulable. cbv zeta.
    set (fits := fun ms : MachineSet.t => forallb _ _).
    destruct (0 <? Z.of_nat (List.length (Workload.usesMachines w))).
    + destruct (0 <? _) eqn:E; simpl; [now apply Hflag | exact Hnone].
    + destruct (_ && _) eqn:E; simpl.
      * apply andb_true_iff in E. destruct E as [_ E]. now apply Hflag.
      * match goal with
        | |- context [if ?b then (true, _) else _] => destruct b eqn:E'
        end; simpl; [now apply Hflag | exact Hnone].
  - apply Forall_forall. intros m Hm.
    assert (Hfits := isWorkloadSchedulable_fits kubeletCPU kubeletMemory services machineSets
                       w m Hm).
    split; [|split].
    + revert Hm. unfold isWorkloadSchedulable. cbv zeta.
      set (fits := fun ms : MachineSet.t => forallb _ _).
      destruct (0 <? Z.of_nat (List.length (Workload.usesMachines w))).
      * destruct (0 <? _); simpl; [|contradiction]. intros Hm.
        apply filter_In in Hm. destruct Hm as [Hm _]. apply filter_In in Hm. apply Hm.
      * destruct (_ && _); simpl.
        -- intros Hm. apply filter_In in Hm. destruct Hm as [Hm _].
           apply filter_In in Hm. apply Hm.
        -- match goal with
           | |- context [if ?b then (true, _) else _] => destruct b
           end; simpl; [|contradiction]. intros Hm.
           apply filter_In in Hm. apply Hm.
    + intros Huses. revert Hm. unfold isWorkloadSchedulable. cbv zeta.
      destruct (0 <? Z.of_nat (List.length (Workload.usesMachines w))) eqn:E.
      * match goal with
        | |- context [if ?b then (true, _) else _] => destruct b
        end; simpl; [|contradiction]. intros Hm.
        apply filter_In in Hm. destruct Hm as [Hm _]. apply filter_In in Hm.
        destruct Hm as [_ Hm]. now apply includesS_In.
      * exfalso. destruct (Workload.usesMachines w); [congruence | discriminate].
    + apply Forall_forall. exact Hfits.
Qed.

(** X12.  Offering more machine sets never turns a schedulable workload into
    an unschedulable one. *)
Theorem isWorkloadSchedulable_monotone
  (services : list Service.t) (machineSets machineSets' : list MachineSet.t) (w : Workload.t) :
  (forall m, In m machineSets -> In m machineSets') ->
  fst (isWorkloadSchedulable kubeletCPU kubeletMemory services machineSets w) = true ->
  fst (isWorkloadSchedulable kubeletCPU kubeletMemory services machineSets' w) = true.
Proof.
  intros Hincl. unfold isWorkloadSchedulable. cbv zeta.
  set (fits := fun ms : MachineSet.t => forallb _ _).
  destruct (0 <? Z.of_nat (List.length (Workload.usesMachines w))).
  - destruct (0 <? Z.of_nat (List.length (filter fits (filter _ machineSets)))) eqn:E;
      [|discriminate]. intros _.
    apply filter_nonempty_iff in E. destruct E as (m & Hm & Hfit).
    apply filter_In in Hm. destruct Hm as [Hm Hname].
    replace (0 <? Z.of_nat (List.length (filter fits (filter _ machineSets')))) with true;
      [reflexivity|].
    symmetry. apply filter_nonempty_iff. exists m. split; [|assumption].
    apply filter_In. auto.
  - assert (Hgeneral :
      forall generic,
        (0 <? Z.of_nat (List.length (filter generic machineSets))) = true ->
        (0 <? Z.of_nat (List.length (filter generic machineSets'))) = true).
    { intros generic E. apply filter_nonempty_iff in E. destruct E as (m & Hm & Hg).
      apply filter_nonempty_iff. exists m. auto. }
    destruct ((0 <? Z.of_nat (List.length (filter _ machineSets')))
              && (0 <? Z.of_nat (List.length (filter fits (filter _ machineSets'))))) eqn:E';
      [reflexivity|].
    destruct ((0 <? Z.of_nat (List.length (filter _ machineSets)))
              && (0 <? Z.of_nat (List.length (filter fits (filter _ machineSets))))) eqn:E.
    + intros _. exfalso.
      apply andb_true_iff in E. destruct E as [_ E].
      apply filter_nonempty_iff in E. destruct E as (m & Hm & Hfit).
      apply filter_In in Hm. destruct Hm as [Hm Hded].
      assert (H1 : (0 <? Z.of_nat (List.length
                      (filter (fun ms => includesS (MachineSet.onlyFor ms) (Workload.name w))
                         machineSets'))) = true).
      { apply filter_nonempty_iff. exists m. auto. }
      assert (H2 : (0 <? Z.of_nat (List.length
                      (filter fits
                         (filter (fun ms => includesS (MachineSet.onlyFor ms) (Workload.name w))
                            machineSets')))) = true).
      { apply filter_nonempty_iff. exists m. split; [|assumption]. apply filter_In. auto. }
      rewrite H1, H2 in E'. discriminate.
    + match goal with
      | |- fst (if ?b then _ else _) = true -> _ => destruct b eqn:Eg; [|discriminate]
      end.
      intros _. apply Hgeneral in Eg. rewrite Eg. reflexivity.
Qed.

(** X13.  The feasibility test is the admission test of an empty node: a
    group passes [areServicesSchedulable] on a machine set exactly when a
    node that [getNode] creates from the machine set passes
    [canNodeSupportRequirements] for the group with nothing on it. *)
Theorem areServicesSchedulable_is_capacity_of_fresh_node
  (group : list Service.t) (m : MachineSet.t) (c : Counters) :
  exists n c',
    getNode (Some m) c = (inr n, c')
    /\ areServicesSchedulable kubeletCPU kubeletMemory group m
       = canNodeSupportRequirements kubeletCPU kubeletMemory
           (getTotalResourceRequirement group false)
           (getTotalResourceRequirement [] false) n.
Proof.
  eexists _, _. split; [reflexivity|].
  unfold areServicesSchedulable, canNodeSupportRequirements, Qgtb. simpl.
  set (r := getTotalResourceRequirement group false).
  destruct (Qle_bool (totalMem r + kubeletMemory (MachineSet.memory m)) (MachineSet.memory m))
    eqn:Em;
  destruct (Qle_bool (totalCPU r + kubeletCPU (MachineSet.cpu m)) (MachineSet.cpu m)) eqn:Ec;
  destruct (Qle_bool (totalCPU r + 0 + kubeletCPU (MachineSet.cpu m)) (MachineSet.cpu m))
    eqn:Ec';
  destruct (Qle_bool (totalMem r + 0 + kubeletMemory (MachineSet.memory m))
              (MachineSet.memory m)) eqn:Em';
  simpl;
  repeat match goal with
  | H : Qle_bool _ _ = true |- _ => apply Qle_bool_iff in H
  | H : Qle_bool _ _ = false |- _ => apply Qle_bool_false in H
  end;
  try lra.
  - rewrite Z.add_0_r. destruct (totalDisks r <=? MachineSet.numberOfDisks m) eqn:Ed;
      destruct (totalDisks r >? MachineSet.numberOfDisks m) eqn:Ed'; try reflexivity; lia.
Qed.

End FeasibilityAnalysis.

(** ** Running the scheduler *)

Lemma timesM_progress (S : Type) (I : S -> Counters -> Prop) (body : S -> M S) (n : nat) :
  (forall s c, I s c -> exists s' c', body s c = (inr s', c') /\ I s' c') ->
  forall s c, I s c -> exists s' c', timesM n body s c = (inr s', c') /\ I s' c'.
Proof.
  intros Hbody. induction n as [|n IH]; intros s c HI; simpl.
  - now exists s, c.
  - destruct (Hbody s c HI) as (s1 & c1 & Hrun & HI1).
    destruct (IH s1 c1 HI1) as (s2 & c2 & Hrun2 & HI2).
    exists s2, c2. unfold bind. rewrite Hrun. auto.
Qed.

Lemma forEachM_progress (A S : Type) (I : S -> Counters -> Prop)
  (body : S -> A -> M S) (l : list A) :
  (forall s c x, In x l -> I s c -> exists s' c', body s x c = (inr s', c') /\ I s' c') ->
  forall s c, I s c -> exists s' c', forEachM body l s c = (inr s', c') /\ I s' c'.
Proof.
  induction l as [|x l IH]; intros Hbody s c HI; simpl.
  - now exists s, c.
  - destruct (Hbody s c x (or_introl eq_refl) HI) as (s1 & c1 & Hrun & HI1).
    destruct (IH (fun s c y Hy => Hbody s c y (or_intror Hy)) s1 c1 HI1)
      as (s2 & c2 & Hrun2 & HI2).
    exists s2, c2. unfold bind. rewrite Hrun. auto.
Qed.

Lemma createZones_loop (k : nat) (acc : list Zone.t) (c : Counters) :
  timesM k (fun generatedZones =>
              i <- generateZoneID ;; ret (generatedZones ++ [Zone.mk i []])) acc c
  = (inr (acc ++ map (fun i => Zone.mk i []) (consecutive (zoneIdCounter c) k)),
     mkCounters (zoneIdCounter c + Z.of_nat k) (nodeIdCounter c)
       (workloadIdCounter c) (serviceIdCounter c)).
Proof.
  revert acc c. induction k as [|k IH]; intros acc c.
  - simpl. unfold ret. rewrite app_nil_r. destruct c; simpl. now rewrite Z.add_0_r.
  - simpl timesM. unfold bind at 1. unfold bind at 1. unfold generateZoneID at 1.
    unfold ret at 1. rewrite IH. simpl. rewrite <- app_assoc. simpl.
    f_equal. f_equal. lia.
Qed.

(** [createZones] never fails: it draws the next zone ids in order. *)
Lemma createZones_run (n : Z) (c : Counters) :
  createZones n c
  = (inr (map (fun i => Zone.mk i []) (consecutive (zoneIdCounter c) (Z.to_nat n))),
     mkCounters (zoneIdCounter c + Z.of_nat (Z.to_nat n)) (nodeIdCounter c)
       (workloadIdCounter c) (serviceIdCounter c)).
Proof. unfold createZones. now rewrite createZones_loop. Qed.

Lemma counters_eta (c : Counters) :
  mkCounters (zoneIdCounter c + 0) (nodeIdCounter c) (workloadIdCounter c)
    (serviceIdCounter c) = c.
Proof. destruct c; simpl. now rewrite Z.add_0_r. Qed.

Section RunningTheScheduler.
Variable toLowerCase : string -> string.
Variables kubeletCPU kubeletMemory : Q -> Q.

Lemma workloadScheduler_unfold (w : Workload.t) (services : list Service.t)
  (machineSets : list MachineSet.t) (zones : list Zone.t) (nodes : list Node.t)
  (used : list Z) (c : Counters) :
  let n := zonesToCreate services w zones in
  workloadScheduler toLowerCase kubeletCPU kubeletMemory w services machineSets zones nodes used c
  = bind (forEachM (scheduleService toLowerCase kubeletCPU kubeletMemory w services machineSets
                      (getWorkloadServices w services))
            (getWorkloadServices w services)
            (mkState (zones ++ map (fun i => Zone.mk i []) (consecutive (zoneIdCounter c) n))
               nodes used, []))
         (fun r => ret (fst r))
         (mkCounters (zoneIdCounter c + Z.of_nat n) (nodeIdCounter c)
            (workloadIdCounter c) (serviceIdCounter c)).
Proof.
  intros n. unfold workloadScheduler.
  fold (zonesRequiredBy services w).
  assert (Hret : forall (p : SchedulerState * list Z),
            (let '(st, _) := p in ret st) = (fun k : Counters => ret (fst p) k)).
  { intros [st l]. reflexivity. }
  destruct (zonesRequiredBy services w >? Z.of_nat (List.length zones)) eqn:E.
  - unfold bind at 1. unfold bind at 1. rewrite createZones_run. unfold ret at 1.
    fold n. unfold bind. destruct (forEachM _ _ _ _) as [[e | [st l]] k]; reflexivity.
  - assert (Hn : n = 0%nat).
    { unfold n, zonesToCreate. rewrite Z.gtb_ltb in E. apply Z.ltb_ge in E. lia. }
    rewrite Hn. simpl consecutive. simpl map. rewrite app_nil_r.
    change (Z.of_nat 0) with 0. rewrite counters_eta.
    unfold bind at 1. unfold ret at 1.
    unfold bind. destruct (forEachM _ _ _ _) as [[e | [st l]] k]; reflexivity.
Qed.

End RunningTheScheduler.

Lemma replaceFirst_length (A : Type) (p : A -> bool) (f : A -> A) (l : list A) :
  List.length (replaceFirst p f l) = List.length l.
Proof.
  induction l as [|x l IH]; simpl; [reflexivity|].
  destruct (p x); simpl; [reflexivity | now rewrite IH].
Qed.

Lemma fold_left_max_ge (l : list Z) (a : Z) :
  a <= fold_left Z.max l a /\ forall x, In x l -> x <= fold_left Z.max l a.
Proof.
  revert a. induction l as [|y l IH]; intros a; simpl.
  - split; [lia | intros x []].
  - destruct (IH (Z.max a y)) as [Ha Hl]. split; [lia|].
    intros x [<- | Hx]; [lia | now apply Hl].
Qed.

Lemma fold_left_max_In (l : list Z) (a : Z) :
  fold_left Z.max l a = a \/ In (fold_left Z.max l a) l.
Proof.
  revert a. induction l as [|y l IH]; intros a; simpl; [now left|].
  destruct (IH (Z.max a y)) as [H | H]; [|now right; right].
  rewrite H. destruct (Z.max_spec a y) as [[_ ->] | [_ ->]]; auto.
Qed.

(** [_.max]: the result is an element, and no element exceeds it. *)
Lemma maxZ_spec (l : list Z) :
  match maxZ l with
  | Some m => In m l /\ forall x, In x l -> x <= m
  | None => l = []
  end.
Proof.
  destruct l as [|a l]; simpl; [reflexivity|].
  destruct (fold_left_max_ge l a) as [Ha Hl]. split.
  - destruct (fold_left_max_In l a) as [-> | H]; auto.
  - intros x [<- | Hx]; [assumption | now apply Hl].
Qed.

(** A bundle that is placed at all is part of a workload that wants a
    zone, and wants no more replicas than the workload wants zones. *)
Lemma getMaxZones_bundle (serviceObjects bundle : list Service.t) :
  bundle <> [] -> incl bundle serviceObjects ->
  1 <= getMaxZones bundle ->
  getMaxZones bundle <= orOne (maxZ (map Service.zones serviceObjects)).
Proof.
  intros Hne Hincl. unfold getMaxZones.
  assert (Hb := maxZ_spec (map Service.zones bundle)).
  assert (Hs := maxZ_spec (map Service.zones serviceObjects)).
  destruct (maxZ (map Service.zones bundle)) as [mb|].
  - destruct Hb as [Hin _]. apply in_map_iff in Hin. destruct Hin as (s & <- & Hs').
    destruct (maxZ (map Service.zones serviceObjects)) as [ms|].
    + destruct Hs as [_ Hle]. specialize (Hle (Service.zones s)).
      assert (Service.zones s <= ms) by (apply Hle, in_map, Hincl, Hs').
      unfold orOne. intros Hone.
      revert Hone.
      destruct (Z.eqb_spec (Service.zones s) 0); destruct (Z.eqb_spec ms 0); lia.
    + apply map_eq_nil in Hs. subst serviceObjects. exfalso. apply (Hincl s Hs').
  - apply map_eq_nil in Hb. contradiction.
Qed.

Section Progress.
Variable toLowerCase : string -> string.
Variables kubeletCPU kubeletMemory : Q -> Q.

Lemma chooseZone_In (services bundle : list Service.t) (st : SchedulerState)
  (z : Zone.t) (used : list Z) :
  chooseZone kubeletCPU kubeletMemory services bundle st = (Some z, used) ->
  In z (st_zones st).
Proof.
  unfold chooseZone.
  destruct (pop _) as [z1|] eqn:Epop.
  - intros [= <- _]. apply pop_In, In_sortBestZones, filter_In in Epop. apply Epop.
  - destruct (find _ (st_zones st)) as [z1|] eqn:Efind.
    + intros [= <- _]. now apply find_some in Efind.
    + destruct (hd_error _) as [z1|] eqn:Ehd; [|discriminate].
      intros [= <- _].
      destruct (sortBy _ (st_zones st)) as [|z2 l] eqn:Es; [discriminate|].
      simpl in Ehd. inversion Ehd; subst.
      apply (In_sortBy _ (fun a b => Zone.id b - Zone.id a <? 0)). rewrite Es. now left.
Qed.

Lemma chooseZone_some (services bundle : list Service.t) (st : SchedulerState) :
  st_zones st <> [] ->
  exists z used, chooseZone kubeletCPU kubeletMemory services bundle st = (Some z, used).
Proof.
  intros Hne. unfold chooseZone.
  destruct (pop _) as [z1|]; [now eexists _, _|].
  destruct (find _ (st_zones st)) as [z1|]; [now eexists _, _|].
  destruct (sortBy _ (st_zones st)) as [|z2 l] eqn:Es.
  - apply sortBy_nil_iff in Es. contradiction.
  - simpl. now eexists _, _.
Qed.

Lemma addServiceToZone_progress (zone : Zone.t) (nodes : list Node.t)
  (services : list Service.t) (first : Service.t) (rest : list Service.t)
  (w : Workload.t) (machineSets : list MachineSet.t) (c : Counters) :
  includesId (Workload.services w) (Service.id first) = true ->
  (exists m, getMachineSetForWorkload w machineSets = Some m) ->
  exists r c',
    addServiceToZone toLowerCase kubeletCPU kubeletMemory zone nodes services (first :: rest) [w]
      machineSets c = (inr r, c').
Proof.
  intros Hown (m & Hm). unfold addServiceToZone.
  destruct (sortNodesWithLeastConsumption _ _ _ _ _ _ _) as [|nodeToRun others].
  - cbn [find]. rewrite Hown. rewrite Hm. now eexists _, _.
  - now eexists _, _.
Qed.

Lemma placeReplica_progress (w : Workload.t) (services : list Service.t)
  (machineSets : list MachineSet.t) (first : Service.t) (rest : list Service.t)
  (st : SchedulerState) (c : Counters) :
  includesId (Workload.services w) (Service.id first) = true ->
  (exists m, getMachineSetForWorkload w machineSets = Some m) ->
  st_zones st <> [] ->
  exists st' c',
    placeReplica toLowerCase kubeletCPU kubeletMemory w services machineSets (first :: rest) st c
    = (inr st', c')
    /\ List.length (st_zones st') = List.length (st_zones st).
Proof.
  intros Hown Hm Hne. unfold placeReplica.
  destruct (chooseZone_some services (first :: rest) st Hne) as (z & used & ->).
  destruct (addServiceToZone_progress z (st_nodes st) services first rest w machineSets c
              Hown Hm) as ([nodes' zone'] & c' & Hadd).
  unfold bind. rewrite Hadd. eexists _, _. split; [reflexivity|].
  simpl. apply replaceFirst_length.
Qed.

Lemma scheduleService_progress (w : Workload.t) (services : list Service.t)
  (machineSets : list MachineSet.t) (st : SchedulerState) (scheduled : list Z)
  (candidate : Service.t) (c : Counters) :
  In candidate (getWorkloadServices w services) ->
  (exists m, getMachineSetForWorkload w machineSets = Some m) ->
  zonesRequiredBy services w <= Z.of_nat (List.length (st_zones st)) ->
  exists r c',
    scheduleService toLowerCase kubeletCPU kubeletMemory w services machineSets
      (getWorkloadServices w services) (st, scheduled) candidate c = (inr r, c')
    /\ List.length (st_zones (fst r)) = List.length (st_zones st).
Proof.
  intros Hcand Hm Hzones. unfold scheduleService.
  destruct (unscheduled scheduled candidate); [|now eexists _, _].
  set (bundle := getCoplacedServices candidate _).
  assert (Hown : includesId (Workload.services w) (Service.id candidate) = true).
  { apply filter_In in Hcand. apply Hcand. }
  destruct (Z.to_nat (getMaxZones bundle)) as [|k] eqn:Ek.
  - simpl. now eexists _, _.
  - assert (Hone : 1 <= getMaxZones bundle) by lia.
    assert (Hle : getMaxZones bundle
                  <= orOne (maxZ (map Service.zones (getWorkloadServices w services)))).
    { apply getMaxZones_bundle; [discriminate | | assumption].
      intros b Hb. apply In_getCoplacedServices in Hb.
      destruct Hb as [-> | (Hb & _)]; [assumption|]. apply filter_In in Hb. apply Hb. }
    fold (zonesRequiredBy services w) in Hle.
    destruct (timesM_progress _
                (fun s (_ : Counters) => List.length (st_zones s) = List.length (st_zones st))
                (placeReplica toLowerCase kubeletCPU kubeletMemory w services machineSets bundle) (S
                  k))
      with (s := st) (c := c) as (st' & c' & Hrun & Hlen).
    + intros s k0 Hs.
      destruct (placeReplica_progress w services machineSets candidate
                  (filter (fun service =>
                     includesId (Service.runsWith candidate) (Service.id service)
                     && negb (eqId (Service.id service) (Service.id candidate)))
                     (filter (unscheduled scheduled) (getWorkloadServices w services)))
                  s k0 Hown Hm) as (s' & k' & Hrun & Hlen).
      * intros Hnil. rewrite Hnil in Hs. simpl in Hs.
        destruct (st_zones st); [simpl in Hzones; lia | discriminate].
      * exists s', k'. split; [exact Hrun | congruence].
    + reflexivity.
    + unfold bind. rewrite Hrun. eexists _, _. split; [reflexivity | exact Hlen].
Qed.

Lemma workloadScheduler_progress (w : Workload.t) (services : list Service.t)
  (machineSets : list MachineSet.t) (zones : list Zone.t) (nodes : list Node.t)
  (used : list Z) (c : Counters) :
  (exists m, getMachineSetForWorkload w machineSets = Some m) ->
  exists st' c',
    workloadScheduler toLowerCase kubeletCPU kubeletMemory w services machineSets zones nodes used c
    = (inr st', c').
Proof.
  intros Hm. rewrite workloadScheduler_unfold. cbv zeta.
  set (zones1 := zones ++ _). set (c1 := mkCounters _ _ _ _).
  destruct (forEachM_progress _ _
              (fun (r : SchedulerState * list Z) (_ : Counters) =>
                 zonesRequiredBy services w <= Z.of_nat (List.length (st_zones (fst r))))
              (scheduleService toLowerCase kubeletCPU kubeletMemory w services machineSets
                 (getWorkloadServices w services))
              (getWorkloadServices w services))
    with (s := (mkState zones1 nodes used, @nil Z)) (c := c1) as (r & c' & Hrun & _).
  - intros [st scheduled] k x Hx Hle. simpl in Hle.
    destruct (scheduleService_progress w services machineSets st scheduled x k Hx Hm Hle)
      as (r & k' & Hrun & Hlen).
    exists r, k'. split; [exact Hrun|]. now rewrite Hlen.
  - simpl. unfold zones1. rewrite length_app, length_map.
    assert (Hlen : forall k n, List.length (consecutive k n) = n).
    { intros k n. revert k. induction n; intros k; simpl; auto. }
    rewrite Hlen. unfold zonesToCreate. lia.
  - unfold bind. rewrite Hrun. now eexists _, _.
Qed.

End Progress.

(** ** When [size] returns ([lib/src/core/ClusterSizer.ts]) *)

Lemma expansion_total (workloads : list WorkloadDescriptor.t) (c : Counters) :
  exists allWorkloads allServices c1,
    expansion workloads c = (inr (allWorkloads, allServices), c1).
Proof.
  unfold expansion.
  destruct (forEachM_progress _ _ (fun _ _ => True) expandDescriptor workloads)
    with (s := (@nil Workload.t, @nil Service.t)) (c := c) as ([ws ss] & c1 & Hrun & _).
  - intros [ws ss] k d _ _. unfold expandDescriptor.
    match goal with
    | |- context [getWorkloadFromDescriptors ?a] =>
        destruct (getWorkloadFromDescriptors_run a k) as (sds & _ & _ & Hrun)
    end.
    unfold bind. rewrite Hrun. now eexists _, _.
  - exact I.
  - now exists ws, ss, c1.
Qed.

Lemma expandedServices_eq (workloads : list WorkloadDescriptor.t) (c c1 : Counters)
  (allWorkloads : list Workload.t) (allServices : list Service.t) :
  expansion workloads c = (inr (allWorkloads, allServices), c1) ->
  expandedServices workloads c = allServices.
Proof. unfold expandedServices. now intros ->. Qed.

Section Outcome.
Variable toLowerCase : string -> string.
Variables kubeletCPU kubeletMemory : Q -> Q.
Variable catalog : Platform -> Instance.t.

(** A workload the feasibility analysis accepts has a machine set for its
    new nodes. *)
Lemma schedulable_has_machine_set (services : list Service.t)
  (machineSets : list MachineSet.t) (w : Workload.t) :
  fst (isWorkloadSchedulable kubeletCPU kubeletMemory services machineSets w) = true ->
  exists m, getMachineSetForWorkload w machineSets = Some m.
Proof.
  unfold isWorkloadSchedulable, getMachineSetForWorkload. cbv zeta.
  set (fits := fun ms : MachineSet.t => forallb _ _).
  destruct (find (fun ms => includesS (MachineSet.onlyFor ms) (Workload.name w)) machineSets)
    as [d|] eqn:Ed; [intros _; now exists d|].
  destruct (0 <? Z.of_nat (List.length (Workload.usesMachines w))).
  - match goal with
    | |- fst (if ?b then _ else _) = true -> _ => destruct b eqn:E; [|discriminate]
    end.
    intros _. apply filter_nonempty_iff in E. destruct E as (m & Hm & _).
    apply filter_In in Hm. destruct Hm as [Hm Hname].
    destruct (find (fun ms => includesS (Workload.usesMachines w) (MachineSet.name ms))
                machineSets) as [m'|] eqn:Efind; [now exists m'|].
    assert (Hno := find_none _ _ Efind m Hm). cbv beta in Hno. congruence.
  - match goal with
    | |- fst (if ?b then _ else _) = true -> _ => destruct b eqn:E
    end.
    + intros _. apply andb_true_iff in E. destruct E as [E _].
      apply nonempty_length in E. exfalso. apply E. apply filter_nil_iff.
      intros m Hm. apply (find_none _ _ Ed m Hm).
    + match goal with
      | |- fst (if ?b then _ else _) = true -> _ => destruct b eqn:E'; [|discriminate]
      end.
      intros _. apply filter_nonempty_iff in E'. destruct E' as (m & Hm & _).
      destruct (find (fun ms => negb _) machineSets) as [m'|]; [now exists m'|].
      destruct machineSets as [|m0 l]; [contradiction | now exists m0].
Qed.

Lemma validate_cases (workloads : list Workload.t) (services : list Service.t)
  (machineSets : list MachineSet.t) (c : Counters) :
  (validateWorkloadsCanSchedule kubeletCPU kubeletMemory workloads services machineSets c
   = (inr tt, c)
   /\ forall w, In w workloads ->
        fst (isWorkloadSchedulable kubeletCPU kubeletMemory services machineSets w) = true)
  \/ ((exists message,
         validateWorkloadsCanSchedule kubeletCPU kubeletMemory workloads services machineSets c
         = (inl (NotSchedulable message), c))
      /\ exists w, In w workloads
           /\ fst (isWorkloadSchedulable kubeletCPU kubeletMemory services machineSets w)
              = false).
Proof.
  induction workloads as [|w ws IH]; simpl.
  - left. split; [reflexivity | intros w []].
  - destruct (fst (isWorkloadSchedulable kubeletCPU kubeletMemory services machineSets w))
      eqn:E.
    + destruct IH as [[Hrun Hall] | [Hrun (w' & Hw' & Hno)]].
      * left. split; [assumption|]. intros w' [<- | Hw']; auto.
      * right. split; [assumption|]. exists w'. auto.
    + right. split; [now eexists | exists w; auto].
Qed.

Lemma size_unfold (workloads : list WorkloadDescriptor.t) (platform : Platform)
  (machineSets : option (list MachineSet.t)) (c c1 : Counters)
  (ws : list Workload.t) (ss : list Service.t) :
  let available := availableMachineSets catalog platform machineSets in
  expansion workloads c = (inr (ws, ss), c1) ->
  size toLowerCase kubeletCPU kubeletMemory catalog workloads platform machineSets c
  = bind (validateWorkloadsCanSchedule kubeletCPU kubeletMemory ws ss available)
      (fun _ =>
         bind (forEachM (scheduleWorkload toLowerCase kubeletCPU kubeletMemory ss available) ws
                 (mkState [] [] []))
           (fun st =>
              ret {| nodeCount := Z.of_nat (List.length (st_nodes st));
                     zones := Z.of_nat (List.length (st_zones st));
                     totalCPU_ := sumQ Node.cpuUnits (st_nodes st);
                     totalMemory_ := sumQ Node.memory (st_nodes st);
                     nodes := st_nodes st;
                     zoneDetails := st_zones st;
                     services := ss |})) c1.
Proof.
  intros available Hexp. unfold size, expansion in *. unfold bind at 1. now rewrite Hexp.
Qed.

(** The two ways a call ends. *)
Lemma size_cases (workloads : list WorkloadDescriptor.t) (platform : Platform)
  (machineSets : option (list MachineSet.t)) (c : Counters) :
  let available := availableMachineSets catalog platform machineSets in
  ((exists out c',
      size toLowerCase kubeletCPU kubeletMemory catalog workloads platform machineSets c = (inr out,
        c'))
   /\ forall w, In w (expandedWorkloads workloads c) ->
        fst (isWorkloadSchedulable kubeletCPU kubeletMemory
               (expandedServices workloads c) available w) = true)
  \/ ((exists message,
         size toLowerCase kubeletCPU kubeletMemory catalog workloads platform machineSets c
         = (inl (NotSchedulable message), snd (expansion workloads c)))
      /\ exists w, In w (expandedWorkloads workloads c)
           /\ fst (isWorkloadSchedulable kubeletCPU kubeletMemory
                     (expandedServices workloads c) available w) = false).
Proof.
  intros available.
  destruct (expansion_total workloads c) as (ws & ss & c1 & Hexp).
  rewrite (expandedWorkloads_eq _ _ _ _ _ Hexp), (expandedServices_eq _ _ _ _ _ Hexp).
  rewrite Hexp. simpl snd.
  rewrite (size_unfold _ _ _ _ _ _ _ Hexp). fold available.
  destruct (validate_cases ws ss available c1) as [[Hval Hall] | [(msg & Hval) Hno]].
  - left. split; [|exact Hall].
    unfold bind at 1. rewrite Hval. unfold bind at 1.
    destruct (forEachM_progress _ _ (fun _ _ => True)
                (scheduleWorkload toLowerCase kubeletCPU kubeletMemory ss available) ws)
      with (s := mkState [] [] []) (c := c1) as (st & c' & Hrun & _).
    + intros st k w Hw _. unfold scheduleWorkload.
      destruct (workloadScheduler_progress toLowerCase kubeletCPU kubeletMemory w ss available
                  (st_zones st) (st_nodes st) (st_usedZonesId st) k) as (st' & k' & Hrun).
      * apply schedulable_has_machine_set with (services := ss). now apply Hall.
      * now exists st', k'.
    + exact I.
    + rewrite Hrun. now eexists _, _.
  - right. split; [|exact Hno]. exists msg. unfold bind. now rewrite Hval.
Qed.

(** X14.  [size] returns a sizing exactly when the feasibility analysis
    accepts every expanded workload: once validation has passed, scheduling
    cannot fail. *)
Theorem size_succeeds_iff_every_workload_is_schedulable
  (workloads : list WorkloadDescriptor.t) (platform : Platform)
  (machineSets : option (list MachineSet.t)) (c : Counters) :
  (exists out c',
     size toLowerCase kubeletCPU kubeletMemory catalog workloads platform machineSets c = (inr out,
       c'))
  <->
  (forall w, In w (expandedWorkloads workloads c) ->
     fst (isWorkloadSchedulable kubeletCPU kubeletMemory (expandedServices workloads c)
            (availableMachineSets catalog platform machineSets) w) = true).
Proof.
  destruct (size_cases workloads platform machineSets c)
    as [[Hrun Hall] | [(msg & Hrun) (w & Hw & Hno)]].
  - split; auto.
  - split.
    + intros (out & c' & Hout). rewrite Hout in Hrun. discriminate.
    + intros Hall. specialize (Hall w Hw). congruence.
Qed.

(** X15.  A call of [size] ends in one of two ways: it returns a sizing, or
    it throws the not-schedulable error of the validation.  In the second
    case the counters stand where the expansion of the descriptors left
    them: a refused call has consumed workload and service ids. *)
Theorem size_throws_only_not_schedulable
  (workloads : list WorkloadDescriptor.t) (platform : Platform)
  (machineSets : option (list MachineSet.t)) (c : Counters) :
  (exists out c',
     size toLowerCase kubeletCPU kubeletMemory catalog workloads platform machineSets c = (inr out,
       c'))
  \/ (exists message,
        size toLowerCase kubeletCPU kubeletMemory catalog workloads platform machineSets c
        = (inl (NotSchedulable message), snd (expansion workloads c))).
Proof.
  destruct (size_cases workloads platform machineSets c) as [[Hrun _] | [Hrun _]]; auto.
Qed.

End Outcome.

(** ** Invariants of the scheduler state *)

Section StateInvariants.
Variable toLowerCase : string -> string.
Variables kubeletCPU kubeletMemory : Q -> Q.
Variable catalog : Platform -> Instance.t.

(** What holds of the state once the zones of a workload are created and is
    preserved by every placement of a replica of one of its bundles holds
    when the workload is scheduled. *)
Lemma workloadScheduler_invariant (I : SchedulerState -> Counters -> Prop)
  (w : Workload.t) (services : list Service.t) (machineSets : list MachineSet.t)
  (zones : list Zone.t) (nodes : list Node.t) (used : list Z)
  (c c' : Counters) (st' : SchedulerState) :
  workloadScheduler toLowerCase kubeletCPU kubeletMemory w services machineSets zones nodes used c
  = (inr st', c') ->
  I (mkState
       (zones ++ map (fun i => Zone.mk i [])
                  (consecutive (zoneIdCounter c) (zonesToCreate services w zones)))
       nodes used)
    (mkCounters (zoneIdCounter c + Z.of_nat (zonesToCreate services w zones))
       (nodeIdCounter c) (workloadIdCounter c) (serviceIdCounter c)) ->
  (forall bundle st k st1 k1,
     isBundleOf w services bundle ->
     I st k ->
     placeReplica toLowerCase kubeletCPU kubeletMemory w services machineSets bundle st k
     = (inr st1, k1) ->
     I st1 k1) ->
  I st' c'.
Proof.
  intros Hrun Hinit Hstep. rewrite workloadScheduler_unfold in Hrun. cbv zeta in Hrun.
  set (serviceObjects := getWorkloadServices w services) in *.
  apply bind_inr in Hrun. destruct Hrun as ([st scheduled] & c1 & Hloop & Hret).
  apply ret_inr in Hret. destruct Hret as [-> ->]. simpl fst.
  pose (J := fun (pre : list Service.t) (s : SchedulerState * list Z) (k : Counters) =>
               snd s = fold_left (scheduledStep serviceObjects) pre [] /\ I (fst s) k).
  assert (HJ : J serviceObjects (st, scheduled) c1).
  { apply (forEachM_prefix_invariant _ _ J _ serviceObjects) with (3 := Hloop); unfold J.
    - intros pre x post [s sch] k [s' sch'] k' Hsplit [Hsch HIs] Hbody. simpl in *.
      apply scheduleService_inr in Hbody. destruct Hbody as [-> Hbody]. split.
      + rewrite fold_left_app. simpl. now rewrite Hsch.
      + destruct (unscheduled sch x) eqn:Eun.
        * revert Hbody. apply (timesM_invariant _ I); auto.
          intros s1 k1 s2 k2 HI1 Hplace.
          apply (Hstep (bundleOf serviceObjects sch x) s1 k1 s2 k2); auto.
          exists pre, x, post. fold serviceObjects. rewrite <- Hsch. auto.
        * destruct Hbody as [-> ->]. assumption.
    - simpl. split; [reflexivity | exact Hinit]. }
  apply HJ.
Qed.

(** The same for a whole run of [size]. *)
Lemma size_invariant (workloads : list WorkloadDescriptor.t) (platform : Platform)
  (machineSets : option (list MachineSet.t)) (c c' : Counters) (out : ClusterSizing) :
  let available := availableMachineSets catalog platform machineSets in
  size toLowerCase kubeletCPU kubeletMemory catalog workloads platform machineSets c = (inr out, c')
    ->
  exists allWorkloads c1 st,
    expansion workloads c = (inr (allWorkloads, services out), c1)
    /\ nodes out = st_nodes st
    /\ zoneDetails out = st_zones st
    /\ nodeCount out = Z.of_nat (List.length (st_nodes st))
    /\ zones out = Z.of_nat (List.length (st_zones st))
    /\ forall I : list Workload.t -> SchedulerState -> Counters -> Prop,
         I [] (mkState [] [] []) c1 ->
         (forall pre w post st k,
            allWorkloads = pre ++ w :: post ->
            I pre st k ->
            (forall J : SchedulerState -> Counters -> Prop,
               J (mkState
                    (st_zones st
                     ++ map (fun i => Zone.mk i [])
                          (consecutive (zoneIdCounter k)
                             (zonesToCreate (services out) w (st_zones st))))
                    (st_nodes st) (st_usedZonesId st))
                 (mkCounters
                    (zoneIdCounter k
                     + Z.of_nat (zonesToCreate (services out) w (st_zones st)))
                    (nodeIdCounter k) (workloadIdCounter k) (serviceIdCounter k)) ->
               (forall bundle s k0 s1 k1,
                  isBundleOf w (services out) bundle ->
                  J s k0 ->
                  placeReplica toLowerCase kubeletCPU kubeletMemory w (services out) available
                    bundle s k0
                  = (inr s1, k1) ->
                  J s1 k1) ->
               forall st1 k1,
                 workloadScheduler toLowerCase kubeletCPU kubeletMemory w (services out) available
                   (st_zones st) (st_nodes st) (st_usedZonesId st) k = (inr st1, k1) ->
                 J st1 k1) ->
            forall st1 k1,
              workloadScheduler toLowerCase kubeletCPU kubeletMemory w (services out) available
                (st_zones st) (st_nodes st) (st_usedZonesId st) k = (inr st1, k1) ->
              I (pre ++ [w]) st1 k1) ->
         I allWorkloads st c'.
Proof.
  intros available H. apply size_inr in H.
  destruct H as (ws & ss & c1 & st & Hexp & _ & Hsched & Hnodes & Hzones & Hsvc & Hcount & Hz).
  subst ss. exists ws, c1, st. repeat split; auto.
  intros I Hinit Hstep.
  apply (forEachM_prefix_invariant _ _ I _ ws) with (3 := Hsched); [|exact Hinit].
  intros pre w post s k s' k' Hsplit HI Hbody. unfold scheduleWorkload in Hbody.
  apply (Hstep pre w post s k Hsplit HI); [|exact Hbody].
  intros J HJ0 HJstep st1 k1 Hrun.
  now apply (workloadScheduler_invariant J w (services out) available
               (st_zones s) (st_nodes s) (st_usedZonesId s) k k1 st1 Hrun).
Qed.

End StateInvariants.

(** ** The ids of a run *)

Lemma length_consecutive (k : Z) (n : nat) : List.length (consecutive k n) = n.
Proof. revert k. induction n as [|n IH]; intros k; simpl; auto. Qed.

Lemma consecutive_app (k : Z) (n m : nat) :
  consecutive k (n + m) = consecutive k n ++ consecutive (k + Z.of_nat n) m.
Proof.
  revert k. induction n as [|n IH]; intros k.
  - simpl. now rewrite Z.add_0_r.
  - change (S n + m)%nat with (S (n + m)). simpl consecutive. rewrite IH.
    simpl. do 3 f_equal. lia.
Qed.

Lemma replaceFirst_map_same (A B : Type) (g : A -> B) (p : A -> bool) (f : A -> A)
  (l : list A) :
  (forall x, p x = true -> g (f x) = g x) ->
  map g (replaceFirst p f l) = map g l.
Proof.
  intros H. induction l as [|x l IH]; simpl; [reflexivity|].
  destruct (p x) eqn:E; simpl; [now rewrite H | now rewrite IH].
Qed.

(** Writing a zone back under its id puts it where the zone of that id
    was. *)
Lemma replaceFirst_zone (zones : list Zone.t) (zone zone' : Zone.t) :
  NoDup (map Zone.id zones) -> In zone zones -> Zone.id zone' = Zone.id zone ->
  exists pre post,
    zones = pre ++ zone :: post
    /\ replaceFirst (fun z => Zone.id z =? Zone.id zone') (fun _ => zone') zones
       = pre ++ zone' :: post.
Proof.
  intros Hnd Hin Hid.
  destruct (replaceFirst_split _ (fun z => Zone.id z =? Zone.id zone') (fun _ => zone')
              zones zone Hin) as (pre & y & post & Hsplit & Hy & _ & Hrep).
  - rewrite Hid. apply Z.eqb_refl.
  - apply Z.eqb_eq in Hy.
    assert (y = zone).
    { apply (NoDup_map_eq _ _ Zone.id zones); auto; [|congruence].
      rewrite Hsplit. apply in_or_app. right. now left. }
    subst y. now exists pre, post.
Qed.

Lemma flat_map_new_zones (ids : list Z) :
  flat_map Zone.nodes (map (fun i => Zone.mk i []) ids) = [].
Proof. induction ids as [|i l IH]; simpl; auto. Qed.

Section Ids.
Variable toLowerCase : string -> string.
Variables kubeletCPU kubeletMemory : Q -> Q.
Variable catalog : Platform -> Instance.t.

Lemma runInvariant_new_zones (c0 : Counters) (st : SchedulerState) (k : Counters) (n : nat) :
  runInvariant c0 st k ->
  runInvariant c0
    (mkState (st_zones st ++ map (fun i => Zone.mk i []) (consecutive (zoneIdCounter k) n))
       (st_nodes st) (st_usedZonesId st))
    (mkCounters (zoneIdCounter k + Z.of_nat n) (nodeIdCounter k) (workloadIdCounter k)
       (serviceIdCounter k)).
Proof.
  intros (Hz & Hzc & Hn & Hnc & Hw & Hs & Hperm). unfold runInvariant. simpl.
  rewrite length_app, length_map, length_consecutive, map_app, map_map. simpl.
  rewrite map_id, consecutive_app, <- Hz, <- Hzc, flat_map_app, flat_map_new_zones, app_nil_r.
  repeat split; auto. lia.
Qed.

Lemma runInvariant_placeReplica (c0 : Counters) (w : Workload.t)
  (services : list Service.t) (machineSets : list MachineSet.t) (bundle : list Service.t)
  (st st1 : SchedulerState) (k k1 : Counters) :
  runInvariant c0 st k ->
  placeReplica toLowerCase kubeletCPU kubeletMemory w services machineSets bundle st k = (inr st1,
    k1) ->
  runInvariant c0 st1 k1.
Proof.
  intros (Hz & Hzc & Hn & Hnc & Hw & Hs & Hperm) Hrun.
  apply placeReplica_inr in Hrun.
  destruct Hrun as (zone & zone' & used & Hchoose & Hadd & Hzones & _).
  apply chooseZone_In in Hchoose.
  assert (Hnd : NoDup (map Zone.id (st_zones st))) by (rewrite Hz; apply NoDup_consecutive).
  apply addServiceToZone_inr in Hadd.
  assert (Hsame : forall nodes',
            map Node.id nodes' = map Node.id (st_nodes st) ->
            st_nodes st1 = nodes' -> zone' = zone -> k1 = k -> runInvariant c0 st1 k1).
  { intros nodes' Hids Hnodes -> ->.
    destruct (replaceFirst_zone _ zone zone Hnd Hchoose eq_refl) as (pre & post & Hsplit & Hrep).
    rewrite Hrep, <- Hsplit in Hzones. unfold runInvariant. rewrite Hzones, Hnodes.
    assert (Hlen : List.length nodes' = List.length (st_nodes st)).
    { rewrite <- (length_map Node.id nodes'), Hids. apply length_map. }
    rewrite Hids, Hlen. repeat split; auto. }
  destruct Hadd as [Hex | [Hnew | Hnone]].
  - destruct Hex as (nodeToRun & pre & n & post & _ & _ & _ & Hsplit & _ & _ & Hnodes & Hzone & Hk).
    apply (Hsame (st_nodes st1)); auto.
    rewrite Hnodes, Hsplit, !map_app. reflexivity.
  - destruct Hnew as (first & rest & owner & fresh & _ & _ & Hnode & Hnodes & Hzone).
    apply getNode_inr in Hnode.
    destruct Hnode as (m & _ & Hid & Hnc1 & Hzc1 & Hw1 & Hs1 & _).
    destruct (replaceFirst_zone _ zone zone' Hnd Hchoose) as (pre & post & Hsplit & Hrep).
    { rewrite Hzone. reflexivity. }
    rewrite Hrep in Hzones. unfold runInvariant. rewrite Hzones, Hnodes.
    assert (Hlenz : List.length (pre ++ zone' :: post) = List.length (st_zones st)).
    { rewrite Hsplit, !length_app. reflexivity. }
    assert (Hidz : map Zone.id (pre ++ zone' :: post) = map Zone.id (st_zones st)).
    { rewrite Hsplit, !map_app. simpl. rewrite Hzone. reflexivity. }
    rewrite Hidz, Hlenz, length_app, map_app. simpl List.length. simpl map.
    rewrite consecutive_app, <- Hn. simpl consecutive.
    repeat split; auto; try lia.
    + do 2 f_equal. lia.
    + rewrite Hzone. rewrite Hsplit in Hperm. rewrite flat_map_app in *. simpl in *.
      rewrite <- app_assoc.
      apply Permutation_trans
        with (l' := (flat_map Zone.nodes pre ++ Zone.nodes zone ++ flat_map Zone.nodes post)
                    ++ [Node.id fresh]).
      * rewrite <- !app_assoc. apply Permutation_app_head. apply Permutation_app_head.
        apply Permutation_app_comm.
      * now apply Permutation_app_tail.
  - destruct Hnone as (first & rest & _ & _ & Hnodes & Hzone & Hk).
    apply (Hsame (st_nodes st1)); auto. now rewrite Hnodes.
Qed.

Lemma expansion_run (workloads : list WorkloadDescriptor.t) (c c1 : Counters)
  (ws : list Workload.t) (ss : list Service.t) :
  expansion workloads c = (inr (ws, ss), c1) ->
  map Service.id ss = map Some (consecutive (serviceIdCounter c) (List.length ss))
  /\ map Workload.id ws = map Some (consecutive (workloadIdCounter c) (List.length ws))
  /\ List.length ws = List.length workloads
  /\ c1 = mkCounters (zoneIdCounter c) (nodeIdCounter c)
            (workloadIdCounter c + Z.of_nat (List.length ws))
            (serviceIdCounter c + Z.of_nat (List.length ss)).
Proof.
  unfold expansion. intros H.
  pose (I := fun (pre : list WorkloadDescriptor.t)
                 (acc : list Workload.t * list Service.t) (k : Counters) =>
            map Service.id (snd acc)
            = map Some (consecutive (serviceIdCounter c) (List.length (snd acc)))
            /\ map Workload.id (fst acc)
               = map Some (consecutive (workloadIdCounter c) (List.length (fst acc)))
            /\ List.length (fst acc) = List.length pre
            /\ k = mkCounters (zoneIdCounter c) (nodeIdCounter c)
                     (workloadIdCounter c + Z.of_nat (List.length (fst acc)))
                     (serviceIdCounter c + Z.of_nat (List.length (snd acc)))).
  assert (HI : I workloads (ws, ss) c1).
  { apply (forEachM_prefix_invariant _ _ I _ workloads) with (3 := H); unfold I.
    - intros pre d post [ws0 ss0] k [ws1 ss1] k1 _ (Hs & Hw & Hlen & ->) Hstep.
      apply expandDescriptor_inr in Hstep.
      destruct Hstep as (wl & svcs & [= -> ->] & Hids & _ & Hid & _ & _ & ->). simpl in *.
      assert (Hn : List.length svcs = List.length (WorkloadDescriptor.services d)).
      { rewrite <- (length_map Service.id svcs), Hids, length_map. apply length_consecutive. }
      rewrite !length_app, !map_app, !consecutive_app, !map_app, <- Hs, <- Hw, Hids, Hn.
      simpl. rewrite Hid. repeat split; auto; simpl; try lia; try (f_equal; lia).
    - simpl. repeat split. destruct c; simpl. f_equal; lia. }
  exact HI.
Qed.

Lemma size_runInvariant (workloads : list WorkloadDescriptor.t) (platform : Platform)
  (machineSets : option (list MachineSet.t)) (c c' : Counters) (out : ClusterSizing) :
  size toLowerCase kubeletCPU kubeletMemory catalog workloads platform machineSets c = (inr out, c')
    ->
  exists allWorkloads c1,
    expansion workloads c = (inr (allWorkloads, services out), c1)
    /\ nodeCount out = Z.of_nat (List.length (nodes out))
    /\ zones out = Z.of_nat (List.length (zoneDetails out))
    /\ runInvariant c1 (mkState (zoneDetails out) (nodes out) []) c'.
Proof.
  intros H. apply size_invariant in H.
  destruct H as (ws & c1 & st & Hexp & Hnodes & Hzones & Hcount & Hz & Hinv).
  exists ws, c1. rewrite Hnodes, Hzones.
  split; [exact Hexp|]. split; [exact Hcount|]. split; [exact Hz|].
  assert (HI : runInvariant c1 st c').
  { apply (Hinv (fun _ s k => runInvariant c1 s k)).
    - unfold runInvariant. simpl. repeat split; auto; lia.
    - intros pre w post s k _ HI Hsched s1 k1 Hrun.
      apply (Hsched (runInvariant c1)); [| |exact Hrun].
      + now apply runInvariant_new_zones.
      + intros bundle s0 k0 s2 k2 _. apply runInvariant_placeReplica. }
  exact HI.
Qed.

(** X16.  The ids of a sizing.  The services, the zones and the nodes of a
    sizing carry the ids that follow the counters of the call, in order and
    without gaps, and the call leaves every counter advanced by the number of
    objects it created: zones, nodes, workloads and services. *)
Theorem size_draws_consecutive_ids
  (workloads : list WorkloadDescriptor.t) (platform : Platform)
  (machineSets : option (list MachineSet.t)) (c c' : Counters) (out : ClusterSizing) :
  size toLowerCase kubeletCPU kubeletMemory catalog workloads platform machineSets c = (inr out, c')
    ->
  map Service.id (services out)
  = map Some (consecutive (serviceIdCounter c) (List.length (services out)))
  /\ map Zone.id (zoneDetails out)
     = consecutive (zoneIdCounter c) (List.length (zoneDetails out))
  /\ map Node.id (nodes out)
     = consecutive (nodeIdCounter c) (List.length (nodes out))
  /\ c' = mkCounters (zoneIdCounter c + zones out) (nodeIdCounter c + nodeCount out)
            (workloadIdCounter c + Z.of_nat (List.length workloads))
            (serviceIdCounter c + Z.of_nat (List.length (services out))).
Proof.
  intros H. apply size_runInvariant in H.
  destruct H as (ws & c1 & Hexp & Hcount & Hzones & Hinv).
  apply expansion_run in Hexp. destruct Hexp as (Hs & _ & Hlen & Hc1).
  destruct Hinv as (Hz & Hzc & Hn & Hnc & Hw & Hsc & _). simpl in *.
  rewrite Hc1 in *. simpl in *. repeat split; auto.
  destruct c'; simpl in *. rewrite Hcount, Hzones. f_equal; lia.
Qed.

(** X17.  The zones partition the nodes: in a sizing the node lists of the
    zones, taken together, list every node exactly once, and no two nodes
    share an id. *)
Theorem size_zones_partition_nodes
  (workloads : list WorkloadDescriptor.t) (platform : Platform)
  (machineSets : option (list MachineSet.t)) (c c' : Counters) (out : ClusterSizing) :
  size toLowerCase kubeletCPU kubeletMemory catalog workloads platform machineSets c = (inr out, c')
    ->
  Permutation (flat_map Zone.nodes (zoneDetails out)) (map Node.id (nodes out))
  /\ NoDup (map Node.id (nodes out)).
Proof.
  intros H. apply size_runInvariant in H.
  destruct H as (ws & c1 & _ & _ & _ & Hinv).
  destruct Hinv as (_ & _ & Hn & _ & _ & _ & Hperm). simpl in *.
  split; [exact Hperm|]. rewrite Hn. apply NoDup_consecutive.
Qed.

End Ids.

(** ** Zones and nodes of a sizing *)

Section Shape.
Variable toLowerCase : string -> string.
Variables kubeletCPU kubeletMemory : Q -> Q.
Variable catalog : Platform -> Instance.t.

Lemma placeReplica_zone_count (w : Workload.t) (services : list Service.t)
  (machineSets : list MachineSet.t) (bundle : list Service.t)
  (st st1 : SchedulerState) (k k1 : Counters) :
  placeReplica toLowerCase kubeletCPU kubeletMemory w services machineSets bundle st k = (inr st1,
    k1) ->
  List.length (st_zones st1) = List.length (st_zones st).
Proof.
  intros H. apply placeReplica_inr in H.
  destruct H as (zone & zone' & used & _ & _ & -> & _). apply replaceFirst_length.
Qed.

(** X18.  The number of zones of a sizing is the largest number of zones
    wanted by one of the expanded workloads, where a workload wants the
    largest [zones] of its services, and one zone when that is 0 or when it
    has no service; zones are created and never removed. *)
Theorem size_zone_count
  (workloads : list WorkloadDescriptor.t) (platform : Platform)
  (machineSets : option (list MachineSet.t)) (c c' : Counters) (out : ClusterSizing) :
  size toLowerCase kubeletCPU kubeletMemory catalog workloads platform machineSets c = (inr out, c')
    ->
  zones out = zonesRequired (services out) (expandedWorkloads workloads c)
  /\ zones out = Z.of_nat (List.length (zoneDetails out)).
Proof.
  intros H. apply size_invariant in H.
  destruct H as (ws & c1 & st & Hexp & _ & Hzones & _ & Hz & Hinv).
  rewrite (expandedWorkloads_eq _ _ _ _ _ Hexp), Hzones. split; [|exact Hz].
  rewrite Hz.
  apply (Hinv (fun pre s _ =>
                 Z.of_nat (List.length (st_zones s)) = zonesRequired (services out) pre)).
  - reflexivity.
  - intros pre w post s k _ HI Hsched s1 k1 Hrun.
    assert (Hlen : List.length (st_zones s1)
                   = (List.length (st_zones s)
                      + zonesToCreate (services out) w (st_zones s))%nat).
    { apply (Hsched (fun s' _ =>
                       List.length (st_zones s')
                       = (List.length (st_zones s)
                          + zonesToCreate (services out) w (st_zones s))%nat))
        with (3 := Hrun).
      - simpl. now rewrite length_app, length_map, length_consecutive.
      - intros bundle s0 k0 s2 k2 _ Hs0 Hplace.
        apply placeReplica_zone_count in Hplace. congruence. }
    unfold zonesRequired in *. rewrite fold_left_app. simpl. rewrite <- HI, Hlen.
    unfold zonesToCreate. lia.
Qed.

Lemma isBundleOf_definedIds (w : Workload.t) (services bundle : list Service.t) :
  isBundleOf w services bundle -> definedIds bundle <> [].
Proof.
  intros (pre & cand & post & _ & Hun & ->).
  apply unscheduled_true in Hun. destruct Hun as (i & Hi & _).
  unfold bundleOf, getCoplacedServices. simpl. rewrite Hi. discriminate.
Qed.

(** X19.  No node of a sizing is empty, so [pruneNodes] has nothing to
    remove: applied to the nodes and zones of a sizing it returns them
    unchanged. *)
Theorem size_result_is_stable_under_pruneNodes
  (workloads : list WorkloadDescriptor.t) (platform : Platform)
  (machineSets : option (list MachineSet.t)) (c c' : Counters) (out : ClusterSizing) :
  size toLowerCase kubeletCPU kubeletMemory catalog workloads platform machineSets c = (inr out, c')
    ->
  (forall n, In n (nodes out) -> Node.services n <> [])
  /\ pruneNodes (nodes out) (zoneDetails out) = (nodes out, zoneDetails out).
Proof.
  intros H. apply size_nodes_invariant in H.
  destruct H as (ws & c1 & _ & _ & Hinv).
  assert (Hne : forall n, In n (nodes out) -> Node.services n <> []).
  { apply (Hinv (fun nodes _ => forall n, In n nodes -> Node.services n <> [])).
    - intros n [].
    - intros w bundle zone nodes0 k nodes' zone' k' _ Hbundle HI Hadd n Hn.
      apply isBundleOf_definedIds in Hbundle.
      apply addServiceToZone_inr in Hadd. destruct Hadd as [Hex | [Hnew | Hnone]].
      + destruct Hex as (nodeToRun & pre & n0 & post & _ & _ & _ & Hsplit & _ & _ & -> & _).
        apply in_app_or in Hn. destruct Hn as [Hn | [<- | Hn]].
        * apply HI. rewrite Hsplit. apply in_or_app. now left.
        * simpl. intros Hnil. apply app_eq_nil in Hnil. now destruct Hnil.
        * apply HI. rewrite Hsplit. apply in_or_app. right. now right.
      + destruct Hnew as (first & rest & owner & fresh & _ & _ & _ & -> & _).
        apply in_app_or in Hn. destruct Hn as [Hn | [<- | []]]; [now apply HI|].
        simpl. assumption.
      + destruct Hnone as (first & rest & _ & _ & -> & _). now apply HI. }
  split; [exact Hne | now apply pruneNodes_noop].
Qed.

(** X20.  Every node of a sizing is an instance of one of the machine sets
    the call worked with: it bears the name of the machine set and has its
    CPU, memory and number of disks, and it is a control-plane node exactly
    when that name is [controlPlane]. *)
Theorem size_nodes_are_instances_of_machine_sets
  (workloads : list WorkloadDescriptor.t) (platform : Platform)
  (machineSets : option (list MachineSet.t)) (c c' : Counters) (out : ClusterSizing) :
  size toLowerCase kubeletCPU kubeletMemory catalog workloads platform machineSets c = (inr out, c')
    ->
  forall n, In n (nodes out) ->
    exists m,
      In m (availableMachineSets catalog platform machineSets)
      /\ Node.machineSet n = MachineSet.name m
      /\ Node.cpuUnits n = MachineSet.cpu m
      /\ Node.memory n = MachineSet.memory m
      /\ Node.maxDisks n = MachineSet.numberOfDisks m
      /\ Node.isControlPlane n = Some (String.eqb (MachineSet.name m) "controlPlane").
Proof.
  intros H. apply size_nodes_invariant in H.
  destruct H as (ws & c1 & _ & _ & Hinv).
  apply (Hinv (fun nodes _ => forall n, In n nodes ->
                 exists m,
                   In m (availableMachineSets catalog platform machineSets)
                   /\ Node.machineSet n = MachineSet.name m
                   /\ Node.cpuUnits n = MachineSet.cpu m
                   /\ Node.memory n = MachineSet.memory m
                   /\ Node.maxDisks n = MachineSet.numberOfDisks m
                   /\ Node.isControlPlane n
                      = Some (String.eqb (MachineSet.name m) "controlPlane"))).
  - intros n [].
  - intros w bundle zone nodes0 k nodes' zone' k' _ _ HI Hadd n Hn.
    apply addServiceToZone_inr in Hadd. destruct Hadd as [Hex | [Hnew | Hnone]].
    + destruct Hex as (nodeToRun & pre & n0 & post & _ & _ & _ & Hsplit & _ & _ & -> & _).
      apply in_app_or in Hn. destruct Hn as [Hn | [<- | Hn]].
      * apply HI. rewrite Hsplit. apply in_or_app. now left.
      * simpl. apply (HI n0). rewrite Hsplit. apply in_or_app. right. now left.
      * apply HI. rewrite Hsplit. apply in_or_app. right. now right.
    + destruct Hnew as (first & rest & owner & fresh & _ & _ & Hnode & -> & _).
      apply in_app_or in Hn. destruct Hn as [Hn | [<- | []]]; [now apply HI|].
      apply getNode_inr in Hnode.
      destruct Hnode as (m & Hm & _ & _ & _ & _ & _ & _ & Hcpu & Hmem & Hdisks & Hname & Hcp).
      apply getMachineSetForWorkload_In in Hm. exists m. simpl. auto 10.
    + destruct Hnone as (first & rest & _ & _ & -> & _). now apply HI.
Qed.

End Shape.

(** ** Over-commit metrics ([src/utils/common.ts], [lib/src/utils/common.ts]) *)

Lemma sumQ_ext (A : Type) (f g : A -> Q) (l : list A) :
  (forall x, In x l -> f x = g x) -> sumQ f l = sumQ g l.
Proof.
  unfold sumQ. generalize 0%Q. induction l as [|x l IH]; intros a H; simpl; [reflexivity|].
  rewrite (H x (or_introl eq_refl)). apply IH. intros y Hy. apply H. now right.
Qed.

Lemma ratio_le_1 (limit available : Q) :
  (limit <= available)%Q -> (ratio limit available <= 1)%Q.
Proof.
  intros H. unfold ratio, Qgtb. destruct (Qle_bool available 0) eqn:E; simpl; [lra|].
  apply Qle_bool_false in E. apply Qle_shift_div_r; [assumption | lra].
Qed.

Lemma hasDynamicLimits_false (services : list Service.t) :
  (forall s, In s services -> declaresNoRange s) -> hasDynamicLimits services = false.
Proof.
  intros H. unfold hasDynamicLimits. apply not_true_is_false. intros Hex.
  apply existsb_exists in Hex. destruct Hex as (s & Hs & Hdyn).
  destruct (H s Hs) as (H1 & H2 & H3 & H4). cbv beta in Hdyn.
  rewrite H1, H2, H3, H4 in Hdyn. discriminate.
Qed.

Section OverCommit.
Variables kubeletCPU kubeletMemory : Q -> Q.

(** X21.  A node within its capacity carries no risk when no limit is
    declared: if the requests of the services on a node plus the kubelet
    reservation fit the node (the capacity invariant) and no service declares
    a limit or a range, both copies of [calculateNodeOverCommit] report the
    risk level [none]. *)
Theorem node_within_capacity_has_no_risk (allServices : list Service.t) (n : Node.t) :
  capacityRespected kubeletCPU kubeletMemory allServices n ->
  (forall s, In s allServices -> declaresNoLimit s) ->
  riskLevel (calculateNodeOverCommit kubeletCPU kubeletMemory n
               (getServicesInNode n allServices)) = none
  /\ riskLevel (calculateNodeOverCommit_lib kubeletCPU kubeletMemory n
                  (getServicesInNode n allServices)) = none.
Proof.
  intros (Hcpu & Hmem & _) Hno. cbv zeta in Hcpu, Hmem.
  set (placed := getServicesInNode n allServices) in *.
  assert (Hplaced : forall s, In s placed -> declaresNoLimit s).
  { intros s Hs. apply Hno. unfold placed, getServicesInNode in Hs.
    apply filter_In in Hs. apply Hs. }
  assert (Hc : sumQ maxCPUOf placed = sumQ Service.requiredCPU placed).
  { apply sumQ_ext. intros s Hs. destruct (Hplaced s Hs) as (Hl & _ & _ & Hm & _).
    unfold maxCPUOf. now rewrite Hm, Hl. }
  assert (Hm : sumQ maxMemoryOf placed = sumQ Service.requiredMemory placed).
  { apply sumQ_ext. intros s Hs. destruct (Hplaced s Hs) as (_ & Hl & _ & _ & _ & Hm).
    unfold maxMemoryOf. now rewrite Hm, Hl. }
  assert (Hc' : sumQ limitCPUOf placed = sumQ Service.requiredCPU placed).
  { apply sumQ_ext. intros s Hs. destruct (Hplaced s Hs) as (Hl & _).
    unfold limitCPUOf. now rewrite Hl. }
  assert (Hm' : sumQ limitMemoryOf placed = sumQ Service.requiredMemory placed).
  { apply sumQ_ext. intros s Hs. destruct (Hplaced s Hs) as (_ & Hl & _).
    unfold limitMemoryOf. now rewrite Hl. }
  split; simpl; apply riskOf_table; apply Q.max_lub; apply ratio_le_1;
    rewrite ?Hc, ?Hm, ?Hc', ?Hm'; lra.
Qed.

(** X22.  A node without allocatable capacity is never reported as
    over-committed: when the kubelet reservation leaves nothing of the CPU
    and nothing of the memory of a node, [calculateNodeOverCommit] reports
    the ratios 1 and the risk level [none], whatever limits the services
    declare. *)
Theorem node_without_allocatable_capacity_has_no_risk
  (n : Node.t) (services : list Service.t) :
  (Node.cpuUnits n - kubeletCPU (Node.cpuUnits n) <= 0)%Q ->
  (Node.memory n - kubeletMemory (Node.memory n) <= 0)%Q ->
  let metrics := calculateNodeOverCommit kubeletCPU kubeletMemory n services in
  getMaxValue (cpuOverCommitRatio metrics) = 1%Q
  /\ getMaxValue (memoryOverCommitRatio metrics) = 1%Q
  /\ riskLevel metrics = none.
Proof.
  intros Hc Hm. cbv zeta. simpl. rewrite !getMaxValue_scalarOrRange.
  unfold ratio, Qgtb.
  apply Qle_bool_iff in Hc. apply Qle_bool_iff in Hm. rewrite Hc, Hm. simpl.
  repeat split; reflexivity.
Qed.

(** X23.  The application's metrics and the library's agree on services
    without dynamic ranges: when no service declares a minimum or a maximum
    limit, [calculateNodeOverCommit] and [calculateClusterOverCommit] of
    [src/utils/common.ts] return what their copies in the library return. *)
Theorem metrics_copies_agree_without_ranges
  (nodes : list Node.t) (n : Node.t) (services : list Service.t) :
  (forall s, In s services -> declaresNoRange s) ->
  calculateNodeOverCommit kubeletCPU kubeletMemory n services
  = calculateNodeOverCommit_lib kubeletCPU kubeletMemory n services
  /\ calculateClusterOverCommit kubeletCPU kubeletMemory nodes services
     = calculateClusterOverCommit_lib kubeletCPU kubeletMemory nodes services.
Proof.
  intros Hno.
  assert (Hc : forall s, In s services -> maxCPUOf s = limitCPUOf s).
  { intros s Hs. destruct (Hno s Hs) as (_ & H & _). unfold maxCPUOf, limitCPUOf.
    now rewrite H. }
  assert (Hm : forall s, In s services -> maxMemoryOf s = limitMemoryOf s).
  { intros s Hs. destruct (Hno s Hs) as (_ & _ & _ & H). unfold maxMemoryOf, limitMemoryOf.
    now rewrite H. }
  unfold calculateNodeOverCommit, calculateNodeOverCommit_lib,
    calculateClusterOverCommit, calculateClusterOverCommit_lib. cbv zeta.
  rewrite (hasDynamicLimits_false services Hno). unfold scalarOrRange.
  rewrite (sumQ_ext _ maxCPUOf limitCPUOf services Hc),
          (sumQ_ext _ maxMemoryOf limitMemoryOf services Hm).
  rewrite (sumQ_ext _ (fun s => (maxCPUOf s * inject_Z (placementCount nodes s))%Q)
             (fun s => (limitCPUOf s * inject_Z (placementCount nodes s))%Q) services)
    by (intros s Hs; now rewrite Hc).
  rewrite (sumQ_ext _ (fun s => (maxMemoryOf s * inject_Z (placementCount nodes s))%Q)
             (fun s => (limitMemoryOf s * inject_Z (placementCount nodes s))%Q) services)
    by (intros s Hs; now rewrite Hm).
  split; reflexivity.
Qed.

End OverCommit.

(** ** How often a service is listed *)

Lemma plannedStep_fst (serviceObjects : list Service.t) (i : Z) (l : list Service.t)
  (acc : list Z * nat) :
  fst (fold_left (plannedStep serviceObjects i) l acc)
  = fold_left (scheduledStep serviceObjects) l (fst acc).
Proof.
  revert acc. induction l as [|x l IH]; intros acc; simpl; [reflexivity|].
  rewrite IH. f_equal. unfold plannedStep, scheduledStep.
  destruct (unscheduled (fst acc) x); reflexivity.
Qed.

Lemma scheduledStep_mono (serviceObjects : list Service.t) (l : list Service.t)
  (scheduled : list Z) (j : Z) :
  In j scheduled -> In j (fold_left (scheduledStep serviceObjects) l scheduled).
Proof.
  revert scheduled. induction l as [|x l IH]; intros scheduled Hj; simpl; [assumption|].
  apply IH. unfold scheduledStep. destruct (unscheduled scheduled x); [|assumption].
  apply in_or_app. now left.
Qed.

(** The members of a bundle are unscheduled when it is formed. *)
Lemma bundle_members_unscheduled (serviceObjects : list Service.t) (scheduled : list Z)
  (x : Service.t) (j : Z) :
  unscheduled scheduled x = true ->
  In j (definedIds (bundleOf serviceObjects scheduled x)) -> ~ In j scheduled.
Proof.
  intros Hun Hj. apply In_definedIds in Hj. destruct Hj as (m & Hm & Hid).
  unfold bundleOf in Hm. apply In_getCoplacedServices in Hm.
  assert (Hm' : unscheduled scheduled m = true).
  { destruct Hm as [-> | (Hm & _)]; [assumption|]. apply filter_In in Hm. apply Hm. }
  apply unscheduled_true in Hm'. destruct Hm' as (k & Hk & Hnot). congruence.
Qed.

Lemma bundle_members_in (serviceObjects : list Service.t) (scheduled : list Z)
  (x m : Service.t) :
  In x serviceObjects -> In m (bundleOf serviceObjects scheduled x) -> In m serviceObjects.
Proof.
  intros Hx Hm. unfold bundleOf in Hm. apply In_getCoplacedServices in Hm.
  destruct Hm as [-> | (Hm & _)]; [assumption|]. apply filter_In in Hm. apply Hm.
Qed.

Lemma count_occ_zero (l : list Z) (i : Z) : ~ In i l -> count_occ Z.eq_dec l i = 0%nat.
Proof. apply count_occ_not_In. Qed.

Lemma count_occ_one (l : list Z) (i : Z) :
  NoDup l -> In i l -> count_occ Z.eq_dec l i = 1%nat.
Proof.
  intros Hnd Hin. apply (proj1 (NoDup_count_occ' Z.eq_dec l) Hnd i Hin).
Qed.

Lemma planned_unchanged_after (serviceObjects : list Service.t) (i : Z)
  (l : list Service.t) (acc : list Z * nat) :
  ~ In i (fold_left (scheduledStep serviceObjects) l (fst acc)) ->
  snd (fold_left (plannedStep serviceObjects i) l acc) = snd acc.
Proof.
  revert acc. induction l as [|x l IH]; intros acc Hnot; simpl; [reflexivity|].
  simpl in Hnot.
  assert (Hfst : fst (plannedStep serviceObjects i acc x)
                 = scheduledStep serviceObjects (fst acc) x).
  { unfold plannedStep, scheduledStep. destruct (unscheduled (fst acc) x); reflexivity. }
  rewrite IH by (now rewrite Hfst).
  unfold plannedStep. destruct (unscheduled (fst acc) x) eqn:E; [|reflexivity].
  cbn [fst snd]. rewrite count_occ_zero; [lia|].
  intros Hin. apply Hnot. apply scheduledStep_mono.
  unfold scheduledStep. rewrite E. apply in_or_app. now right.
Qed.

Lemma planned_unchanged_before (serviceObjects : list Service.t) (i : Z)
  (l : list Service.t) (acc : list Z * nat) :
  In i (fst acc) ->
  snd (fold_left (plannedStep serviceObjects i) l acc) = snd acc.
Proof.
  revert acc. induction l as [|x l IH]; intros acc Hin; simpl; [reflexivity|].
  unfold plannedStep at 2. destruct (unscheduled (fst acc) x) eqn:E.
  - rewrite IH by (cbn [fst snd]; apply in_or_app; now left). cbn [fst snd].
    rewrite count_occ_zero; [lia|].
    intros Hi. now apply (bundle_members_unscheduled serviceObjects (fst acc) x i E Hi).
  - now apply IH.
Qed.

Lemma planned_unchanged_outside (serviceObjects : list Service.t) (i : Z)
  (l : list Service.t) (acc : list Z * nat) :
  (forall x, In x l -> In x serviceObjects) ->
  ~ In i (definedIds serviceObjects) ->
  snd (fold_left (plannedStep serviceObjects i) l acc) = snd acc.
Proof.
  intros Hl Hout. revert acc. induction l as [|x l IH]; intros acc; simpl; [reflexivity|].
  rewrite IH by (intros y Hy; apply Hl; now right).
  unfold plannedStep. destruct (unscheduled (fst acc) x); [|reflexivity]. cbn [fst snd].
  rewrite count_occ_zero; [lia|].
  intros Hi. apply Hout. apply In_definedIds in Hi. destruct Hi as (m & Hm & Hid).
  apply In_definedIds. exists m. split; [|assumption].
  apply (bundle_members_in serviceObjects (fst acc) x m); [|assumption]. apply Hl. now left.
Qed.

(** The ids of a bundle are planned once per replica of the bundle. *)
Lemma planned_of_bundle (serviceObjects pre post : list Service.t) (candidate : Service.t)
  (i : Z) :
  serviceObjects = pre ++ candidate :: post ->
  unscheduled (fold_left (scheduledStep serviceObjects) pre []) candidate = true ->
  let bundle :=
    bundleOf serviceObjects (fold_left (scheduledStep serviceObjects) pre []) candidate in
  NoDup (definedIds bundle) ->
  In i (definedIds bundle) ->
  replicasPlanned serviceObjects i = Z.to_nat (getMaxZones bundle).
Proof.
  intros Hsplit Hun bundle Hnd Hin. unfold replicasPlanned.
  rewrite Hsplit at 2. rewrite fold_left_app. simpl fold_left.
  set (acc := fold_left (plannedStep serviceObjects i) pre ([], 0%nat)).
  assert (Hfst : fst acc = fold_left (scheduledStep serviceObjects) pre []).
  { unfold acc. now rewrite plannedStep_fst. }
  assert (Hsnd : snd acc = 0%nat).
  { unfold acc. rewrite planned_unchanged_after; [reflexivity|]. cbn [fst snd].
    now apply (bundle_members_unscheduled serviceObjects _ candidate i Hun). }
  rewrite planned_unchanged_before.
  - unfold plannedStep. rewrite Hfst, Hun. cbn [fst snd]. fold bundle.
    rewrite Hsnd, (count_occ_one _ _ Hnd Hin). lia.
  - unfold plannedStep. rewrite Hfst, Hun. cbn [fst snd]. apply in_or_app. now right.
Qed.

(** Every service of a workload is a member of one of its bundles. *)
Lemma scheduled_came_from_bundle (serviceObjects : list Service.t) (l : list Service.t)
  (i : Z) :
  In i (fold_left (scheduledStep serviceObjects) l []) ->
  exists p c q,
    l = p ++ c :: q
    /\ unscheduled (fold_left (scheduledStep serviceObjects) p []) c = true
    /\ In i (definedIds (bundleOf serviceObjects
                           (fold_left (scheduledStep serviceObjects) p []) c)).
Proof.
  induction l as [|x l IH] using rev_ind; [intros []|].
  rewrite fold_left_app. simpl. unfold scheduledStep at 1.
  destruct (unscheduled (fold_left (scheduledStep serviceObjects) l []) x) eqn:E.
  - intros Hin. apply in_app_or in Hin. destruct Hin as [Hin | Hin].
    + destruct (IH Hin) as (p & c & q & -> & Hun & Hi).
      exists p, c, (q ++ [x]). rewrite <- app_assoc. auto.
    + exists l, x, []. auto.
  - intros Hin. destruct (IH Hin) as (p & c & q & -> & Hun & Hi).
    exists p, c, (q ++ [x]). rewrite <- app_assoc. auto.
Qed.

Lemma service_in_a_bundle (w : Workload.t) (services : list Service.t) (s : Service.t) :
  uniqueIds services ->
  In s (getWorkloadServices w services) ->
  exists bundle, isBundleOf w services bundle /\ In s bundle.
Proof.
  intros Hunique Hs.
  set (SO := getWorkloadServices w services) in *.
  destruct (in_split _ _ Hs) as (l1 & l2 & Hsplit).
  assert (Hid : exists i, Service.id s = Some i).
  { apply getWorkloadServices_In in Hs. destruct Hs as (_ & i & Hi & _). now exists i. }
  destruct Hid as (i & Hi).
  assert (Hsched : In i (fold_left (scheduledStep SO) (l1 ++ [s]) [])).
  { rewrite fold_left_app. simpl. unfold scheduledStep at 1.
    destruct (unscheduled (fold_left (scheduledStep SO) l1 []) s) eqn:E.
    - apply in_or_app. right. apply In_definedIds. exists s. split; [|assumption].
      unfold bundleOf, getCoplacedServices. now left.
    - unfold unscheduled in E. rewrite Hi in E.
      apply negb_false_iff, includesZ_In in E. exact E. }
  apply scheduled_came_from_bundle in Hsched.
  destruct Hsched as (p & c & q & Hpcq & Hun & Hin).
  exists (bundleOf SO (fold_left (scheduledStep SO) p []) c). split.
  - exists p, c, (q ++ l2). fold SO. repeat split; auto.
    rewrite Hsplit.
    change (l1 ++ s :: l2) with (l1 ++ [s] ++ l2). rewrite app_assoc, Hpcq.
    now rewrite <- app_assoc.
  - apply In_definedIds in Hin. destruct Hin as (m & Hm & Hmid).
    assert (Hc : In c SO).
    { rewrite Hsplit. change (l1 ++ s :: l2) with (l1 ++ [s] ++ l2).
      rewrite app_assoc, Hpcq. rewrite <- app_assoc. apply in_or_app. right. now left. }
    assert (Hmso : In m SO) by (exact (bundle_members_in SO _ c m Hc Hm)).
    assert (m = s); [|now subst].
    apply (uniqueIds_eq services); auto.
    + apply getWorkloadServices_In in Hmso. apply Hmso.
    + apply getWorkloadServices_In in Hs. apply Hs.
    + congruence.
Qed.

Lemma list_sum_single (A : Type) (g : A -> nat) (l : list A) (a : A) :
  NoDup l -> In a l -> (forall b, In b l -> b <> a -> g b = 0%nat) ->
  list_sum (map g l) = g a.
Proof.
  induction 1 as [|x l Hnotin Hnd IH]; intros Hin Hzero; [contradiction|].
  simpl. destruct Hin as [-> | Hin].
  - assert (Hrest : list_sum (map g l) = 0%nat).
    { clear IH. induction l as [|y l IHl]; [reflexivity|]. simpl.
      rewrite (Hzero y) by (try (right; now left); intros ->; apply Hnotin; now left).
      apply IHl.
      - intros Hal. apply Hnotin. now right.
      - now inversion Hnd.
      - intros b [-> | Hb] Hneq; apply Hzero; auto; right; now right. }
    lia.
  - rewrite (Hzero x) by (try (now left); intros ->; contradiction).
    apply IH; [assumption|]. intros b Hb. apply Hzero. now right.
Qed.

(** The workloads of an expansion are distinct and list disjoint sets of
    service ids, and every service is listed by one of them. *)
Lemma expansion_partition (workloads : list WorkloadDescriptor.t) (c c1 : Counters)
  (ws : list Workload.t) (ss : list Service.t) :
  expansion workloads c = (inr (ws, ss), c1) ->
  NoDup ws
  /\ (forall w w' i, In w ws -> In w' ws -> w <> w' ->
        In i (Workload.services w) -> ~ In i (Workload.services w'))
  /\ (forall s, In s ss -> exists w, In w ws /\ In s (getWorkloadServices w ss)).
Proof.
  unfold expansion. intros H.
  pose (I := fun (acc : list Workload.t * list Service.t) (k : Counters) =>
            NoDup (fst acc)
            /\ (forall w i, In w (fst acc) -> In i (Workload.services w) ->
                  i <= serviceIdCounter k)
            /\ (forall w, In w (fst acc) ->
                  exists j, Workload.id w = Some j /\ j <= workloadIdCounter k)
            /\ (forall w w' i, In w (fst acc) -> In w' (fst acc) -> w <> w' ->
                  In i (Workload.services w) -> ~ In i (Workload.services w'))
            /\ (forall s, In s (snd acc) ->
                  exists w i, In w (fst acc) /\ Service.id s = Some i
                              /\ In i (Workload.services w))).
  assert (HI : I (ws, ss) c1).
  { apply (forEachM_invariant _ _ I expandDescriptor workloads) with (s := ([], [])) (c := c);
      [| |exact H]; unfold I.
    - intros [ws0 ss0] k d [ws1 ss1] k1 _ (Hnd & Hle & Hid & Hdisj & Hcover) Hstep.
      apply expandDescriptor_inr in Hstep.
      destruct Hstep as (wl & svcs & [= -> ->] & Hids & Hsvc & Hwid & _ & _ & ->).
      simpl in *.
      assert (Hnew : forall i, In i (Workload.services wl) -> serviceIdCounter k < i
                <= serviceIdCounter k
                   + Z.of_nat (List.length (WorkloadDescriptor.services d))).
      { intros i Hi. rewrite Hsvc in Hi. now apply In_consecutive in Hi. }
      assert (Hfresh : ~ In wl ws0).
      { intros Hin. destruct (Hid wl Hin) as (j & Hj & Hjle). rewrite Hwid in Hj.
        inversion Hj. lia. }
      repeat split.
      + apply NoDup_app; [assumption | repeat constructor; intros [] |].
        intros a Ha [<- | []]. contradiction.
      + intros w i Hw Hi. apply in_app_or in Hw. destruct Hw as [Hw | [<- | []]].
        * specialize (Hle w i Hw Hi). lia.
        * apply Hnew in Hi. lia.
      + intros w Hw. apply in_app_or in Hw. destruct Hw as [Hw | [<- | []]].
        * destruct (Hid w Hw) as (j & Hj & Hjle). exists j. split; [assumption | lia].
        * exists (workloadIdCounter k + 1). split; [assumption | lia].
      + intros w w' i Hw Hw' Hneq Hi Hi'.
        apply in_app_or in Hw. apply in_app_or in Hw'.
        destruct Hw as [Hw | [<- | []]]; destruct Hw' as [Hw' | [<- | []]].
        * now apply (Hdisj w w' i).
        * specialize (Hle w i Hw Hi). apply Hnew in Hi'. lia.
        * specialize (Hle w' i Hw' Hi'). apply Hnew in Hi. lia.
        * now apply Hneq.
      + intros s Hs. apply in_app_or in Hs. destruct Hs as [Hs | Hs].
        * destruct (Hcover s Hs) as (w & i & Hw & Hi & Hin).
          exists w, i. repeat split; auto. apply in_or_app. now left.
        * apply (in_map Service.id) in Hs. rewrite Hids in Hs.
          apply in_map_iff in Hs. destruct Hs as (i & Hi & Hin).
          exists wl, i. repeat split; auto.
          -- apply in_or_app. right. now left.
          -- now rewrite Hsvc.
    - simpl. repeat split; try constructor; intros; contradiction. }
  destruct HI as (Hnd & _ & _ & Hdisj & Hcover). simpl in *.
  repeat split; auto.
  intros s Hs. destruct (Hcover s Hs) as (w & i & Hw & Hi & Hin).
  exists w. split; [assumption|]. apply getWorkloadServices_In. split; [assumption|].
  now exists i.
Qed.

Section Replication.
Variable toLowerCase : string -> string.
Variables kubeletCPU kubeletMemory : Q -> Q.
Variable catalog : Platform -> Instance.t.

Lemma scheduleService_placements (w : Workload.t) (services : list Service.t)
  (machineSets : list MachineSet.t) (serviceObjects : list Service.t)
  (st st' : SchedulerState) (scheduled scheduled' : list Z)
  (candidate : Service.t) (c c' : Counters) :
  includesId (Workload.services w) (Service.id candidate) = true ->
  scheduleService toLowerCase kubeletCPU kubeletMemory w services machineSets serviceObjects
    (st, scheduled) candidate c = (inr (st', scheduled'), c') ->
  forall i n,
    scheduled' = fst (plannedStep serviceObjects i (scheduled, n) candidate)
    /\ (placements i (st_nodes st') + n
        = placements i (st_nodes st)
          + snd (plannedStep serviceObjects i (scheduled, n) candidate))%nat.
Proof.
  intros Hown Hrun i n. apply scheduleService_inr in Hrun. destruct Hrun as [-> Hrun].
  unfold plannedStep, scheduledStep. cbn [fst snd].
  destruct (unscheduled scheduled candidate); cbn [fst snd].
  - split; [reflexivity|].
    set (bundle := bundleOf serviceObjects scheduled candidate) in *.
    assert (Hgen : forall r s k,
              timesM r (placeReplica toLowerCase kubeletCPU kubeletMemory w services machineSets
                bundle)
                s k = (inr st', c') ->
              placements i (st_nodes st')
              = (placements i (st_nodes s) + r * count_occ Z.eq_dec (definedIds bundle) i)%nat).
    { induction r as [|r IH]; intros s k Hr; simpl in Hr.
      - apply ret_inr in Hr. destruct Hr as [-> _]. lia.
      - apply bind_inr in Hr. destruct Hr as (s1 & k1 & Hplace & Hr).
        rewrite (IH _ _ Hr).
        apply placeReplica_inr in Hplace.
        destruct Hplace as (zone & zone' & used & _ & Hadd & _).
        unfold bundle, bundleOf, getCoplacedServices in Hadd.
        rewrite (addServiceToZone_placements _ _ _ _ _ _ _ _ _ _ _ _ _ _ Hown Hadd i).
        unfold bundle, bundleOf, getCoplacedServices. lia. }
    rewrite (Hgen _ _ _ Hrun). lia.
  - destruct Hrun as [-> _]. split; [reflexivity | lia].
Qed.

Lemma workloadScheduler_placements (w : Workload.t) (services : list Service.t)
  (machineSets : list MachineSet.t) (zones : list Zone.t) (nodes : list Node.t)
  (used : list Z) (c c' : Counters) (st' : SchedulerState) :
  workloadScheduler toLowerCase kubeletCPU kubeletMemory w services machineSets zones nodes used c
  = (inr st', c') ->
  forall i,
    placements i (st_nodes st')
    = (placements i nodes + replicasPlanned (getWorkloadServices w services) i)%nat.
Proof.
  intros Hrun i. rewrite workloadScheduler_unfold in Hrun. cbv zeta in Hrun.
  set (SO := getWorkloadServices w services) in *.
  apply bind_inr in Hrun. destruct Hrun as ([st scheduled] & c1 & Hloop & Hret).
  apply ret_inr in Hret. destruct Hret as [-> ->]. cbn [fst].
  pose (J := fun (pre : list Service.t) (s : SchedulerState * list Z) (_ : Counters) =>
               snd s = fst (fold_left (plannedStep SO i) pre ([], 0%nat))
               /\ placements i (st_nodes (fst s))
                  = (placements i nodes
                     + snd (fold_left (plannedStep SO i) pre ([], 0%nat)))%nat).
  assert (HJ : J SO (st, scheduled) c1).
  { apply (forEachM_prefix_invariant _ _ J _ SO) with (3 := Hloop); unfold J.
    - intros pre x post [s sch] k [s' sch'] k' Hsplit [Hsch Hcount] Hbody.
      cbn [fst snd] in *. rewrite fold_left_app. cbn [fold_left].
      assert (Hown : includesId (Workload.services w) (Service.id x) = true).
      { assert (Hx : In x SO) by (rewrite Hsplit; apply in_or_app; right; now left).
        apply filter_In in Hx. apply Hx. }
      destruct (scheduleService_placements w services machineSets SO s s' sch sch' x k k'
                  Hown Hbody i (snd (fold_left (plannedStep SO i) pre ([], 0%nat))))
        as [Hs Hp].
      rewrite Hsch in Hs, Hp. rewrite <- surjective_pairing in Hs, Hp.
      split; [exact Hs | lia].
    - cbn [fst snd fold_left st_nodes]. split; [reflexivity | lia]. }
  destruct HJ as [_ HJ]. exact HJ.
Qed.

Lemma size_placements (workloads : list WorkloadDescriptor.t) (platform : Platform)
  (machineSets : option (list MachineSet.t)) (c c' : Counters) (out : ClusterSizing) :
  size toLowerCase kubeletCPU kubeletMemory catalog workloads platform machineSets c = (inr out, c')
    ->
  forall i,
    placements i (nodes out)
    = list_sum (map (fun w => replicasPlanned (getWorkloadServices w (services out)) i)
                    (expandedWorkloads workloads c)).
Proof.
  intros H i. apply size_inr in H.
  destruct H as (ws & ss & c1 & st & Hexp & _ & Hsched & Hnodes & _ & Hsvc & _).
  rewrite (expandedWorkloads_eq _ _ _ _ _ Hexp), Hnodes, Hsvc.
  pose (I := fun (pre : list Workload.t) (s : SchedulerState) (_ : Counters) =>
               placements i (st_nodes s)
               = list_sum (map (fun w => replicasPlanned (getWorkloadServices w ss) i) pre)).
  assert (HI : I ws st c').
  { apply (forEachM_prefix_invariant _ _ I _ ws) with (3 := Hsched); unfold I.
    - intros pre w post s k s' k' _ HIs Hbody. unfold scheduleWorkload in Hbody.
      rewrite (workloadScheduler_placements _ _ _ _ _ _ _ _ _ Hbody i), HIs.
      rewrite map_app, list_sum_app. simpl. lia.
    - reflexivity. }
  exact HI.
Qed.

(** X24.  Every service of a sizing is listed by the nodes once per replica
    of its bundle.  Each service belongs to a bundle of its workload, and the
    number of times its id occurs in the service lists of the nodes is the
    number of replicas of that bundle: the largest [zones] of the members of
    the bundle, 1 when that is 0 and none when it is negative. *)
Theorem size_lists_every_service_once_per_replica
  (workloads : list WorkloadDescriptor.t) (platform : Platform)
  (machineSets : option (list MachineSet.t)) (c c' : Counters) (out : ClusterSizing) :
  size toLowerCase kubeletCPU kubeletMemory catalog workloads platform machineSets c = (inr out, c')
    ->
  forall s i,
    In s (services out) -> Service.id s = Some i ->
    exists w bundle,
      In w (expandedWorkloads workloads c)
      /\ isBundleOf w (services out) bundle
      /\ In s bundle
      /\ placements i (nodes out) = Z.to_nat (getMaxZones bundle).
Proof.
  intros H s i Hs Hi.
  rewrite (size_placements _ _ _ _ _ _ H i).
  apply size_inr in H.
  destruct H as (ws & ss & c1 & st & Hexp & _ & _ & _ & _ & Hsvc & _).
  rewrite (expandedWorkloads_eq _ _ _ _ _ Hexp), Hsvc in *. clear Hsvc.
  assert (Hunique := expansion_uniqueIds _ _ _ _ _ Hexp).
  destruct (expansion_partition _ _ _ _ _ Hexp) as (Hnd & Hdisj & Hcover).
  destruct (Hcover s Hs) as (w & Hw & Hso).
  destruct (service_in_a_bundle w ss s Hunique Hso) as (bundle & Hbundle & Hin).
  exists w, bundle. repeat split; auto.
  rewrite (list_sum_single _ _ ws w Hnd Hw).
  - destruct Hbundle as (pre & cand & post & Hsplit & Hun & Hb).
    subst bundle. apply (planned_of_bundle _ pre post cand i Hsplit Hun).
    + destruct (bundle_NoDup_incl ss w _ Hunique
                  (ex_intro _ pre (ex_intro _ cand (ex_intro _ post
                     (conj Hsplit (conj Hun eq_refl)))))) as [Hnodup Hincl].
      clear - Hnodup Hincl Hunique.
      set (b := bundleOf _ _ _) in *.
      assert (Hids : NoDup (map Service.id b)).
      { destruct Hunique as [_ Hu]. clear - Hnodup Hincl Hu.
        induction b as [|x b IH]; simpl; constructor.
        - intros Hx. apply in_map_iff in Hx. destruct Hx as (y & Hy & Hyb).
          inversion Hnodup; subst.
          assert (y = x); [|now subst].
          apply (NoDup_map_eq _ _ Service.id ss); auto.
          + apply Hincl. now right.
          + apply Hincl. now left.
        - apply IH; [now inversion Hnodup | intros y Hy; apply Hincl; now right]. }
      clear - Hids. induction b as [|x b IH]; simpl; [constructor|].
      simpl in Hids. inversion Hids as [|? ? Hnotin Hrest]; subst.
      destruct (Service.id x) as [j|] eqn:Ej; [|now apply IH].
      constructor; [|now apply IH].
      intros Hj. apply Hnotin. apply In_definedIds in Hj. destruct Hj as (m & Hm & Hmid).
      rewrite <- Hmid. now apply in_map.
    + apply In_definedIds. now exists s.
  - intros w' Hw' Hneq. unfold replicasPlanned.
    apply (planned_unchanged_outside _ i _ ([], 0%nat)); [auto|].
    intros Hin'. apply In_definedIds in Hin'. destruct Hin' as (m & Hm & Hmid).
    apply getWorkloadServices_In in Hm. destruct Hm as (_ & j & Hj & Hjw').
    apply getWorkloadServices_In in Hso. destruct Hso as (_ & j' & Hj' & Hjw).
    assert (j = i) by congruence. assert (j' = i) by congruence. subst j j'.
    now apply (Hdisj w w' i Hw Hw' (not_eq_sym Hneq)).
Qed.

End Replication.

(** ** Machine sets named by a workload *)

Section UsesMachines.
Variable toLowerCase : string -> string.
Variables kubeletCPU kubeletMemory : Q -> Q.
Variable catalog : Platform -> Instance.t.

(** A node admits a service only if the workload of the service names no
    machine set or names that of the node. *)
Lemma canNodeAddService_usesMachines (n : Node.t) (candidate : Service.t)
  (services : list Service.t) (w : Workload.t) (machineSets : list MachineSet.t) :
  canNodeAddService toLowerCase kubeletCPU kubeletMemory n candidate services [w] machineSets = true
    ->
  Workload.usesMachines w = [] \/ In (Node.machineSet n) (Workload.usesMachines w).
Proof.
  unfold canNodeAddService.
  destruct (Service.id candidate) as [i|]; [|discriminate].
  cbn [find]. destruct (includesZ (Workload.services w) i); [|discriminate].
  destruct (Workload.usesMachines w) as [|u us] eqn:Eu; [now left|].
  destruct (includesS (u :: us) (Node.machineSet n)) eqn:E.
  - intros _. right. now apply includesS_In.
  - simpl negb. simpl andb. discriminate.
Qed.

Lemma addServiceToZone_ids (zone : Zone.t) (nodes : list Node.t)
  (services bundle : list Service.t) (workloads : list Workload.t)
  (machineSets : list MachineSet.t) (c c' : Counters) (nodes' : list Node.t) (zone' : Zone.t) :
  NoDup (map Node.id nodes) /\ (forall n, In n nodes -> Node.id n <= nodeIdCounter c) ->
  addServiceToZone toLowerCase kubeletCPU kubeletMemory zone nodes services bundle workloads
    machineSets c
  = (inr (nodes', zone'), c') ->
  NoDup (map Node.id nodes') /\ (forall n, In n nodes' -> Node.id n <= nodeIdCounter c').
Proof.
  intros [Hnd Hle] Hrun. apply addServiceToZone_inr in Hrun.
  destruct Hrun as [Hex | [Hnew | Hnone]].
  - destruct Hex as (nodeToRun & pre & n & post & _ & _ & _ & -> & _ & _ & -> & _ & ->).
    split.
    + rewrite map_app in *. exact Hnd.
    + intros m Hm. apply in_app_or in Hm. destruct Hm as [Hm | [<- | Hm]].
      * apply Hle. apply in_or_app. now left.
      * simpl. apply Hle. apply in_or_app. right. now left.
      * apply Hle. apply in_or_app. right. now right.
  - destruct Hnew as (first & rest & owner & fresh & _ & _ & Hnode & -> & _).
    apply getNode_inr in Hnode. destruct Hnode as (m & _ & Hid & Hctr & _).
    split.
    + rewrite map_app. simpl. apply NoDup_app; [assumption | repeat constructor; intros [] |].
      intros i Hi [<- | []]. apply in_map_iff in Hi. destruct Hi as (n & Hn & Hin).
      specialize (Hle n Hin). lia.
    + intros n Hn. apply in_app_or in Hn. destruct Hn as [Hn | [<- | []]].
      * specialize (Hle n Hn). lia.
      * simpl. lia.
  - destruct Hnone as (first & rest & _ & _ & -> & _ & ->). auto.
Qed.

Lemma getMachineSetForWorkload_named (w : Workload.t) (machineSets : list MachineSet.t)
  (m : MachineSet.t) :
  (forall m0, In m0 machineSets -> MachineSet.onlyFor m0 = []) ->
  Workload.usesMachines w <> [] ->
  getMachineSetForWorkload w machineSets = Some m ->
  In (MachineSet.name m) (Workload.usesMachines w).
Proof.
  intros Hno Huses. unfold getMachineSetForWorkload.
  destruct (find (fun ms => includesS (MachineSet.onlyFor ms) (Workload.name w)) machineSets)
    as [d|] eqn:Ed.
  - apply find_some in Ed. destruct Ed as [Hd Hin]. rewrite (Hno d Hd) in Hin. discriminate.
  - destruct (Workload.usesMachines w) as [|u us] eqn:Eu; [congruence|].
    replace (0 <? Z.of_nat (List.length (u :: us))) with true
      by (symmetry; apply Z.ltb_lt; simpl; lia).
    intros Hfind. apply find_some in Hfind. destruct Hfind as [_ Hname].
    now apply includesS_In.
Qed.

(** X26.  When no machine set is dedicated to a workload ([onlyFor] is empty
    throughout), [usesMachines] is respected: in a sizing, a service of a
    workload that names machine sets is listed only by nodes of a machine set
    the workload names. *)
Theorem size_respects_usesMachines
  (workloads : list WorkloadDescriptor.t) (platform : Platform)
  (machineSets : option (list MachineSet.t)) (c c' : Counters) (out : ClusterSizing) :
  size toLowerCase kubeletCPU kubeletMemory catalog workloads platform machineSets c = (inr out, c')
    ->
  (forall m, In m (availableMachineSets catalog platform machineSets) ->
     MachineSet.onlyFor m = []) ->
  forall w n i,
    In w (expandedWorkloads workloads c) -> In n (nodes out) ->
    In i (Workload.services w) -> In i (Node.services n) ->
    Workload.usesMachines w <> [] ->
    In (Node.machineSet n) (Workload.usesMachines w).
Proof.
  intros H Hno. apply size_nodes_invariant in H.
  destruct H as (ws & c1 & Hexp & _ & Hinv).
  rewrite (expandedWorkloads_eq _ _ _ _ _ Hexp).
  destruct (expansion_partition _ _ _ _ _ Hexp) as (_ & Hdisj & _).
  destruct (expansion_run _ _ _ _ _ Hexp) as (_ & Hwids & _).
  assert (Hsame : forall w w' i, In w ws -> In w' ws ->
            In i (Workload.services w) -> In i (Workload.services w') -> w' = w).
  { intros w w' i Hw Hw' Hi Hi'.
    assert (Hndw : NoDup (map Workload.id ws)).
    { rewrite Hwids. apply NoDup_map_Some, NoDup_consecutive. }
    destruct (Workload.id w) as [j|] eqn:Ej; destruct (Workload.id w') as [j'|] eqn:Ej'.
    - destruct (Z.eq_dec j j') as [-> | Hneq].
      + apply (NoDup_map_eq _ _ Workload.id ws); auto. congruence.
      + exfalso. apply (Hdisj w w' i Hw Hw'); auto. intros ->. congruence.
    - exfalso. apply (Hdisj w w' i Hw Hw'); auto. intros ->. congruence.
    - exfalso. apply (Hdisj w w' i Hw Hw'); auto. intros ->. congruence.
    - apply (NoDup_map_eq _ _ Workload.id ws); auto. congruence. }
  set (P := fun (nodes : list Node.t) =>
              forall w n i, In w ws -> In n nodes ->
                In i (Workload.services w) -> In i (Node.services n) ->
                Workload.usesMachines w <> [] ->
                In (Node.machineSet n) (Workload.usesMachines w)).
  assert (HI : (NoDup (map Node.id (nodes out))
                /\ forall n, In n (nodes out) -> Node.id n <= nodeIdCounter c')
               /\ P (nodes out)).
  { apply (Hinv (fun nodes k =>
                   (NoDup (map Node.id nodes) /\ forall n, In n nodes -> Node.id n <= k)
                   /\ P nodes)).
    - split; [split; [constructor | intros n []] | intros w n i _ []].
    - intros w bundle zone nodes0 k nodes' zone' k' Hw Hbundle [Hids HP] Hadd.
      split; [now apply (addServiceToZone_ids _ _ _ _ _ _ _ _ _ _ Hids Hadd)|].
      assert (Hmembers : forall i, In i (definedIds bundle) -> In i (Workload.services w)).
      { intros i Hi. apply In_definedIds in Hi. destruct Hi as (m & Hm & Hmid).
        destruct (isBundleOf_members _ _ _ Hbundle) as (cand & Hcand & _ & Hfind & Hall).
        destruct Hbundle as (pre & cand' & post & Hsplit & _ & Hb).
        assert (Hmso : In m (getWorkloadServices w (services out))).
        { rewrite Hb in Hm.
          assert (Hc : In cand' (getWorkloadServices w (services out))).
          { rewrite Hsplit. apply in_or_app. right. now left. }
          exact (bundle_members_in _ _ cand' m Hc Hm). }
        apply getWorkloadServices_In in Hmso. destruct Hmso as (_ & j & Hj & Hjw).
        congruence. }
      apply (addServiceToZone_cases toLowerCase kubeletCPU kubeletMemory) in Hadd; [|apply Hids].
      destruct Hadd as [Hex | [Hnew | ->]]; [| |exact HP].
      + destruct Hex as (pre & n0 & post & -> & Hviable & ->).
        intros w' n i Hw' Hn Hiw Hin Huses.
        apply in_app_or in Hn. destruct Hn as [Hn | [<- | Hn]].
        * apply (HP w' n i); auto. apply in_or_app. now left.
        * simpl in Hin |- *. apply in_app_or in Hin. destruct Hin as [Hin | Hin].
          -- apply (HP w' n0 i); auto. apply in_or_app. right. now left.
          -- assert (w' = w) by (apply (Hsame w w' i); auto). subst w'.
             apply In_definedIds in Hin. destruct Hin as (m & Hm & _).
             unfold viable in Hviable. rewrite forallb_forall in Hviable.
             destruct (canNodeAddService_usesMachines _ _ _ _ _ (Hviable m Hm)); tauto.
        * apply (HP w' n i); auto. apply in_or_app. right. now right.
      + destruct Hnew as (m & fresh & (first & rest & owner & Hb & Hfind & Hms) & Hnode & ->).
        intros w' n i Hw' Hn Hiw Hin Huses.
        apply in_app_or in Hn. destruct Hn as [Hn | [<- | []]]; [now apply (HP w' n i)|].
        simpl in Hin |- *.
        assert (w' = w) by (apply (Hsame w w' i); auto). subst w'.
        assert (owner = w).
        { cbn [find] in Hfind. destruct (includesId _ _); [now inversion Hfind | discriminate]. }
        subst owner.
        apply getNode_inr in Hnode.
        destruct Hnode as (m' & [= <-] & _ & _ & _ & _ & _ & _ & _ & _ & _ & -> & _).
        now apply (getMachineSetForWorkload_named w _ m Hno). }
  destruct HI as [_ HP]. exact HP.
Qed.

End UsesMachines.

(** ** Bundles and the feasibility analysis *)

Section ValidatedBundles.
Variable toLowerCase : string -> string.
Variables kubeletCPU kubeletMemory : Q -> Q.
Variable catalog : Platform -> Instance.t.


End ValidatedBundles.

(** ** The platform catalog *)

(** X28.  The catalog a platform resolves to.  Only [GCP] and [AZURE] have a
    catalog of their own; every other value of [Platform] resolves to the AWS
    catalog, the two IBM platforms included: their catalogs are stored under
    the keys [IBMClassic] and [IBMVpc], which no [Platform] value spells. *)
Theorem getInstancesForPlatform_falls_back_to_AWS
  (Entry : Type) (AWS_json AZURE_json GCP_json IBMClassic_json IBMVpc_json : list Entry)
  (p : Platform) :
  getInstancesForPlatform AWS_json AZURE_json GCP_json IBMClassic_json IBMVpc_json
    (platformValue p)
  = match p with
    | GCP => GCP_json
    | AZURE => AZURE_json
    | _ => AWS_json
    end.
Proof. destruct p; reflexivity. Qed.

(** * Concrete instances *)

(** C6, refuted as stated: on a 16-core machine set named [m5-large], the
    workload [batch] of two unrelated 20-core services is refused with a
    message that does not name the machine set and asks for 42 CPU and 24 GB,
    the figures of the whole workload; the failing bundle alone (either
    service) would give 22 CPU and 16 GB. *)
Lemma unschedulable_message_counterexample :
  fst (Fixtures.sizeFrom Fixtures.fresh Fixtures.batch [Fixtures.machineSet "m5-large" 16 64])
  = inl (NotSchedulable (notSchedulableMessage "batch" 42 24))
  /\ str_includes "m5-large" (notSchedulableMessage "batch" 42 24) = false
  /\ map (fun bundle =>
            (spec_minCPU kubeletCPU_model bundle (Fixtures.machineSet "m5-large" 16 64),
             spec_minMem kubeletMemory_model bundle (Fixtures.machineSet "m5-large" 16 64)))
         (getAllCoplacedServices [Fixtures.batchService 1 "a"; Fixtures.batchService 2 "b"])
     = [(22, 16); (22, 16)].
Proof. split; [|split]; vm_compute; reflexivity. Qed.

Lemma size_reports_unschedulable_workload_witness :
  size toLowerCase_ascii kubeletCPU_model kubeletMemory_model catalog_model
    Fixtures.batch BAREMETAL (Some [Fixtures.machineSet "m5-large" 16 64]) Fixtures.fresh
  = (inl (NotSchedulable (notSchedulableMessage "batch" 42 24)), mkCounters 0 0 1 2).
Proof.
  apply (size_reports_unschedulable_workload toLowerCase_ascii kubeletCPU_model kubeletMemory_model
    catalog_model
           Fixtures.batch BAREMETAL (Some [Fixtures.machineSet "m5-large" 16 64])
           Fixtures.fresh (mkCounters 0 0 1 2)
           [Fixtures.batchService 1 "a"; Fixtures.batchService 2 "b"]
           [] (Workload.mk (Some 1) "batch" 1 [] [1; 2] None None) []).
  - vm_compute; reflexivity.
  - intros w' [].
  - vm_compute; reflexivity.
Defined.

(** C2, refuted as stated: in the workload where A runs with B and B runs
    with C, service C is in the component of A, but the bundle formed around
    A is A and B only; on an 8-core machine set, A and B share node 1 and C
    goes to node 2. *)
Lemma bundle_counterexample :
  sameComponent [Fixtures.chainA; Fixtures.chainB; Fixtures.chainC]
    Fixtures.chainA Fixtures.chainC
  /\ getCoplacedServices Fixtures.chainA [Fixtures.chainA; Fixtures.chainB; Fixtures.chainC]
     = [Fixtures.chainA; Fixtures.chainB]
  /\ (exists sizing,
        fst (Fixtures.sizeFrom Fixtures.fresh Fixtures.chain [Fixtures.machineSet "worker" 8 16])
        = inr sizing
        /\ services sizing = [Fixtures.chainA; Fixtures.chainB; Fixtures.chainC]
        /\ map Node.services (nodes sizing) = [[1; 2]; [3]]).
Proof.
  split; [|split].
  - apply component_trans with (b := Fixtures.chainB).
    + apply component_edge with (i := 2); simpl; auto.
    + apply component_edge with (i := 3); simpl; auto.
  - reflexivity.
  - eexists. split; [vm_compute; reflexivity|]. split; reflexivity.
Qed.

Lemma workloadScheduler_places_direct_runsWith_bundles_witness :
  exists st' c',
    workloadScheduler toLowerCase_ascii kubeletCPU_model kubeletMemory_model
      (Workload.mk (Some 1) "w" 1 [] [1; 2; 3] None None)
      [Fixtures.chainA; Fixtures.chainB; Fixtures.chainC]
      [Fixtures.machineSet "worker" 8 16] [] [] [] (mkCounters 0 0 1 3)
    = (inr st', c')
    /\ bundlesFormed [Fixtures.chainA; Fixtures.chainB; Fixtures.chainC] []
         [Fixtures.chainA; Fixtures.chainB; Fixtures.chainC]
       = [[Fixtures.chainA; Fixtures.chainB]; [Fixtures.chainC]]
    /\ map Node.services (st_nodes st') = [[1; 2]; [3]]
    /\ (forall before bundle after,
          [[Fixtures.chainA; Fixtures.chainB]; [Fixtures.chainC]] = before ++ bundle :: after ->
          exists candidate,
            In candidate [Fixtures.chainA; Fixtures.chainB; Fixtures.chainC]
            /\ unscheduled (flat_map definedIds before) candidate = true
            /\ bundle
               = candidate ::
                 filter (fun s => includesId (Service.runsWith candidate) (Service.id s)
                                  && negb (eqId (Service.id s) (Service.id candidate)))
                   (filter (unscheduled (flat_map definedIds before))
                      [Fixtures.chainA; Fixtures.chainB; Fixtures.chainC]))
    /\ (forall s i,
          In s [Fixtures.chainA; Fixtures.chainB; Fixtures.chainC] -> Service.id s = Some i ->
          exists bundle,
            In bundle [[Fixtures.chainA; Fixtures.chainB]; [Fixtures.chainC]]
            /\ In i (definedIds bundle))
    /\ placedInTurn [[Fixtures.chainA; Fixtures.chainB]; [Fixtures.chainC]] [] (st_nodes st').
Proof.
  eexists. eexists. split; [vm_compute; reflexivity|].
  split; [reflexivity|]. split; [reflexivity|].
  refine (workloadScheduler_places_direct_runsWith_bundles toLowerCase_ascii
            kubeletCPU_model kubeletMemory_model
            (Workload.mk (Some 1) "w" 1 [] [1; 2; 3] None None)
            [Fixtures.chainA; Fixtures.chainB; Fixtures.chainC]
            [Fixtures.machineSet "worker" 8 16] [] [] [] (mkCounters 0 0 1 3) _ _ _).
  vm_compute; reflexivity.
Defined.

(** C9, refuted as stated: with no workload at all, placing a bundle in an
    empty zone returns the empty node list and the zone unchanged, as a
    normal result. *)
Lemma no_owner_counterexample :
  addServiceToZone toLowerCase_ascii kubeletCPU_model kubeletMemory_model
    (Zone.mk 1 []) [] [Fixtures.small] [Fixtures.small] []
    [Fixtures.machineSet "worker" 32 64] Fixtures.fresh
  = (inr ([], Zone.mk 1 []), Fixtures.fresh).
Proof. vm_compute; reflexivity. Qed.

Lemma addServiceToZone_without_owner_witness :
  (forall node,
     canNodeAddService toLowerCase_ascii kubeletCPU_model kubeletMemory_model node Fixtures.small
       [Fixtures.small] [Workload.mk (Some 7) "other" 1 [] [5; 6] None None]
       [Fixtures.machineSet "worker" 32 64]
     = false)
  /\ addServiceToZone toLowerCase_ascii kubeletCPU_model kubeletMemory_model
       (Zone.mk 1 [1]) [Fixtures.emptyNode 1] [Fixtures.small] [Fixtures.small]
       [Workload.mk (Some 7) "other" 1 [] [5; 6] None None]
       [Fixtures.machineSet "worker" 32 64] Fixtures.fresh
     = (inr ([Fixtures.emptyNode 1], Zone.mk 1 [1]), Fixtures.fresh).
Proof.
  apply (addServiceToZone_without_owner toLowerCase_ascii kubeletCPU_model kubeletMemory_model
           (Zone.mk 1 [1]) [Fixtures.emptyNode 1] [Fixtures.small] Fixtures.small []
           [Workload.mk (Some 7) "other" 1 [] [5; 6] None None]
           [Fixtures.machineSet "worker" 32 64] Fixtures.fresh).
  reflexivity.
Defined.

(** C10 at a concrete node: the [etcd] service asks for 100 cores on an
    8-core control-plane node that is tainted for another workload and runs a
    service that it avoids and that avoids it; the capacity test fails, and
    the service is admitted all the same. *)
Lemma control_plane_service_always_admitted_witness :
  canNodeAddService toLowerCase_ascii kubeletCPU_model kubeletMemory_model
    ControlPlaneFixtures.node ControlPlaneFixtures.etcd
    [ControlPlaneFixtures.apiserver; ControlPlaneFixtures.etcd]
    [ControlPlaneFixtures.owner] []
  = true
  /\ canNodeSupportRequirements kubeletCPU_model kubeletMemory_model
       (getTotalResourceRequirement [ControlPlaneFixtures.etcd] false)
       (getTotalResourceRequirement [ControlPlaneFixtures.apiserver] false)
       ControlPlaneFixtures.node
     = false
  /\ includesS (Node.onlyFor ControlPlaneFixtures.node)
       (Workload.name ControlPlaneFixtures.owner) = false
  /\ existsb (includesZ (Node.services ControlPlaneFixtures.node))
       (Service.avoid ControlPlaneFixtures.etcd) = true
  /\ includesZ (Service.avoid ControlPlaneFixtures.apiserver) 2 = true.
Proof.
  split.
  - apply (control_plane_service_always_admitted toLowerCase_ascii kubeletCPU_model
    kubeletMemory_model
             ControlPlaneFixtures.node ControlPlaneFixtures.etcd
             [ControlPlaneFixtures.apiserver; ControlPlaneFixtures.etcd]
             [ControlPlaneFixtures.owner] [] 2 ControlPlaneFixtures.owner "etcd").
    + reflexivity.
    + simpl. right. left. reflexivity.
    + reflexivity.
    + reflexivity.
    + reflexivity.
    + left. reflexivity.
  - repeat split; vm_compute; reflexivity.
Defined.

(** C5, refuted as stated.  On a control-plane node, [kube-apiserver]
    (id 2) joins [etcd] (id 1), which avoids it; and a bundle is placed
    whole, so B (id 2) shares a node with C (id 3), which it avoids. *)
Lemma avoid_counterexample :
  (exists sizing,
     fst (Fixtures.sizeFrom Fixtures.fresh AvoidFixtures.controlPlane
            [Fixtures.machineSet "controlPlane" 8 16]) = inr sizing
     /\ map Node.services (nodes sizing) = [[1; 2]]
     /\ map (fun s => (Service.id s, Service.avoid s)) (services sizing)
        = [(Some 1, [2]); (Some 2, [])])
  /\ (exists sizing,
     fst (Fixtures.sizeFrom Fixtures.fresh AvoidFixtures.conflicting
            [Fixtures.machineSet "worker" 8 16]) = inr sizing
     /\ map Node.services (nodes sizing) = [[1; 2; 3]]
     /\ map (fun s => (Service.id s, Service.avoid s)) (services sizing)
        = [(Some 1, []); (Some 2, [3]); (Some 3, [])]).
Proof.
  split; eexists; (split; [vm_compute; reflexivity | split; reflexivity]).
Qed.

Lemma avoid_respected_on_every_node_witness :
  exists out c',
    size toLowerCase_ascii kubeletCPU_model kubeletMemory_model catalog_model
      AvoidFixtures.antiAffinity
      BAREMETAL (Some [Fixtures.machineSet "worker" 8 16]) Fixtures.fresh = (inr out, c')
    /\ map Node.services (nodes out) = [[1]; [2]]
    /\ forall n, In n (nodes out) -> avoidRespected (services out) n.
Proof.
  eexists. eexists. split; [vm_compute; reflexivity|]. split; [reflexivity|].
  eapply (avoid_respected_on_every_node toLowerCase_ascii kubeletCPU_model kubeletMemory_model
    catalog_model
            AvoidFixtures.antiAffinity BAREMETAL (Some [Fixtures.machineSet "worker" 8 16])
            Fixtures.fresh).
  - vm_compute; reflexivity.
  - intros m s Hm Hs. simpl in Hm, Hs.
    destruct Hm as [<- | []]. destruct Hs as [<- | [<- | []]]; reflexivity.
  - intros cand a b ia ib Hc Ha Hb Hia Hib Hga Hgb Hneq. simpl in Hc, Ha, Hb.
    destruct Hc as [<- | [<- | []]];
      destruct Ha as [<- | [<- | []]];
      destruct Hb as [<- | [<- | []]];
      simpl in Hia, Hib, Hga, Hgb;
      inversion Hia; inversion Hib; subst;
      try congruence;
      try (destruct Hga as [Hga | []]; discriminate Hga);
      try (destruct Hgb as [Hgb | []]; discriminate Hgb);
      simpl; intuition congruence.
Defined.


(** * Concrete instances of the further properties *)

Lemma addServiceToZone_fills_least_loaded_viable_node_witness :
  exists target,
    In target (st_nodes ReplicaFixtures.afterA)
    /\ includesZ (Zone.nodes (Zone.mk 1 [1])) (Node.id target) = true
    /\ viable toLowerCase_ascii kubeletCPU_model kubeletMemory_model
         [ReplicaFixtures.serviceA; ReplicaFixtures.serviceB] [ReplicaFixtures.serviceB]
         [ReplicaFixtures.owner] [Fixtures.machineSet "worker" 8 16] target = true
    /\ (forall n, In n (st_nodes ReplicaFixtures.afterA) ->
          includesZ (Zone.nodes (Zone.mk 1 [1])) (Node.id n) = true ->
          viable toLowerCase_ascii kubeletCPU_model kubeletMemory_model
            [ReplicaFixtures.serviceA; ReplicaFixtures.serviceB] [ReplicaFixtures.serviceB]
            [ReplicaFixtures.owner] [Fixtures.machineSet "worker" 8 16] n = true ->
          (getTotalNodeMemoryConsumption target
             [ReplicaFixtures.serviceA; ReplicaFixtures.serviceB]
           <= getTotalNodeMemoryConsumption n
                [ReplicaFixtures.serviceA; ReplicaFixtures.serviceB])%Q)
    /\ addServiceToZone toLowerCase_ascii kubeletCPU_model kubeletMemory_model (Zone.mk 1 [1])
         (st_nodes ReplicaFixtures.afterA)
         [ReplicaFixtures.serviceA; ReplicaFixtures.serviceB] [ReplicaFixtures.serviceB]
         [ReplicaFixtures.owner] [Fixtures.machineSet "worker" 8 16] Fixtures.fresh
       = (inr (replaceFirst (fun n => Node.id n =? Node.id target)
                 (fun n => Node.with_services n
                             (Node.services n ++ definedIds [ReplicaFixtures.serviceB]))
                 (st_nodes ReplicaFixtures.afterA),
               Zone.mk 1 [1]), Fixtures.fresh).
Proof.
  apply (addServiceToZone_fills_least_loaded_viable_node toLowerCase_ascii kubeletCPU_model
    kubeletMemory_model
           (Zone.mk 1 [1]) (st_nodes ReplicaFixtures.afterA)
           [ReplicaFixtures.serviceA; ReplicaFixtures.serviceB] [ReplicaFixtures.serviceB]
           [ReplicaFixtures.owner] [Fixtures.machineSet "worker" 8 16] Fixtures.fresh).
  eexists. split; [left; reflexivity|]. split; vm_compute; reflexivity.
Defined.

Lemma chooseZone_takes_zone_with_fewest_capable_nodes_witness :
  map (capableNodes kubeletCPU_model kubeletMemory_model (st_nodes Fixtures.twoZones)
         [Fixtures.small] [Fixtures.small]) (st_zones Fixtures.twoZones) = [1; 2]
  /\ exists z,
       chooseZone kubeletCPU_model kubeletMemory_model [Fixtures.small] [Fixtures.small]
         Fixtures.twoZones
       = (Some z, st_usedZonesId Fixtures.twoZones ++ [Zone.id z])
       /\ In z (st_zones Fixtures.twoZones)
       /\ ~ In (Zone.id z) (st_usedZonesId Fixtures.twoZones)
       /\ 0 < capableNodes kubeletCPU_model kubeletMemory_model (st_nodes Fixtures.twoZones)
                [Fixtures.small] [Fixtures.small] z
       /\ forall z', In z' (st_zones Fixtures.twoZones) ->
            ~ In (Zone.id z') (st_usedZonesId Fixtures.twoZones) ->
            0 < capableNodes kubeletCPU_model kubeletMemory_model
                  (st_nodes Fixtures.twoZones) [Fixtures.small] [Fixtures.small] z' ->
            capableNodes kubeletCPU_model kubeletMemory_model (st_nodes Fixtures.twoZones)
              [Fixtures.small] [Fixtures.small] z
            <= capableNodes kubeletCPU_model kubeletMemory_model (st_nodes Fixtures.twoZones)
                 [Fixtures.small] [Fixtures.small] z'
            /\ (capableNodes kubeletCPU_model kubeletMemory_model
                  (st_nodes Fixtures.twoZones) [Fixtures.small] [Fixtures.small] z'
                = capableNodes kubeletCPU_model kubeletMemory_model
                    (st_nodes Fixtures.twoZones) [Fixtures.small] [Fixtures.small] z ->
                Zone.id z <= Zone.id z').
Proof.
  split; [vm_compute; reflexivity|].
  apply (chooseZone_takes_zone_with_fewest_capable_nodes kubeletCPU_model kubeletMemory_model
           [Fixtures.small] [Fixtures.small] Fixtures.twoZones).
  exists (Zone.mk 2 [2; 3]). split; [right; left; reflexivity|].
  split; [intros [] | vm_compute; reflexivity].
Defined.

Lemma isWorkloadSchedulable_monotone_witness :
  fst (isWorkloadSchedulable kubeletCPU_model kubeletMemory_model
         [ReplicaFixtures.serviceA; ReplicaFixtures.serviceB]
         [Fixtures.machineSet "big" 16 64] ReplicaFixtures.owner) = true
  /\ fst (isWorkloadSchedulable kubeletCPU_model kubeletMemory_model
            [ReplicaFixtures.serviceA; ReplicaFixtures.serviceB]
            CapacityFixtures.smallThenBig ReplicaFixtures.owner) = true.
Proof.
  split; [vm_compute; reflexivity|].
  apply (isWorkloadSchedulable_monotone kubeletCPU_model kubeletMemory_model
           [ReplicaFixtures.serviceA; ReplicaFixtures.serviceB]
           [Fixtures.machineSet "big" 16 64] CapacityFixtures.smallThenBig
           ReplicaFixtures.owner).
  - intros m [<- | []]. right. left. reflexivity.
  - vm_compute; reflexivity.
Defined.

Lemma size_draws_consecutive_ids_witness :
  exists out c',
    size toLowerCase_ascii kubeletCPU_model kubeletMemory_model catalog_model Fixtures.threeZones
      BAREMETAL (Some [Fixtures.machineSet "worker" 32 64]) (mkCounters 10 20 30 40)
    = (inr out, c')
    /\ c' = mkCounters 13 23 31 43
    /\ map Service.id (services out)
       = map Some (consecutive 40 (List.length (services out)))
    /\ map Zone.id (zoneDetails out) = consecutive 10 (List.length (zoneDetails out))
    /\ map Node.id (nodes out) = consecutive 20 (List.length (nodes out))
    /\ c' = mkCounters (10 + zones out) (20 + nodeCount out)
              (30 + Z.of_nat (List.length Fixtures.threeZones))
              (40 + Z.of_nat (List.length (services out))).
Proof.
  eexists. eexists. split; [vm_compute; reflexivity|]. split; [reflexivity|].
  eapply (size_draws_consecutive_ids toLowerCase_ascii kubeletCPU_model kubeletMemory_model
    catalog_model
           Fixtures.threeZones BAREMETAL (Some [Fixtures.machineSet "worker" 32 64])
           (mkCounters 10 20 30 40)).
  vm_compute; reflexivity.
Defined.

Lemma size_zones_partition_nodes_witness :
  exists out c',
    size toLowerCase_ascii kubeletCPU_model kubeletMemory_model catalog_model Fixtures.threeZones
      BAREMETAL (Some [Fixtures.machineSet "worker" 32 64]) Fixtures.fresh = (inr out, c')
    /\ map Zone.nodes (zoneDetails out) = [[1]; [2]; [3]]
    /\ Permutation (flat_map Zone.nodes (zoneDetails out)) (map Node.id (nodes out))
    /\ NoDup (map Node.id (nodes out)).
Proof.
  eexists. eexists. split; [vm_compute; reflexivity|]. split; [reflexivity|].
  eapply (size_zones_partition_nodes toLowerCase_ascii kubeletCPU_model kubeletMemory_model
    catalog_model
           Fixtures.threeZones BAREMETAL (Some [Fixtures.machineSet "worker" 32 64])
           Fixtures.fresh _ _).
  vm_compute; reflexivity.
Defined.

Lemma size_zone_count_witness :
  exists out c',
    size toLowerCase_ascii kubeletCPU_model kubeletMemory_model catalog_model
      ReplicaFixtures.oneWithThree
      BAREMETAL (Some [Fixtures.machineSet "worker" 8 16]) Fixtures.fresh = (inr out, c')
    /\ zones out = 3
    /\ zones out
       = zonesRequired (services out)
           (expandedWorkloads ReplicaFixtures.oneWithThree Fixtures.fresh)
    /\ zones out = Z.of_nat (List.length (zoneDetails out)).
Proof.
  eexists. eexists. split; [vm_compute; reflexivity|]. split; [reflexivity|].
  eapply (size_zone_count toLowerCase_ascii kubeletCPU_model kubeletMemory_model catalog_model
           ReplicaFixtures.oneWithThree BAREMETAL (Some [Fixtures.machineSet "worker" 8 16])
           Fixtures.fresh _ _).
  vm_compute; reflexivity.
Defined.

Lemma size_result_is_stable_under_pruneNodes_witness :
  exists out c',
    size toLowerCase_ascii kubeletCPU_model kubeletMemory_model catalog_model Fixtures.chain
      BAREMETAL (Some [Fixtures.machineSet "worker" 8 16]) Fixtures.fresh = (inr out, c')
    /\ map Node.services (nodes out) = [[1; 2]; [3]]
    /\ (forall n, In n (nodes out) -> Node.services n <> [])
    /\ pruneNodes (nodes out) (zoneDetails out) = (nodes out, zoneDetails out).
Proof.
  eexists. eexists. split; [vm_compute; reflexivity|]. split; [reflexivity|].
  eapply (size_result_is_stable_under_pruneNodes toLowerCase_ascii kubeletCPU_model
    kubeletMemory_model
           catalog_model Fixtures.chain BAREMETAL (Some [Fixtures.machineSet "worker" 8 16])
           Fixtures.fresh _ _).
  vm_compute; reflexivity.
Defined.

Lemma size_nodes_are_instances_of_machine_sets_witness :
  exists out c',
    size toLowerCase_ascii kubeletCPU_model kubeletMemory_model catalog_model
      CapacityFixtures.twoCores
      BAREMETAL (Some CapacityFixtures.smallThenBig) Fixtures.fresh = (inr out, c')
    /\ map Node.machineSet (nodes out) = ["small"%string]
    /\ forall n, In n (nodes out) ->
         exists m,
           In m (availableMachineSets catalog_model BAREMETAL
                   (Some CapacityFixtures.smallThenBig))
           /\ Node.machineSet n = MachineSet.name m
           /\ Node.cpuUnits n = MachineSet.cpu m
           /\ Node.memory n = MachineSet.memory m
           /\ Node.maxDisks n = MachineSet.numberOfDisks m
           /\ Node.isControlPlane n = Some (String.eqb (MachineSet.name m) "controlPlane").
Proof.
  eexists. eexists. split; [vm_compute; reflexivity|]. split; [reflexivity|].
  eapply (size_nodes_are_instances_of_machine_sets toLowerCase_ascii kubeletCPU_model
    kubeletMemory_model
           catalog_model CapacityFixtures.twoCores BAREMETAL
           (Some CapacityFixtures.smallThenBig) Fixtures.fresh _ _).
  vm_compute; reflexivity.
Defined.

Lemma node_within_capacity_has_no_risk_witness :
  riskLevel (calculateNodeOverCommit kubeletCPU_model kubeletMemory_model
               (MetricsFixtures.nodeHosting 1 [1])
               (getServicesInNode (MetricsFixtures.nodeHosting 1 [1])
                  [ReplicaFixtures.serviceA; ReplicaFixtures.serviceB])) = none
  /\ riskLevel (calculateNodeOverCommit_lib kubeletCPU_model kubeletMemory_model
                  (MetricsFixtures.nodeHosting 1 [1])
                  (getServicesInNode (MetricsFixtures.nodeHosting 1 [1])
                     [ReplicaFixtures.serviceA; ReplicaFixtures.serviceB])) = none.
Proof.
  apply (node_within_capacity_has_no_risk kubeletCPU_model kubeletMemory_model
           [ReplicaFixtures.serviceA; ReplicaFixtures.serviceB]
           (MetricsFixtures.nodeHosting 1 [1])).
  - unfold capacityRespected. cbv zeta. repeat split; vm_compute; discriminate.
  - intros s [<- | [<- | []]]; repeat split; reflexivity.
Defined.

Lemma node_without_allocatable_capacity_has_no_risk_witness :
  getMaxValue (cpuOverCommitRatio
                 (calculateNodeOverCommit kubeletCPU_model kubeletMemory_model
                    MetricsFixtures.noCapacity [MetricsFixtures.limited])) = 1%Q
  /\ getMaxValue (memoryOverCommitRatio
                    (calculateNodeOverCommit kubeletCPU_model kubeletMemory_model
                       MetricsFixtures.noCapacity [MetricsFixtures.limited])) = 1%Q
  /\ riskLevel (calculateNodeOverCommit kubeletCPU_model kubeletMemory_model
                  MetricsFixtures.noCapacity [MetricsFixtures.limited]) = none.
Proof.
  apply (node_without_allocatable_capacity_has_no_risk kubeletCPU_model kubeletMemory_model
           MetricsFixtures.noCapacity [MetricsFixtures.limited]);
    vm_compute; discriminate.
Defined.

Lemma metrics_copies_agree_without_ranges_witness :
  calculateNodeOverCommit kubeletCPU_model kubeletMemory_model
    (MetricsFixtures.nodeHosting 1 [1]) [MetricsFixtures.limited]
  = calculateNodeOverCommit_lib kubeletCPU_model kubeletMemory_model
      (MetricsFixtures.nodeHosting 1 [1]) [MetricsFixtures.limited]
  /\ calculateClusterOverCommit kubeletCPU_model kubeletMemory_model
       [MetricsFixtures.nodeHosting 1 [1]] [MetricsFixtures.limited]
     = calculateClusterOverCommit_lib kubeletCPU_model kubeletMemory_model
         [MetricsFixtures.nodeHosting 1 [1]] [MetricsFixtures.limited].
Proof.
  apply (metrics_copies_agree_without_ranges kubeletCPU_model kubeletMemory_model
           [MetricsFixtures.nodeHosting 1 [1]] (MetricsFixtures.nodeHosting 1 [1])
           [MetricsFixtures.limited]).
  intros s [<- | []]. repeat split; reflexivity.
Defined.

Lemma size_lists_every_service_once_per_replica_witness :
  exists out c',
    size toLowerCase_ascii kubeletCPU_model kubeletMemory_model catalog_model
      ReplicaFixtures.oneWithThree
      BAREMETAL (Some [Fixtures.machineSet "worker" 8 16]) Fixtures.fresh = (inr out, c')
    /\ map Service.zones (services out) = [1; 3]
    /\ map (fun i => placements i (nodes out)) [1; 2] = [3%nat; 3%nat]
    /\ forall s i,
         In s (services out) -> Service.id s = Some i ->
         exists w bundle,
           In w (expandedWorkloads ReplicaFixtures.oneWithThree Fixtures.fresh)
           /\ isBundleOf w (services out) bundle
           /\ In s bundle
           /\ placements i (nodes out) = Z.to_nat (getMaxZones bundle).
Proof.
  eexists. eexists. split; [vm_compute; reflexivity|]. split; [reflexivity|].
  split; [reflexivity|].
  eapply (size_lists_every_service_once_per_replica toLowerCase_ascii kubeletCPU_model
    kubeletMemory_model
           catalog_model ReplicaFixtures.oneWithThree BAREMETAL
           (Some [Fixtures.machineSet "worker" 8 16]) Fixtures.fresh _ _).
  vm_compute; reflexivity.
Defined.

Lemma size_respects_usesMachines_witness :
  exists out c',
    size toLowerCase_ascii kubeletCPU_model kubeletMemory_model catalog_model RepeatFixtures.basic
      BAREMETAL (Some RepeatFixtures.worker) Fixtures.fresh = (inr out, c')
    /\ map Workload.usesMachines (expandedWorkloads RepeatFixtures.basic Fixtures.fresh)
       = [["worker"%string]]
    /\ forall w n i,
         In w (expandedWorkloads RepeatFixtures.basic Fixtures.fresh) ->
         In n (nodes out) ->
         In i (Workload.services w) -> In i (Node.services n) ->
         Workload.usesMachines w <> [] ->
         In (Node.machineSet n) (Workload.usesMachines w).
Proof.
  eexists. eexists. split; [vm_compute; reflexivity|]. split; [reflexivity|].
  eapply (size_respects_usesMachines toLowerCase_ascii kubeletCPU_model kubeletMemory_model
    catalog_model
           RepeatFixtures.basic BAREMETAL (Some RepeatFixtures.worker) Fixtures.fresh _ _).
  - vm_compute; reflexivity.
  - intros m [<- | []]. reflexivity.
Defined.


(** The last two hypotheses of X29 are needed.  With a one-core machine set
    listed before a sixteen-core one, the two-core service passes the
    feasibility analysis thanks to the second and is placed on a new node
    created from the first; and on a control-plane node two control-plane
    services of five cores each share eight cores. *)
Lemma capacity_counterexample :
  (exists sizing n,
     fst (Fixtures.sizeFrom Fixtures.fresh CapacityFixtures.twoCores
            CapacityFixtures.smallThenBig) = inr sizing
     /\ nodes sizing = [n]
     /\ Node.machineSet n = "small"%string
     /\ (Node.cpuUnits n
         < sumQ Service.requiredCPU (getServicesInNode n (services sizing))
           + kubeletCPU_model (Node.cpuUnits n))%Q)
  /\ (exists sizing n,
     fst (Fixtures.sizeFrom Fixtures.fresh CapacityFixtures.controlPlane
            [Fixtures.machineSet "controlPlane" 8 16]) = inr sizing
     /\ nodes sizing = [n]
     /\ Node.services n = [1; 2]
     /\ (Node.cpuUnits n
         < sumQ Service.requiredCPU (getServicesInNode n (services sizing))
           + kubeletCPU_model (Node.cpuUnits n))%Q).
Proof.
  split; eexists; eexists;
    (split; [vm_compute; reflexivity
            | split; [reflexivity | split; [reflexivity | vm_compute; reflexivity]]]).
Qed.

Lemma capacity_respected_on_every_node_witness :
  exists out c',
    size toLowerCase_ascii kubeletCPU_model kubeletMemory_model catalog_model
      CapacityFixtures.threeServices
      BAREMETAL (Some [Fixtures.machineSet "worker" 8 32]) Fixtures.fresh = (inr out, c')
    /\ map Node.services (nodes out) = [[1; 2; 3]]
    /\ forall n, In n (nodes out) ->
         capacityRespected kubeletCPU_model kubeletMemory_model (services out) n.
Proof.
  eexists. eexists. split; [vm_compute; reflexivity|]. split; [reflexivity|].
  eapply (capacity_respected_on_every_node toLowerCase_ascii kubeletCPU_model kubeletMemory_model
    catalog_model
            CapacityFixtures.threeServices BAREMETAL (Some [Fixtures.machineSet "worker" 8 32])
            Fixtures.fresh).
  - vm_compute; reflexivity.
  - intros s Hs. simpl in Hs.
    destruct Hs as [<- | [<- | [<- | []]]]; split; vm_compute; discriminate.
  - intros m s Hm Hs. simpl in Hm, Hs.
    destruct Hm as [<- | []]. destruct Hs as [<- | [<- | [<- | []]]]; reflexivity.
  - intros w Hw. vm_compute in Hw. destruct Hw as [<- | []].
    exists (Fixtures.machineSet "worker" 8 32). split; [reflexivity|].
    vm_compute. left. reflexivity.
Defined.

Lemma replica_goes_to_highest_zone_after_reset_witness :
  exists z z',
    In z (st_zones ReplicaFixtures.afterFirstB)
    /\ (forall z0, In z0 (st_zones ReplicaFixtures.afterFirstB) -> Zone.id z0 <= Zone.id z)
    /\ addServiceToZone toLowerCase_ascii kubeletCPU_model kubeletMemory_model z
         (st_nodes ReplicaFixtures.afterFirstB)
         [ReplicaFixtures.serviceA; ReplicaFixtures.serviceB] [ReplicaFixtures.serviceB]
         [ReplicaFixtures.owner] [Fixtures.machineSet "worker" 8 16] (mkCounters 2 2 1 2)
       = (inr (st_nodes ReplicaFixtures.afterSecondB, z'), mkCounters 2 2 1 2)
    /\ st_usedZonesId ReplicaFixtures.afterSecondB = [Zone.id z].
Proof.
  apply (replica_goes_to_highest_zone_after_reset toLowerCase_ascii
           kubeletCPU_model kubeletMemory_model ReplicaFixtures.owner
           [ReplicaFixtures.serviceA; ReplicaFixtures.serviceB]
           [Fixtures.machineSet "worker" 8 16] [ReplicaFixtures.serviceB]
           ReplicaFixtures.afterFirstB ReplicaFixtures.afterSecondB
           (mkCounters 2 2 1 2) (mkCounters 2 2 1 2)).
  - intros z0 [<- | [<- | []]]; simpl; auto.
  - vm_compute; reflexivity.
Defined.
